(** * GDD Studio (app.js): document store, context assembler, relevance
    detector and import normaliser, embedded as Rocq functions.

    JavaScript strings are sequences of UTF-16 code units and are modelled
    as [list Z]; plain objects used as maps keep their entries in insertion
    order and are modelled as association lists.  The clock ([Date.now()],
    [new Date().toISOString()]), the date parser and printer and the DOM
    form fields are inputs of the functions that read them. *)

From Stdlib Require Import ZArith List String Ascii Bool QArith Lia.
From Stdlib Require Import Sorting.Sorted.
Import ListNotations.
Local Open Scope Z_scope.
Local Open Scope list_scope.

(** ** Strings *)

Module Js.

(** A string is its list of UTF-16 code units. *)
Definition jsstring := list Z.

(** [a === b] *)
Fixpoint unitsEq (a b : jsstring) : bool :=
  match a, b with
  | [], [] => true
  | x :: a', y :: b' => (x =? y) && unitsEq a' b'
  | _, _ => false
  end.

(** Literals are written as UTF-8 text and decoded to code points. *)
Fixpoint decodeUtf8 (bs : list Z) : list Z :=
  match bs with
  | [] => []
  | b0 :: t0 =>
    if b0 <? 0x80 then b0 :: decodeUtf8 t0
    else match t0 with
    | [] => [b0]
    | b1 :: t1 =>
      if b0 <? 0xE0
      then Z.lor (Z.shiftl (Z.land b0 0x1F) 6) (Z.land b1 0x3F) :: decodeUtf8 t1
      else match t1 with
      | [] => [b0; b1]
      | b2 :: t2 =>
        if b0 <? 0xF0
        then Z.lor (Z.shiftl (Z.land b0 0x0F) 12)
               (Z.lor (Z.shiftl (Z.land b1 0x3F) 6) (Z.land b2 0x3F))
             :: decodeUtf8 t2
        else match t2 with
        | [] => [b0; b1; b2]
        | b3 :: t3 =>
          Z.lor (Z.shiftl (Z.land b0 0x07) 18)
            (Z.lor (Z.shiftl (Z.land b1 0x3F) 12)
               (Z.lor (Z.shiftl (Z.land b2 0x3F) 6) (Z.land b3 0x3F)))
          :: decodeUtf8 t3
        end
      end
    end
  end.

(** A code point above the basic plane is a surrogate pair. *)
Definition encodeUtf16 (cp : Z) : list Z :=
  if cp <? 0x10000 then [cp]
  else [ 0xD800 + Z.shiftr (cp - 0x10000) 10
       ; 0xDC00 + Z.land (cp - 0x10000) 0x3FF ].

Fixpoint bytesOf (s : string) : list Z :=
  match s with
  | EmptyString => []
  | String a r => Z.of_nat (nat_of_ascii a) :: bytesOf r
  end.

Definition js (s : string) : jsstring :=
  flat_map encodeUtf16 (decodeUtf8 (bytesOf s)).

(** [\s] of a regular expression, which is also what [trim] removes:
    WhiteSpace and LineTerminator of the language. *)
Definition isWhiteSpace (c : Z) : bool :=
  ((9 <=? c) && (c <=? 13)) || (c =? 32) || (c =? 0xA0) || (c =? 0x1680)
  || ((0x2000 <=? c) && (c <=? 0x200A)) || (c =? 0x2028) || (c =? 0x2029)
  || (c =? 0x202F) || (c =? 0x205F) || (c =? 0x3000) || (c =? 0xFEFF).

(** What [.] of a regular expression refuses. *)
Definition isLineTerminator (c : Z) : bool :=
  (c =? 10) || (c =? 13) || (c =? 0x2028) || (c =? 0x2029).

Fixpoint trimStart (s : jsstring) : jsstring :=
  match s with
  | [] => []
  | c :: r => if isWhiteSpace c then trimStart r else s
  end.

Definition trimEnd (s : jsstring) : jsstring := rev (trimStart (rev s)).

(** [s.trim()] *)
Definition trim (s : jsstring) : jsstring := trimEnd (trimStart s).

(** [s.startsWith(p)] *)
Fixpoint startsWith (p s : jsstring) : bool :=
  match p, s with
  | [], _ => true
  | _ :: _, [] => false
  | a :: p', b :: s' => (a =? b) && startsWith p' s'
  end.

(** [s.includes(k)] *)
Fixpoint includes (s k : jsstring) : bool :=
  startsWith k s ||
  match s with
  | [] => false
  | _ :: r => includes r k
  end.

(** [s.split(sep)] for a one-unit separator; the empty string splits into
    one empty piece. *)
Fixpoint split (sep : Z) (s : jsstring) : list jsstring :=
  match s with
  | [] => [[]]
  | c :: r =>
    if c =? sep then [] :: split sep r
    else match split sep r with
         | l :: ls => (c :: l) :: ls
         | [] => [[c]]
         end
  end.

(** [pieces.join(sep)] *)
Fixpoint join (sep : jsstring) (pieces : list jsstring) : jsstring :=
  match pieces with
  | [] => []
  | [p] => p
  | p :: rest => p ++ sep ++ join sep rest
  end.

(** [s.substring(0, n)] *)
Definition substring0 (n : nat) (s : jsstring) : jsstring := firstn n s.

(** [lines.slice(a, b)] *)
Definition slice {A} (a b : nat) (l : list A) : list A :=
  firstn (b - a) (skipn a l).

(** [s.toLowerCase()], unit by unit.  The mapping is written out for Basic
    Latin, Latin-1, Latin Extended-A and the Kelvin and Angstrom signs:
    these are the only characters whose lower case is an ASCII letter or a
    letter of the keyword tables.  Other units keep their value. *)
Definition lowerUnit (c : Z) : list Z :=
  if (0x41 <=? c) && (c <=? 0x5A) then [c + 32]
  else if (0xC0 <=? c) && (c <=? 0xDE) && negb (c =? 0xD7) then [c + 32]
  else if c =? 0x130 then [0x69; 0x307]
  else if (0x100 <=? c) && (c <=? 0x137) && Z.even c then [c + 1]
  else if (0x139 <=? c) && (c <=? 0x148) && Z.odd c then [c + 1]
  else if (0x14A <=? c) && (c <=? 0x177) && Z.even c then [c + 1]
  else if c =? 0x178 then [0xFF]
  else if (0x179 <=? c) && (c <=? 0x17E) && Z.odd c then [c + 1]
  else if c =? 0x212A then [0x6B]
  else if c =? 0x212B then [0xE5]
  else [c].

Definition toLowerCase (s : jsstring) : jsstring := flat_map lowerUnit s.

(** Case folding of an [/i] pattern without the [u] flag: an ASCII letter
    matches its two cases and nothing else. *)
Definition foldAscii (c : Z) : Z :=
  if (0x41 <=? c) && (c <=? 0x5A) then c + 32 else c.

Fixpoint startsWithCI (p s : jsstring) : bool :=
  match p, s with
  | [], _ => true
  | _ :: _, [] => false
  | a :: p', b :: s' => (foldAscii a =? foldAscii b) && startsWithCI p' s'
  end.

Fixpoint takeWhile (f : Z -> bool) (s : jsstring) : jsstring :=
  match s with
  | [] => []
  | c :: r => if f c then c :: takeWhile f r else []
  end.

(** Decimal digits of a number, as [String(n)] prints an integer. *)
Fixpoint digitsOfPos (fuel : nat) (n : Z) (acc : jsstring) : jsstring :=
  match fuel with
  | O => acc
  | S f => if n <? 10 then (0x30 + n) :: acc
           else digitsOfPos f (n / 10) ((0x30 + n mod 10) :: acc)
  end.

Definition numberToString (n : Z) : jsstring :=
  if n <? 0 then 0x2D :: digitsOfPos (Z.to_nat (Z.log2 (- n)) + 1) (- n) []
  else digitsOfPos (Z.to_nat (Z.log2 n) + 1) n [].

End Js.
Import Js.

(** ** Plain objects used as maps *)

Module Obj.

(** Own properties, in insertion order, each key once.  (JavaScript lists
    keys that look like array indices first; no function below depends on
    where such a key stands.) *)
Definition obj (A : Type) := list (jsstring * A).

(** [Object.hasOwn(o, k) ? o[k] : undefined] *)
Fixpoint get {A} (k : jsstring) (o : obj A) : option A :=
  match o with
  | [] => None
  | (k', v) :: r => if unitsEq k k' then Some v else get k r
  end.

(** [o[k] = v]: an existing key keeps its place, a new key goes last. *)
Fixpoint set {A} (k : jsstring) (v : A) (o : obj A) : obj A :=
  match o with
  | [] => [(k, v)]
  | (k', v') :: r => if unitsEq k k' then (k, v) :: r else (k', v') :: set k v r
  end.

Definition keys {A} (o : obj A) : list jsstring := map fst o.

(** What an object literal inherits from [Object.prototype]. *)
Definition objectPrototypeNames : list jsstring :=
  [ js "constructor"; js "hasOwnProperty"; js "isPrototypeOf"
  ; js "propertyIsEnumerable"; js "toLocaleString"; js "toString"
  ; js "valueOf"; js "__proto__"; js "__defineGetter__"
  ; js "__defineSetter__"; js "__lookupGetter__"; js "__lookupSetter__" ].

(** The value of [o[k]] when [o] was created by an object literal: an own
    property, else a member of the prototype, else [undefined]. *)
Inductive lookupResult (A : Type) : Type :=
| Own (v : A)
| Inherited (name : jsstring)
| Undefined.
Arguments Own {A} v.
Arguments Inherited {A} name.
Arguments Undefined {A}.

Definition lookup {A} (k : jsstring) (o : obj A) : lookupResult A :=
  match get k o with
  | Some v => Own v
  | None => if existsb (unitsEq k) objectPrototypeNames
            then Inherited k else Undefined
  end.

End Obj.
Import Obj.

(** ** Parsed JSON *)

#[local] Set Warnings "-register-all".

(** The value [JSON.parse] returns.  An object holds its properties in
    order, each key once. *)
Inductive json : Type :=
| JNull
| JBool (b : bool)
| JNum (q : Q)
| JStr (s : jsstring)
| JArr (items : list json)
| JObj (props : list (jsstring * json)).

(** [!!v] *)
Definition truthy (v : json) : bool :=
  match v with
  | JNull => false
  | JBool b => b
  | JNum q => negb (Qnum q =? 0)
  | JStr s => negb (unitsEq s [])
  | JArr _ => true
  | JObj _ => true
  end.

(** [data.name] for a parsed value other than [null]: the property of an
    object, [undefined] (here [None]) on an object without it and on
    numbers, strings, booleans and arrays.  ([length] of a string or array
    is not a name asked below.) *)
Definition field (name : jsstring) (v : json) : option json :=
  match v with
  | JObj props => get name props
  | _ => None
  end.

(** [!data.name] *)
Definition falsyField (name : jsstring) (v : json) : bool :=
  match field name v with
  | Some x => negb (truthy x)
  | None => true
  end.

(** ** The registry and the store *)

Record sectionDef := {
  s_id : jsstring;
  s_title : jsstring;
  s_icon : jsstring;
  s_description : jsstring;
  s_prompt : jsstring
}.

Definition GDD_SECTIONS : list sectionDef :=
  [ {| s_id := js "overview"; s_title := js "Game Overview";
       s_icon := js "fa-gamepad";
       s_description := js "General concept and vision of the game";
       s_prompt := js "Game overview, concept, genre, target audience, and unique selling points" |}
  ; {| s_id := js "gameplay"; s_title := js "Gameplay Mechanics";
       s_icon := js "fa-cogs";
       s_description := js "Core game mechanics and systems";
       s_prompt := js "Core gameplay loop, controls, mechanics, and game systems" |}
  ; {| s_id := js "story"; s_title := js "Story & Narrative";
       s_icon := js "fa-book";
       s_description := js "Game story and narrative structure";
       s_prompt := js "Main story, narrative summary, story structure, and themes" |}
  ; {| s_id := js "characters"; s_title := js "Characters";
       s_icon := js "fa-users";
       s_description := js "Main and supporting characters";
       s_prompt := js "Main character, supporting characters, enemies, and NPCs" |}
  ; {| s_id := js "world"; s_title := js "World & Level Design";
       s_icon := js "fa-globe";
       s_description := js "Game world and level structure";
       s_prompt := js "Game world, locations, level design, and environment" |}
  ; {| s_id := js "art"; s_title := js "Art Style";
       s_icon := js "fa-palette";
       s_description := js "Art direction and visual design";
       s_prompt := js "Art style, color palette, UI/UX design, and visual references" |}
  ; {| s_id := js "audio"; s_title := js "Sound Design";
       s_icon := js "fa-volume-up";
       s_description := js "Music and sound effects";
       s_prompt := js "Music style, sound effects, voice acting, and ambient sounds" |}
  ; {| s_id := js "technical"; s_title := js "Technical Requirements";
       s_icon := js "fa-server";
       s_description := js "Technical specs and requirements";
       s_prompt := js "Game engine, platform requirements, minimum/recommended system specs" |}
  ; {| s_id := js "monetization"; s_title := js "Monetization";
       s_icon := js "fa-coins";
       s_description := js "Revenue model and pricing";
       s_prompt := js "Revenue model, pricing, DLC plans, and in-app purchases" |}
  ; {| s_id := js "timeline"; s_title := js "Timeline";
       s_icon := js "fa-calendar-alt";
       s_description := js "Development plan and milestones";
       s_prompt := js "Development phases, milestones, and release date plan" |} ].

(** [GDD_SECTIONS.find(s => s.id === key)] *)
Definition findSection (key : jsstring) : option sectionDef :=
  find (fun s => unitsEq (s_id s) key) GDD_SECTIONS.

Definition registryIds : list jsstring := map s_id GDD_SECTIONS.

(** A project.  [id] and [description] are absent on a project read from
    markdown. *)
Record project := {
  p_id : option Q;
  p_name : jsstring;
  p_genre : jsstring;
  p_description : option jsstring;
  p_platforms : list jsstring;
  p_createdAt : jsstring;
  p_updatedAt : jsstring
}.

(** A value of [state.gddData]. *)
Record sectionData := {
  content : option jsstring;
  lastUpdated : option jsstring
}.

Record diagram := {
  d_id : Q;
  d_type : jsstring;
  d_label : jsstring;
  d_code : jsstring;
  d_createdAt : jsstring
}.

Inductive chatRole := User | Assistant.

Record chatTurn := {
  role : chatRole;
  c_content : jsstring
}.

(** The fields of [state] that the functions below read or write. *)
Record state := {
  currentProject : option project;
  gddData : obj sectionData;
  sectionPrompts : obj jsstring;
  diagramHistory : list diagram;
  chatHistory : list chatTurn;
  generatingSection : option jsstring;
  selectedModel : jsstring;
  isDarkTheme : bool
}.

Definition initialState : state :=
  {| currentProject := None; gddData := []; sectionPrompts := [];
     diagramHistory := []; chatHistory := []; generatingSection := None;
     selectedModel := js "gpt-oss:20b"; isDarkTheme := true |}.

(** What the functions take from outside: the clock, read once per
    operation, the date parser and printers, and the text an engine prints
    for a built-in function. *)
Record env := {
  nowISO : jsstring;
  nowMs : Z;
  parseDateISO : jsstring -> option jsstring;
  localeDateTime : jsstring -> jsstring;
  localeDate : jsstring -> jsstring;
  functionSource : jsstring -> jsstring
}.

(** ** Document store *)

(** The fields of the new-project dialog. *)
Record projectForm := {
  newProjectName : jsstring;
  newProjectDesc : jsstring;
  checkedPlatforms : list jsstring;
  selectedGenres : list jsstring;
  customTags : list jsstring
}.

(** [[...new Set(l)]]: first occurrences, in order. *)
Definition uniq (l : list jsstring) : list jsstring :=
  fold_left (fun seen x => if existsb (unitsEq x) seen then seen else seen ++ [x])
            l [].

Definition nl : jsstring := [10].
Definition dquote : jsstring := [34].

(** The text a template literal prints for a field that may be absent. *)
Definition orUndefined (v : option jsstring) : jsstring :=
  match v with Some s => s | None => js "undefined" end.

Definition createProject (e : env) (form : projectForm) (st : state) : state :=
  let name := trim (newProjectName form) in
  let desc := trim (newProjectDesc form) in
  let platforms := checkedPlatforms form in
  let allGenres := uniq (selectedGenres form ++ customTags form) in
  let genre := match allGenres with
               | [] => js "Unspecified"
               | _ => join (js ", ") allGenres
               end in
  if unitsEq name [] then st
  else
    {| currentProject :=
         Some {| p_id := Some (inject_Z (nowMs e)); p_name := name; p_genre := genre;
                 p_description := Some desc; p_platforms := platforms;
                 p_createdAt := nowISO e; p_updatedAt := nowISO e |};
       gddData :=
         [ (js "overview",
            {| content :=
                 Some (js "# " ++ name ++ nl ++ nl ++ js "**Genre:** " ++ genre
                       ++ nl ++ js "**Platforms:** " ++ join (js ", ") platforms
                       ++ nl ++ nl ++ desc);
               lastUpdated := None |}) ];
       sectionPrompts := sectionPrompts st;
       diagramHistory := diagramHistory st;
       chatHistory := chatHistory st;
       generatingSection := generatingSection st;
       selectedModel := selectedModel st;
       isDarkTheme := isDarkTheme st |}.

Definition withGddData (g : obj sectionData) (st : state) : state :=
  {| currentProject := currentProject st; gddData := g;
     sectionPrompts := sectionPrompts st; diagramHistory := diagramHistory st;
     chatHistory := chatHistory st; generatingSection := generatingSection st;
     selectedModel := selectedModel st; isDarkTheme := isDarkTheme st |}.

Definition withGenerating (g : option jsstring) (st : state) : state :=
  {| currentProject := currentProject st; gddData := gddData st;
     sectionPrompts := sectionPrompts st; diagramHistory := diagramHistory st;
     chatHistory := chatHistory st; generatingSection := g;
     selectedModel := selectedModel st; isDarkTheme := isDarkTheme st |}.

Definition withDiagrams (d : list diagram) (st : state) : state :=
  {| currentProject := currentProject st; gddData := gddData st;
     sectionPrompts := sectionPrompts st; diagramHistory := d;
     chatHistory := chatHistory st; generatingSection := generatingSection st;
     selectedModel := selectedModel st; isDarkTheme := isDarkTheme st |}.

Definition withPrompts (p : obj jsstring) (st : state) : state :=
  {| currentProject := currentProject st; gddData := gddData st;
     sectionPrompts := p; diagramHistory := diagramHistory st;
     chatHistory := chatHistory st; generatingSection := generatingSection st;
     selectedModel := selectedModel st; isDarkTheme := isDarkTheme st |}.

(** [state.currentProject.updatedAt = new Date().toISOString()] *)
Definition touch (e : env) (st : state) : state :=
  {| currentProject :=
       option_map (fun p =>
         {| p_id := p_id p; p_name := p_name p; p_genre := p_genre p;
            p_description := p_description p; p_platforms := p_platforms p;
            p_createdAt := p_createdAt p; p_updatedAt := nowISO e |})
         (currentProject st);
     gddData := gddData st;
     sectionPrompts := sectionPrompts st; diagramHistory := diagramHistory st;
     chatHistory := chatHistory st; generatingSection := generatingSection st;
     selectedModel := selectedModel st; isDarkTheme := isDarkTheme st |}.

(** [saveSection]: [editor] is the value of the textarea [editor-<id>],
    [None] when the page has no such element.  (Without a project the
    assignment to [updatedAt] throws after the content was stored.) *)
Definition saveSection (e : env) (editor : option jsstring)
    (sectionId : jsstring) (st : state) : state :=
  match editor with
  | None => st
  | Some value =>
    touch e (withGddData
               (set sectionId {| content := Some value; lastUpdated := None |}
                    (gddData st)) st)
  end.

(** ** Context assembler, section-fill mode *)

(** [state.sectionPrompts[sectionId] || ''], as [generateSection] reads it:
    for the id of a registry section, which names no member that the
    object inherits, so the own property decides. *)
Definition customPromptOf (st : state) (sectionId : jsstring) : jsstring :=
  match get sectionId (sectionPrompts st) with
  | Some p => p
  | None => []
  end.

(** [state.gddData[sectionId]?.content?.trim() || ''] *)
Definition existingContentOf (st : state) (sectionId : jsstring) : jsstring :=
  match get sectionId (gddData st) with
  | Some d => match content d with Some c => trim c | None => [] end
  | None => []
  end.

Definition nonEmpty (s : jsstring) : bool := negb (unitsEq s []).

(** [existingContent && customPrompt], as a condition *)
Definition isUpdate (st : state) (sectionId : jsstring) : bool :=
  nonEmpty (existingContentOf st sectionId) && nonEmpty (customPromptOf st sectionId).

Definition promptContext (e : env) (p : project) : jsstring :=
  nl ++ js "Game Name: " ++ p_name p ++ nl
  ++ js "Genre: " ++ p_genre p ++ nl
  ++ js "Platforms: " ++ join (js ", ") (p_platforms p) ++ nl
  ++ js "Description: " ++ orUndefined (p_description p) ++ nl
  ++ js "Project Created: " ++ localeDate e (p_createdAt p) ++ nl
  ++ js "Today's Date: " ++ localeDate e (nowISO e) ++ nl.

Definition isTimeline (sectionId : jsstring) : bool :=
  unitsEq sectionId (js "timeline").

Definition updatePrompt (e : env) (p : project) (section : sectionDef)
    (existingContent customPrompt : jsstring) : jsstring :=
  nl ++ promptContext e p ++ nl
  ++ nl
  ++ js "Here is the CURRENT content of the " ++ dquote ++ s_title section
     ++ dquote ++ js " section:" ++ nl
  ++ nl
  ++ js "---" ++ nl
  ++ existingContent ++ nl
  ++ js "---" ++ nl
  ++ nl
  ++ js "The user wants to MODIFY/UPDATE this section with the following instructions:" ++ nl
  ++ customPrompt ++ nl
  ++ nl
  ++ js "IMPORTANT RULES:" ++ nl
  ++ js "- Keep the existing content structure and information intact" ++ nl
  ++ js "- Apply ONLY the changes the user requested" ++ nl
  ++ js "- Do NOT remove or rewrite parts that the user didn't mention" ++ nl
  ++ js "- Add new content where appropriate based on the user's instructions" ++ nl
  ++ js "- Maintain the same writing style and Markdown formatting" ++ nl
  ++ js "- Return the COMPLETE updated section (not just the changes)" ++ nl
  ++ (if isTimeline (s_id section)
      then js "- Today's date is " ++ localeDate e (nowISO e)
           ++ js ". All dates must be realistic and in the future starting from today."
      else []) ++ nl
  ++ nl
  ++ js "Write in Markdown format with headings and subheadings." ++ nl.

(** [Object.entries(state.gddData).map(...).filter(Boolean).join('')] *)
Definition otherSections (gdd : obj sectionData) (sectionId : jsstring) : jsstring :=
  join []
    (filter nonEmpty
       (map (fun kv : jsstring * sectionData =>
               let (key, val) := kv in
               match findSection key, content val with
               | Some sec, Some c =>
                 if nonEmpty c && negb (unitsEq key sectionId)
                 then nl ++ js "### " ++ s_title sec ++ nl ++ substring0 500 c
                 else []
               | _, _ => []
               end)
            gdd)).

Definition freshPrompt (e : env) (p : project) (section : sectionDef)
    (others customPrompt : jsstring) : jsstring :=
  nl ++ promptContext e p ++ nl
  ++ nl
  ++ (if nonEmpty others
      then js "Other GDD sections for reference:" ++ nl ++ others else []) ++ nl
  ++ nl
  ++ js "Create the " ++ dquote ++ s_title section ++ dquote
     ++ js " section of the GDD from scratch. This is a FRESH generation â€” ignore any previous version of this section." ++ nl
  ++ nl
  ++ js "This section should include: " ++ s_prompt section ++ nl
  ++ (if isTimeline (s_id section)
      then nl ++ js "IMPORTANT: Today's date is " ++ localeDate e (nowISO e)
           ++ js ". All milestone and phase dates MUST be realistic future dates starting from today. Do NOT use past dates or placeholder years."
      else []) ++ nl
  ++ nl
  ++ (if nonEmpty customPrompt
      then js "User's custom instructions:" ++ nl ++ customPrompt ++ nl
      else []) ++ nl
  ++ nl
  ++ js "Write in an organized way using Markdown format with headings and subheadings." ++ nl.

(** The prompt [generateSection] sends, [None] when it returns before
    building one (unknown section id or no project). *)
Definition sectionPrompt (e : env) (st : state) (sectionId : jsstring)
    : option jsstring :=
  match findSection sectionId, currentProject st with
  | Some section, Some p =>
    let customPrompt := customPromptOf st sectionId in
    let existingContent := existingContentOf st sectionId in
    Some (if isUpdate st sectionId
          then updatePrompt e p section existingContent customPrompt
          else freshPrompt e p section
                 (otherSections (gddData st) sectionId) customPrompt)
  | _, _ => None
  end.

(** [generateSection]: [contentEl] tells whether the page has the element
    [content-<id>]; [complete] is the completion service, answering a
    prompt with a text or with [null]. *)
Definition generateSection (e : env) (contentEl : bool)
    (complete : jsstring -> option jsstring)
    (sectionId : jsstring) (st : state) : state :=
  match sectionPrompt e st sectionId with
  | None => st
  | Some prompt =>
    let st1 := withGenerating (Some sectionId) st in
    if negb contentEl then st1
    else
      let st2 := withGenerating None st1 in
      match complete prompt with
      | Some response =>
        if nonEmpty response
        then touch e (withGddData
                        (set sectionId {| content := Some response;
                                          lastUpdated := None |} (gddData st2))
                        st2)
        else st2
      | None => st2
      end
  end.

(** ** Relevance detector *)

(** Keyword map: section id -> keywords, as the source file spells them. *)
Definition sectionKeywords : obj (list jsstring) :=
  [ (js "overview",
     [ js "overview"; js "genel bakÄ±ÅŸ"; js "konsept"; js "concept";
       js "vision"; js "vizyon"; js "game idea"; js "oyun fikri";
       js "target audience"; js "hedef kitle"; js "unique selling";
       js "genre"; js "tÃ¼r" ])
  ; (js "gameplay",
     [ js "gameplay"; js "mechanic"; js "mekanik"; js "kontrol";
       js "control"; js "combat"; js "savaÅŸ"; js "dÃ¶vÃ¼ÅŸ"; js "game loop";
       js "oynanÄ±ÅŸ"; js "system"; js "sistem"; js "ability"; js "yetenek";
       js "skill"; js "beceri"; js "movement"; js "hareket" ])
  ; (js "story",
     [ js "story"; js "hikaye"; js "narrative"; js "anlatÄ±"; js "plot";
       js "olay Ã¶rgÃ¼sÃ¼"; js "lore"; js "backstory"; js "quest";
       js "gÃ¶rev"; js "dialog"; js "diyalog"; js "theme"; js "tema";
       js "ending"; js "son"; js "senaryo"; js "scenario" ])
  ; (js "characters",
     [ js "character"; js "karakter"; js "protagonist"; js "antagonist";
       js "dÃ¼ÅŸman"; js "enemy"; js "npc"; js "hero"; js "kahraman";
       js "villain"; js "boss"; js "companion"; js "partner"; js "ally";
       js "mÃ¼ttefik" ])
  ; (js "world",
     [ js "world"; js "dÃ¼nya"; js "level"; js "seviye"; js "bÃ¶lÃ¼m";
       js "map"; js "harita"; js "environment"; js "ortam"; js "Ã§evre";
       js "location"; js "lokasyon"; js "mekan"; js "biome"; js "terrain";
       js "arazi"; js "zone" ])
  ; (js "art",
     [ js "art"; js "sanat"; js "visual"; js "gÃ¶rsel"; js "style";
       js "stil"; js "ui"; js "ux"; js "design"; js "tasarÄ±m"; js "color";
       js "renk"; js "palette"; js "palet"; js "aesthetic"; js "estetik";
       js "arayÃ¼z"; js "interface"; js "animation"; js "animasyon" ])
  ; (js "audio",
     [ js "audio"; js "ses"; js "sound"; js "mÃ¼zik"; js "music"; js "sfx";
       js "effect"; js "voice"; js "seslendirme"; js "ambient";
       js "ortam sesi"; js "soundtrack" ])
  ; (js "technical",
     [ js "technical"; js "teknik"; js "engine"; js "motor"; js "platform";
       js "requirement"; js "gereksinim"; js "performance"; js "performans";
       js "optimization"; js "network"; js "aÄŸ"; js "multiplayer";
       js "server"; js "sunucu"; js "spec"; js "hardware"; js "donanÄ±m" ])
  ; (js "monetization",
     [ js "monetiz"; js "gelir"; js "revenue"; js "price"; js "fiyat";
       js "dlc"; js "microtransaction"; js "in-app"; js "Ã¼cret";
       js "business"; js "iÅŸ modeli"; js "free-to-play"; js "premium";
       js "subscription"; js "abonelik"; js "store"; js "maÄŸaza" ])
  ; (js "timeline",
     [ js "timeline"; js "zaman"; js "schedule"; js "takvim"; js "milestone";
       js "roadmap"; js "yol haritasÄ±"; js "deadline"; js "sprint";
       js "phase"; js "aÅŸama"; js "release"; js "yayÄ±n"; js "launch";
       js "Ã§Ä±kÄ±ÅŸ" ]) ].

Definition broadKeywords : list jsstring :=
  [ js "tÃ¼m"; js "bÃ¼tÃ¼n"; js "hepsi"; js "genel"; js "dokuman";
    js "document"; js "entire"; js "all section"; js "whole";
    js "everything"; js "review"; js "incele"; js "Ã¶zet"; js "summary";
    js "eksik"; js "missing"; js "gap" ].

(** [state.gddData[s.id]?.content?.trim()], as a condition *)
Definition isFilled (st : state) (id : jsstring) : bool :=
  nonEmpty (existingContentOf st id).

(** [broadKeywords.some(kw => lower.includes(kw))] *)
Definition isBroad (lower : jsstring) : bool :=
  existsb (includes lower) broadKeywords.

(** The inner loop: one point for each keyword found in [lower]. *)
Definition keywordScore (lower : jsstring) (keywords : list jsstring) : nat :=
  fold_left (fun score kw => if includes lower kw then S score else score)
            keywords O.

(** The outer loop: [scores[sectionId] = score] for the positive scores. *)
Definition sectionScores (lower : jsstring) : obj nat :=
  fold_left (fun scores (kv : jsstring * list jsstring) =>
               let (sectionId, keywords) := kv in
               let score := keywordScore lower keywords in
               if (0 <? score)%nat then set sectionId score scores else scores)
            sectionKeywords [].

(** [Array.prototype.sort] is stable; with a comparator that orders by a
    key it yields the one stable sorted arrangement, built here by
    insertion from the right. *)
Fixpoint insertSorted {A} (cmp : A -> A -> Z) (x : A) (l : list A) : list A :=
  match l with
  | [] => [x]
  | y :: r => if cmp x y <=? 0 then x :: l else y :: insertSorted cmp x r
  end.

Definition stableSort {A} (cmp : A -> A -> Z) (l : list A) : list A :=
  fold_right (insertSorted cmp) [] l.

(** [(a, b) => b[1] - a[1]] *)
Definition byScoreDesc (a b : jsstring * nat) : Z :=
  Z.of_nat (snd b) - Z.of_nat (snd a).

Definition detectRelevantSections (st : state) (message : jsstring)
    : list jsstring :=
  let lower := toLowerCase message in
  if isBroad lower
  then map s_id (filter (fun s => isFilled st (s_id s)) GDD_SECTIONS)
  else map fst (stableSort byScoreDesc (sectionScores lower)).

(** ** Saved diagrams *)

Definition DIAGRAM_TYPES : obj jsstring :=
  [ (js "gameloop", js "Game Loop"); (js "mechanics", js "Mechanic Relations")
  ; (js "progression", js "Progression System"); (js "ui-flow", js "UI Flow")
  ; (js "class-diagram", js "Class Diagram")
  ; (js "state-diagram", js "State Diagram"); (js "er-diagram", js "ER Diagram")
  ; (js "sequence", js "Sequence Diagram"); (js "mindmap", js "Mind Map")
  ; (js "timeline", js "Timeline"); (js "custom", js "Custom") ].

(** [DIAGRAM_TYPES[type]?.label || 'Custom']: an inherited member has no
    label. *)
Definition diagramLabel (type : jsstring) : jsstring :=
  match get type DIAGRAM_TYPES with
  | Some label => label
  | None => js "Custom"
  end.

(** [a.pop()] *)
Definition pop {A} (l : list A) : list A := removelast l.

(** [saveDiagram]: [codeField] and [type] are the values of the form fields
    [diagramCode] and [diagramType]. *)
Definition saveDiagram (e : env) (codeField type : jsstring) (st : state)
    : state :=
  let code := trim codeField in
  if unitsEq code [] then st
  else
    let diagram := {| d_id := inject_Z (nowMs e); d_type := type;
                      d_label := diagramLabel type; d_code := code;
                      d_createdAt := nowISO e |} in
    let unshifted := diagram :: diagramHistory st in
    withDiagrams (if (20 <? List.length unshifted)%nat then pop unshifted
                  else unshifted) st.

(** [deleteDiagram] *)
Definition deleteDiagram (id : Q) (st : state) : state :=
  withDiagrams (filter (fun d => negb (Qeq_bool (d_id d) id)) (diagramHistory st)) st.

(** ** Import normaliser *)

(** The class of the first replacement of [normalizeSectionTitle], on code
    points (the pattern has the [u] flag). *)
Definition isEmojiPoint (cp : Z) : bool :=
  ((0x1F600 <=? cp) && (cp <=? 0x1F6FF)) || ((0x1F900 <=? cp) && (cp <=? 0x1F9FF))
  || ((0x2600 <=? cp) && (cp <=? 0x26FF)) || ((0x2700 <=? cp) && (cp <=? 0x27BF))
  || ((0xFE00 <=? cp) && (cp <=? 0xFE0F)) || ((0x1F000 <=? cp) && (cp <=? 0x1FFFF)).

Definition isHighSurrogate (c : Z) : bool := (0xD800 <=? c) && (c <=? 0xDBFF).
Definition isLowSurrogate (c : Z) : bool := (0xDC00 <=? c) && (c <=? 0xDFFF).

Definition codePoint (hi lo : Z) : Z :=
  0x10000 + Z.shiftl (hi - 0xD800) 10 + (lo - 0xDC00).

(** A surrogate pair is one code point; a lone surrogate stands for itself. *)
Fixpoint stripEmoji (s : jsstring) : jsstring :=
  match s with
  | [] => []
  | c :: r =>
    match r with
    | d :: r' =>
      if isHighSurrogate c && isLowSurrogate d
      then if isEmojiPoint (codePoint c d) then stripEmoji r'
           else c :: d :: stripEmoji r'
      else if isEmojiPoint c then stripEmoji r else c :: stripEmoji r
    | [] => if isEmojiPoint c then [] else [c]
    end
  end.

(** The units [/[^a-z0-9\s&]/g] leaves in place. *)
Definition isTitleUnit (c : Z) : bool :=
  ((0x61 <=? c) && (c <=? 0x7A)) || ((0x30 <=? c) && (c <=? 0x39))
  || isWhiteSpace c || (c =? 0x26).

(** [s.replace(/\s+/g, sub)]; [inRun] tells that the unit before was white
    space. *)
Fixpoint replaceSpaceRuns (sub : jsstring) (inRun : bool) (s : jsstring)
    : jsstring :=
  match s with
  | [] => []
  | c :: r =>
    if isWhiteSpace c
    then (if inRun then [] else sub) ++ replaceSpaceRuns sub true r
    else c :: replaceSpaceRuns sub false r
  end.

Definition normalizeSectionTitle (title : jsstring) : jsstring :=
  trim (replaceSpaceRuns (js " ") false
          (filter isTitleUnit (stripEmoji (toLowerCase title)))).

(** [GDD_SECTIONS.forEach(s => knownSectionTitles[normalize(s.title)] = s.id)] *)
Definition knownSectionTitles : obj jsstring :=
  fold_left (fun known s => set (normalizeSectionTitle (s_title s)) (s_id s) known)
            GDD_SECTIONS [].

(** What [isGddSectionHeading] hands back: a section id, a member that the
    table inherits from [Object.prototype], or [null]. *)
Inductive sectionRef : Type :=
| RefId (id : jsstring)
| RefInherited (name : jsstring)
| RefNull.

(** [!!sectionId] *)
Definition truthyRef (r : sectionRef) : bool :=
  match r with
  | RefId id => nonEmpty id
  | RefInherited _ => true
  | RefNull => false
  end.

(** [for (const [title, id] of Object.entries(known)) if (normalized === title) return id] *)
Definition scanTitles (normalized : jsstring) (known : obj jsstring)
    : option jsstring :=
  option_map snd (find (fun kv => unitsEq normalized (fst kv)) known).

Definition isGddSectionHeading (heading : jsstring) (known : obj jsstring)
    : sectionRef :=
  let normalized := normalizeSectionTitle heading in
  let direct := match lookup normalized known with
                | Own id => RefId id
                | Inherited name => RefInherited name
                | Undefined => RefNull
                end in
  if truthyRef direct then direct
  else match scanTitles normalized known with
       | Some id => RefId id
       | None =>
         match scanTitles normalized known with
         | Some id => RefId id
         | None => RefNull
         end
       end.

(** [s.replace(/^#\s+/, '')] with [mark] for the hashes. *)
Definition stripHeadingMark (mark s : jsstring) : jsstring :=
  if startsWith mark s
  then match skipn (List.length mark) s with
       | c :: r => if isWhiteSpace c then trimStart r else s
       | [] => s
       end
  else s.

Definition fallbackSectionId (e : env) (heading : jsstring) : jsstring :=
  let id := substring0 30 (replaceSpaceRuns (js "-") false
                             (normalizeSectionTitle heading)) in
  if nonEmpty id then id else js "custom-" ++ numberToString (nowMs e).

(** The key under which [gddData[sectionId] = ...] stores. *)
Definition propertyKey (e : env) (r : sectionRef) : jsstring :=
  match r with
  | RefId id => id
  | RefInherited name =>
    if unitsEq name (js "__proto__") then js "[object Object]"
    else functionSource e name
  | RefNull => js "null"
  end.

(** [\s*(.+)] matched at the start of [s], with its backtracking: the
    capture begins after the longest run of white space that still leaves
    a unit for the dot. *)
Fixpoint restCapture (s : jsstring) : option jsstring :=
  match s with
  | [] => None
  | c :: r =>
    let here := takeWhile (fun u => negb (isLineTerminator u)) s in
    if isWhiteSpace c
    then match restCapture r with
         | Some cap => Some cap
         | None => if isLineTerminator c then None else Some here
         end
    else Some here
  end.

(** [line.match(/^<label>\s*(.+)/i)], the capture. *)
Definition matchLabel (label line : jsstring) : option jsstring :=
  if startsWithCI label line
  then restCapture (skipn (List.length label) line)
  else None.

(** [/^\*\*Platforms?:\*\*\s*(.+)/i] *)
Definition matchPlatforms (line : jsstring) : option jsstring :=
  match matchLabel (js "**Platforms:**") line with
  | Some cap => Some cap
  | None => matchLabel (js "**Platform:**") line
  end.

Definition isDash (c : Z) : bool :=
  (c =? 0x2D) || (c =? 0x2013) || (c =? 0x2014).

(** [s.replace(/\s*[-–—]\s*Game Design Document$/i, '')]: the
    match, if any, runs from the white space before the dash to the end. *)
Definition stripDocumentSuffix (s : jsstring) : jsstring :=
  let words := js "Game Design Document" in
  let r := rev s in
  if startsWithCI (rev words) r
  then match trimStart (skipn (List.length words) r) with
       | d :: before => if isDash d then rev (trimStart before) else s
       | [] => s
       end
  else s.

Definition isHeading1 (trimmed : jsstring) : bool :=
  startsWith (js "# ") trimmed && negb (startsWith (js "## ") trimmed).

Definition isHeading2 (trimmed : jsstring) : bool :=
  startsWith (js "## ") trimmed && negb (startsWith (js "### ") trimmed).

(** The first loop of [parseMarkdownImport], over the lines it visits. *)
Fixpoint firstTitle (lines : list jsstring) : option jsstring :=
  match lines with
  | [] => None
  | l :: rest =>
    let line := trim l in
    if isHeading1 line
    then Some (trim (stripDocumentSuffix (stripHeadingMark (js "#") line)))
    else firstTitle rest
  end.

Record header := {
  h_createdAt : jsstring;
  h_genre : jsstring;
  h_platforms : list jsstring
}.

(** One turn of the second loop. *)
Definition readMetaLine (e : env) (h : header) (rawLine : jsstring) : header :=
  let line := trim rawLine in
  let created :=
    match matchLabel (js "**Created:**") line with
    | Some cap => match parseDateISO e cap with
                  | Some iso => iso
                  | None => h_createdAt h
                  end
    | None => h_createdAt h
    end in
  let genre :=
    match matchLabel (js "**Genre:**") line with
    | Some cap => trim cap
    | None => h_genre h
    end in
  let platforms :=
    match matchPlatforms line with
    | Some cap => map trim (split 0x2C cap)
    | None => h_platforms h
    end in
  {| h_createdAt := created; h_genre := genre; h_platforms := platforms |}.

Definition readHeader (e : env) (lines : list jsstring) : header :=
  fold_left (readMetaLine e) (firstn 20 lines)
    {| h_createdAt := nowISO e; h_genre := []; h_platforms := [] |}.

(** The section a line opens in pass 1, [RefNull] when it opens none. *)
Definition boundaryOf (known : obj jsstring) (line : jsstring) : sectionRef :=
  let trimmed := trim line in
  if isHeading2 trimmed
  then isGddSectionHeading (trim (stripHeadingMark (js "##") trimmed)) known
  else RefNull.

(** PASS 1: [sectionBoundaries], scanning from line [i]. *)
Fixpoint sectionBoundaries (known : obj jsstring) (i : nat)
    (lines : list jsstring) : list (nat * sectionRef) :=
  match lines with
  | [] => []
  | l :: rest =>
    let sectionId := boundaryOf known l in
    if truthyRef sectionId
    then (i, sectionId) :: sectionBoundaries known (S i) rest
    else sectionBoundaries known (S i) rest
  end.

(** PASS 2: the content between one boundary and the next. *)
Fixpoint collectSections (e : env) (lines : list jsstring)
    (boundaries : list (nat * sectionRef)) (gdd : obj sectionData)
    : obj sectionData :=
  match boundaries with
  | [] => gdd
  | (lineIndex, sectionId) :: rest =>
    let startLine := S lineIndex in
    let endLine := match rest with
                   | (next, _) :: _ => next
                   | [] => List.length lines
                   end in
    let text := trim (join nl (slice startLine endLine lines)) in
    collectSections e lines rest
      (if nonEmpty text
       then set (propertyKey e sectionId)
                {| content := Some text; lastUpdated := Some (nowISO e) |} gdd
       else gdd)
  end.

Definition storeSection (e : env) (r : sectionRef) (contentLines : list jsstring)
    (gdd : obj sectionData) : obj sectionData :=
  set (propertyKey e r)
      {| content := Some (trim (join nl contentLines));
         lastUpdated := Some (nowISO e) |} gdd.

(** The fallback loop over level-1 headings. *)
Fixpoint fallbackScan (e : env) (known : obj jsstring) (lines : list jsstring)
    (currentSectionId : sectionRef) (currentContent : list jsstring)
    (gdd : obj sectionData) : sectionRef * list jsstring * obj sectionData :=
  match lines with
  | [] => (currentSectionId, currentContent, gdd)
  | l :: rest =>
    let trimmed := trim l in
    if isHeading1 trimmed
    then
      let gdd' := if truthyRef currentSectionId
                  then storeSection e currentSectionId currentContent gdd
                  else gdd in
      let heading := trim (stripHeadingMark (js "#") trimmed) in
      let sectionId := isGddSectionHeading heading known in
      fallbackScan e known rest
        (if truthyRef sectionId then sectionId
         else RefId (fallbackSectionId e heading))
        [] gdd'
    else if truthyRef currentSectionId
    then fallbackScan e known rest currentSectionId (currentContent ++ [l]) gdd
    else fallbackScan e known rest currentSectionId currentContent gdd
  end.

Definition fallbackSections (e : env) (known : obj jsstring)
    (lines : list jsstring) (gdd : obj sectionData) : obj sectionData :=
  match fallbackScan e known lines RefNull [] gdd with
  | (currentSectionId, currentContent, gdd') =>
    if truthyRef currentSectionId && negb (Nat.eqb (List.length currentContent) 0)
    then storeSection e currentSectionId currentContent gdd'
    else gdd'
  end.

(** What an import hands to the store. *)
Record importResult := {
  r_project : project;
  r_gdd : obj sectionData;
  r_sectionPrompts : option (obj jsstring);
  r_diagramHistory : option (list diagram);
  r_chatHistory : option (list chatTurn)
}.

Definition importedGdd (e : env) (lines : list jsstring) : obj sectionData :=
  let boundaries := sectionBoundaries knownSectionTitles 0 lines in
  let gddData := collectSections e lines boundaries [] in
  match boundaries with
  | [] => fallbackSections e knownSectionTitles lines gddData
  | _ :: _ => gddData
  end.

Definition parseMarkdownImport (e : env) (mdContent : jsstring) : importResult :=
  let lines := split 10 mdContent in
  let projectName := match firstTitle (firstn 10 lines) with
                     | Some name => name
                     | None => js "Imported Project"
                     end in
  let h := readHeader e lines in
  {| r_project :=
       {| p_id := None;
          p_name := projectName;
          p_genre := if nonEmpty (h_genre h) then h_genre h else js "Unknown";
          p_description := None;
          p_platforms := match h_platforms h with
                         | [] => [js "PC"]
                         | ps => ps
                         end;
          p_createdAt := h_createdAt h;
          p_updatedAt := nowISO e |};
     r_gdd := importedGdd e lines;
     r_sectionPrompts := None;
     r_diagramHistory := None;
     r_chatHistory := None |}.

(** [parseJSONImport] on the value [JSON.parse] produced.  Reading a
    property of [null] throws; the caller catches it. *)
Inductive jsonOutcome : Type :=
| Threw
| Invalid
| Accepted (data : json).

Definition parseJSONImport (data : json) : jsonOutcome :=
  match data with
  | JNull => Threw
  | _ =>
    if falsyField (js "project") data || falsyField (js "gdd") data
    then Invalid
    else Accepted data
  end.

(** *** Reading an accepted snapshot at the types of the store

    The store is typed here; a snapshot whose fields have other shapes is
    outside this model (the readers answer [None]). *)

Fixpoint allSome {A} (l : list (option A)) : option (list A) :=
  match l with
  | [] => Some []
  | Some x :: r => option_map (cons x) (allSome r)
  | None :: _ => None
  end.

Definition asString (v : json) : option jsstring :=
  match v with JStr s => Some s | _ => None end.

(** A text field that may be missing or [null]. *)
Definition optionalString (name : jsstring) (v : json) : option (option jsstring) :=
  match field name v with
  | None | Some JNull => Some None
  | Some (JStr s) => Some (Some s)
  | Some _ => None
  end.

Definition optionalNumber (name : jsstring) (v : json) : option (option Q) :=
  match field name v with
  | None | Some JNull => Some None
  | Some (JNum q) => Some (Some q)
  | Some _ => None
  end.

Definition readProject (v : json) : option project :=
  match field (js "name") v, field (js "genre") v, field (js "platforms") v,
        field (js "createdAt") v, optionalNumber (js "id") v,
        optionalString (js "description") v, optionalString (js "updatedAt") v with
  | Some (JStr name), Some (JStr genre), Some (JArr ps), Some (JStr created),
    Some id, Some description, Some updated =>
    option_map (fun platforms =>
      {| p_id := id; p_name := name; p_genre := genre;
         p_description := description; p_platforms := platforms;
         p_createdAt := created;
         p_updatedAt := match updated with Some u => u | None => [] end |})
      (allSome (map asString ps))
  | _, _, _, _, _, _, _ => None
  end.

Definition readSectionData (v : json) : option sectionData :=
  match v with
  | JObj _ =>
    match optionalString (js "content") v, optionalString (js "lastUpdated") v with
    | Some c, Some u => Some {| content := c; lastUpdated := u |}
    | _, _ => None
    end
  | _ => None
  end.

Definition readEntries {A} (read : json -> option A) (v : json) : option (obj A) :=
  match v with
  | JObj props =>
    allSome (map (fun kv : jsstring * json =>
                    option_map (pair (fst kv)) (read (snd kv))) props)
  | _ => None
  end.

Definition readDiagram (v : json) : option diagram :=
  match field (js "id") v, field (js "type") v, field (js "label") v,
        field (js "code") v, field (js "createdAt") v with
  | Some (JNum id), Some (JStr type), Some (JStr label), Some (JStr code),
    Some (JStr created) =>
    Some {| d_id := id; d_type := type; d_label := label; d_code := code;
            d_createdAt := created |}
  | _, _, _, _, _ => None
  end.

Definition readChatTurn (v : json) : option chatTurn :=
  match field (js "role") v, field (js "content") v with
  | Some (JStr r), Some (JStr c) =>
    if unitsEq r (js "user") then Some {| role := User; c_content := c |}
    else if unitsEq r (js "assistant")
    then Some {| role := Assistant; c_content := c |}
    else None
  | _, _ => None
  end.

Definition readArray {A} (read : json -> option A) (v : json) : option (list A) :=
  match v with
  | JArr items => allSome (map read items)
  | _ => None
  end.

(** A field the import installs only [if (result.<name>)]: a missing or
    falsy one is left out. *)
Definition optionalPart {A} (read : json -> option A) (name : jsstring)
    (data : json) : option (option A) :=
  match field name data with
  | None => Some None
  | Some v => if truthy v then option_map Some (read v) else Some None
  end.

Definition readSnapshot (data : json) : option importResult :=
  match field (js "project") data, field (js "gdd") data with
  | Some pv, Some gv =>
    match readProject pv, readEntries readSectionData gv,
          optionalPart (readEntries asString) (js "sectionPrompts") data,
          optionalPart (readArray readDiagram) (js "diagramHistory") data,
          optionalPart (readArray readChatTurn) (js "chatHistory") data with
    | Some p, Some g, Some sp, Some dh, Some ch =>
      Some {| r_project := p; r_gdd := g; r_sectionPrompts := sp;
              r_diagramHistory := dh; r_chatHistory := ch |}
    | _, _, _, _, _ => None
    end
  | _, _ => None
  end.

(** The file handed to [importProjectFile], by extension: the parsed value
    of a [.json] file ([None] when [JSON.parse] throws), the text of a
    [.md] file, the markdown that the walk over an [.html] document
    re-synthesises ([None] without a body), or any other file. *)
Inductive importFile : Type :=
| JsonFile (parsed : option json)
| MarkdownFile (text : jsstring)
| HtmlFile (markdown : option jsstring)
| OtherFile.

Inductive importOutcome : Type :=
| Imported (st : state)
| NotImported
| OutsideModel.

(** "Apply imported data" *)
Definition applyImport (e : env) (result : importResult) (st : state) : state :=
  touch e
    {| currentProject := Some (r_project result);
       gddData := r_gdd result;
       sectionPrompts := match r_sectionPrompts result with
                         | Some sp => sp
                         | None => sectionPrompts st
                         end;
       diagramHistory := match r_diagramHistory result with
                         | Some dh => dh
                         | None => diagramHistory st
                         end;
       chatHistory := match r_chatHistory result with
                      | Some ch => ch
                      | None => chatHistory st
                      end;
       generatingSection := generatingSection st;
       selectedModel := selectedModel st;
       isDarkTheme := isDarkTheme st |}.

Definition importProjectFile (e : env) (file : importFile) (st : state)
    : importOutcome :=
  match file with
  | JsonFile None => NotImported
  | JsonFile (Some data) =>
    match parseJSONImport data with
    | Threw | Invalid => NotImported
    | Accepted d =>
      match readSnapshot d with
      | Some result => Imported (applyImport e result st)
      | None => OutsideModel
      end
    end
  | MarkdownFile text => Imported (applyImport e (parseMarkdownImport e text) st)
  | HtmlFile None => NotImported
  | HtmlFile (Some markdown) =>
    Imported (applyImport e (parseMarkdownImport e markdown) st)
  | OtherFile => NotImported
  end.

(** ** Markdown export *)

Definition formatDate (e : env) (dateString : jsstring) : jsstring :=
  if unitsEq dateString [] then js "-" else localeDateTime e dateString.

Definition exportHeader (e : env) (p : project) : jsstring :=
  js "# " ++ p_name p ++ js " - Game Design Document" ++ nl ++ nl
  ++ js "**Created:** " ++ formatDate e (p_createdAt p) ++ nl
  ++ js "**Last Updated:** " ++ formatDate e (p_updatedAt p) ++ nl
  ++ js "**Genre:** " ++ p_genre p ++ nl
  ++ js "**Platforms:** " ++ join (js ", ") (p_platforms p) ++ nl ++ nl
  ++ js "---" ++ nl ++ nl.

Definition placeholder : jsstring :=
  js "*This section has not been created yet.*".

(** One turn of the [forEach] of [generateMarkdownExport]. *)
Definition exportSection (gdd : obj sectionData) (md : jsstring)
    (section : sectionDef) : jsstring :=
  md ++ js "## " ++ s_title section ++ nl ++ nl
  ++ match get (s_id section) gdd with
     | Some {| content := Some c |} =>
       if nonEmpty c then c ++ nl ++ nl else placeholder ++ nl ++ nl
     | _ => placeholder ++ nl ++ nl
     end.

(** [generateMarkdownExport], for the current project [p]. *)
Definition generateMarkdownExport (e : env) (p : project)
    (gdd : obj sectionData) : jsstring :=
  fold_left (exportSection gdd) GDD_SECTIONS (exportHeader e p).

(** A clock and printers to run the functions on examples. *)
Definition sampleEnv : env :=
  {| nowISO := js "2026-01-01T00:00:00.000Z";
     nowMs := 1767225600000;
     parseDateISO := fun _ => None;
     localeDateTime := fun _ => js "January 1, 2026 at 12:00 AM";
     localeDate := fun _ => js "January 1, 2026";
     functionSource := fun name =>
       js "function "
       ++ (if unitsEq name (js "constructor") then js "Object" else name)
       ++ js "() { [native code] }" |}.

(** ** The operations as events, and runs of them *)

Inductive op : Type :=
| CreateProject (form : projectForm)
| GenerateSection (contentEl : bool) (complete : jsstring -> option jsstring)
    (sectionId : jsstring)
| SaveSection (editor : option jsstring) (sectionId : jsstring)
| SaveDiagram (codeField type : jsstring)
| DeleteDiagram (id : Q)
| ImportFile (file : importFile).

(** One event; [None] when an import leaves the typed model. *)
Definition run (e : env) (o : op) (st : state) : option state :=
  match o with
  | CreateProject form => Some (createProject e form st)
  | GenerateSection contentEl complete sectionId =>
    Some (generateSection e contentEl complete sectionId st)
  | SaveSection editor sectionId => Some (saveSection e editor sectionId st)
  | SaveDiagram codeField type => Some (saveDiagram e codeField type st)
  | DeleteDiagram id => Some (deleteDiagram id st)
  | ImportFile file =>
    match importProjectFile e file st with
    | Imported st' => Some st'
    | NotImported => Some st
    | OutsideModel => None
    end
  end.

Fixpoint runAll (trace : list (env * op)) (st : state) : option state :=
  match trace with
  | [] => Some st
  | (e, o) :: rest =>
    match run e o st with
    | Some st' => runAll rest st'
    | None => None
    end
  end.

(** ** Predicates used to state the properties *)

(** The content a section id maps to. *)
Definition contentAt (id : jsstring) (gdd : obj sectionData) : option jsstring :=
  match get id gdd with
  | Some d => content d
  | None => None
  end.

Definition inRegistry (id : jsstring) : bool :=
  existsb (unitsEq id) registryIds.

(** Every key of the Section Content map is a registry id. *)
Definition keysInRegistry (gdd : obj sectionData) : bool :=
  forallb inRegistry (keys gdd).

(** No line opens a section in pass 1. *)
Definition noBoundary (lines : list jsstring) : bool :=
  forallb (fun l => negb (truthyRef (boundaryOf knownSectionTitles l))) lines.

(** No level-2 heading is matched through a member the title table
    inherits. *)
Definition noInheritedHeading (lines : list jsstring) : bool :=
  forallb (fun l => match boundaryOf knownSectionTitles l with
                    | RefInherited _ => false
                    | _ => true
                    end) lines.

(** Pass 1 finds a boundary, and every boundary is a registry title. *)
Definition level2Import (text : jsstring) : bool :=
  let lines := split 10 text in
  negb (Nat.eqb (List.length (sectionBoundaries knownSectionTitles 0 lines)) 0)
  && noInheritedHeading lines.

(** The events under which the key set stays inside the registry: an edit
    is saved for a rendered section, a markdown import goes through
    pass 1, a snapshot carries registry ids. *)
Definition registryEvent (o : op) : bool :=
  match o with
  | SaveSection (Some _) sectionId => inRegistry sectionId
  | ImportFile (MarkdownFile text) => level2Import text
  | ImportFile (HtmlFile (Some markdown)) => level2Import markdown
  | ImportFile (JsonFile (Some data)) =>
    match readSnapshot data with
    | Some result => keysInRegistry (r_gdd result)
    | None => true
    end
  | _ => true
  end.

(** The events under which the diagram list stays bounded: a snapshot, if
    it brings a diagram list, brings at most 20. *)
Definition boundedEvent (o : op) : bool :=
  match o with
  | ImportFile (JsonFile (Some data)) =>
    match readSnapshot data with
    | Some {| r_diagramHistory := Some dh |} => (List.length dh <=? 20)%nat
    | _ => true
    end
  | _ => true
  end.

(** Newest first: creation ordinals do not increase along the list. *)
Definition newestFirst (l : list diagram) : Prop :=
  StronglySorted (fun a b => (d_id b <= d_id a)%Q) l.

(** A content that the export writes and the import reads back unchanged:
    not empty, no white space around it, no line that opens a section. *)
Definition survivesRoundTrip (c : jsstring) : bool :=
  nonEmpty c && unitsEq (trim c) c && noBoundary (split 10 c).

(** A project whose export holds every section once: all ten sections
    filled with such contents, no other key, and a preamble without a line
    that opens a section. *)
Definition roundTripReady (e : env) (p : project) (gdd : obj sectionData) : bool :=
  noBoundary (split 10 (exportHeader e p))
  && forallb (fun s => match contentAt (s_id s) gdd with
                       | Some c => survivesRoundTrip c
                       | None => false
                       end) GDD_SECTIONS
  && keysInRegistry gdd.

(** [a] occurs in [s]. *)
Definition occursIn (a s : jsstring) : Prop :=
  exists before after, s = before ++ a ++ after.

(** Case-insensitive containment as the specification words it: the
    message and the keyword are both folded. *)
Definition includesIgnoringCase (message keyword : jsstring) : bool :=
  includes (toLowerCase message) (toLowerCase keyword).

(** The number of keywords that occur in a message, in that sense. *)
Definition occurrenceCount (message : jsstring) (keywords : list jsstring) : nat :=
  List.length (filter (includesIgnoringCase message) keywords).

(** Position of an id in the registry. *)
Fixpoint indexOf (id : jsstring) (ids : list jsstring) : nat :=
  match ids with
  | [] => O
  | x :: r => if unitsEq id x then O else S (indexOf id r)
  end.

(** The score of a section id in a lower-cased message. *)
Definition scoreOf (lower id : jsstring) : nat :=
  match get id sectionKeywords with
  | Some keywords => keywordScore lower keywords
  | None => O
  end.

(** Higher score first; on equal scores, registry order. *)
Definition moreRelevant (lower a b : jsstring) : Prop :=
  (scoreOf lower b < scoreOf lower a)%nat
  \/ (scoreOf lower a = scoreOf lower b
      /\ (indexOf a registryIds < indexOf b registryIds)%nat).

(** ** Vocabulary of the statements, continued *)

(** A property that is missing, or present with a falsy value. *)
Definition absentOrFalsy (name : jsstring) (data : json) : Prop :=
  field name data = None
  \/ exists v, field name data = Some v /\ truthy v = false.

(** No line among [lines] is a level-1 heading. *)
Definition noTitleLine (lines : list jsstring) : bool :=
  forallb (fun l => negb (isHeading1 (trim l))) lines.

(** No line among [lines] matches the genre pattern. *)
Definition noGenreLine (lines : list jsstring) : bool :=
  forallb (fun l => match matchLabel (js "**Genre:**") (trim l) with
                    | None => true
                    | Some _ => false
                    end) lines.

(** No line among [lines] matches the platforms pattern. *)
Definition noPlatformsLine (lines : list jsstring) : bool :=
  forallb (fun l => match matchPlatforms (trim l) with
                    | None => true
                    | Some _ => false
                    end) lines.

(** The normalized titles of the registry. *)
Definition normalizedTitles : list jsstring :=
  map (fun s => normalizeSectionTitle (s_title s)) GDD_SECTIONS.

(** The heading text of a level-2 heading line, normalized. *)
Definition normalizedHeading (line : jsstring) : jsstring :=
  normalizeSectionTitle (trim (stripHeadingMark (js "##") (trim line))).

(** *** The shape of an export, line by line *)

(** What the export prints for a filled section with content [c]. *)
Definition sectionText (title c : jsstring) : jsstring :=
  js "## " ++ title ++ nl ++ nl ++ c ++ nl ++ nl.

(** The preamble without its last line break. *)
Definition exportHeaderLines (e : env) (p : project) : jsstring :=
  js "# " ++ p_name p ++ js " - Game Design Document" ++ nl ++ nl
  ++ js "**Created:** " ++ formatDate e (p_createdAt p) ++ nl
  ++ js "**Last Updated:** " ++ formatDate e (p_updatedAt p) ++ nl
  ++ js "**Genre:** " ++ p_genre p ++ nl
  ++ js "**Platforms:** " ++ join (js ", ") (p_platforms p) ++ nl ++ nl
  ++ js "---" ++ nl.

(** The lines that the texts of filled sections split into: for each
    section its heading, an empty line, the lines of its content and an
    empty line; the last line break leaves one more empty line. *)
Fixpoint exportLines (sections : list (sectionDef * jsstring)) : list jsstring :=
  match sections with
  | [] => [[]]
  | (s, c) :: rest =>
    (js "## " ++ s_title s) :: [] :: split 10 c ++ [] :: exportLines rest
  end.

(** The content the store holds for a section, empty when it holds none. *)
Definition storedContent (gdd : obj sectionData) (s : sectionDef) : jsstring :=
  match contentAt (s_id s) gdd with
  | Some c => c
  | None => []
  end.

(** The filled sections of a store, in registry order, each with its
    content. *)
Definition filledSections (gdd : obj sectionData) : list (sectionDef * jsstring) :=
  map (fun s => (s, storedContent gdd s)) GDD_SECTIONS.

(** The entry pass 2 stores for a section of content [c]. *)
Definition importedEntry (e : env) (c : jsstring) : sectionData :=
  {| content := Some c; lastUpdated := Some (nowISO e) |}.

(** Pass 2 over the sections of an export, one store per section. *)
Definition storeAll (e : env) (g : obj sectionData)
    (sections : list (sectionDef * jsstring)) : obj sectionData :=
  fold_left (fun g sc => set (s_id (fst sc)) (importedEntry e (snd sc)) g)
            sections g.

(** A section and a content that the import reads back under the
    section's id. *)
Definition readsBack (sc : sectionDef * jsstring) : Prop :=
  boundaryOf knownSectionTitles (js "## " ++ s_title (fst sc))
    = RefId (s_id (fst sc))
  /\ nonEmpty (s_id (fst sc)) = true
  /\ survivesRoundTrip (snd sc) = true.

(** *** Keywords and ranks *)

(** The upper-case letters of Basic Latin and Latin-1: units that a
    lower-cased string never holds. *)
Definition isUpperCaseUnit (c : Z) : bool :=
  ((0x41 <=? c) && (c <=? 0x5A))
  || ((0xC0 <=? c) && (c <=? 0xDE) && negb (c =? 0xD7)).

(** Keywords written with a unit outside ASCII. *)
Definition isAscii (kw : jsstring) : bool := forallb (fun c => c <? 0x80) kw.

(** Every keyword of the two tables. *)
Definition allKeywords : list jsstring :=
  broadKeywords ++ flat_map snd sectionKeywords.

(** The scores before the sort, for every section of the keyword map. *)
Definition positiveScores (lower : jsstring) : list (jsstring * nat) :=
  filter (fun kv => (0 <? snd kv)%nat)
         (map (fun kv : jsstring * list jsstring =>
                 (fst kv, keywordScore lower (snd kv))) sectionKeywords).

(** No string occurs twice. *)
Fixpoint distinct (l : list jsstring) : bool :=
  match l with
  | [] => true
  | x :: r => negb (existsb (unitsEq x) r) && distinct r
  end.

(** Entries of the score table in registry order. *)
Definition registryOrder (a b : jsstring * nat) : Prop :=
  (indexOf (fst a) registryIds < indexOf (fst b) registryIds)%nat.

(** Entries of the score table ranked: higher score first, registry order
    on equal scores. *)
Definition pairRank (a b : jsstring * nat) : Prop :=
  (snd b < snd a)%nat \/ (snd a = snd b /\ registryOrder a b).

(** ** Sample inputs *)

(** The new-project dialog filled in for "Nebula Run": no genre, one
    platform. *)
Definition nebulaForm : projectForm :=
  {| newProjectName := js "Nebula Run";
     newProjectDesc := js "A racing game in space.";
     checkedPlatforms := [js "PC"];
     selectedGenres := [];
     customTags := [] |}.

(** The project that form creates under [sampleEnv]. *)
Definition nebulaProject : project :=
  {| p_id := Some (inject_Z 1767225600000);
     p_name := js "Nebula Run"; p_genre := js "Unspecified";
     p_description := Some (js "A racing game in space.");
     p_platforms := [js "PC"];
     p_createdAt := js "2026-01-01T00:00:00.000Z";
     p_updatedAt := js "2026-01-01T00:00:00.000Z" |}.

(** The registry entry of the story section. *)
Definition storySection : sectionDef :=
  {| s_id := js "story"; s_title := js "Story & Narrative";
     s_icon := js "fa-book";
     s_description := js "Game story and narrative structure";
     s_prompt := js "Main story, narrative summary, story structure, and themes" |}.

(** A state with a project, a filled [story] section and an instruction
    for it. *)
Definition storyState : state :=
  withPrompts [ (js "story", js "Add a twist: D") ]
    (withGddData
       [ (js "overview", {| content := Some (js "A racing game.");
                            lastUpdated := None |})
       ; (js "story", {| content := Some (js "A
B
C");
                         lastUpdated := None |}) ]
       (createProject sampleEnv nebulaForm initialState)).

(** A note without headings or metadata lines. *)
Definition plainNote : jsstring := js "Just a few words
and a second line.".

(** A snapshot with a project and no [gdd]. *)
Definition projectOnlySnapshot : json :=
  JObj [ (js "project", JObj [ (js "name", JStr (js "Nebula Run")) ]) ].

(** A markdown file whose only headings are of level 1. *)
Definition levelOneNotes : jsstring := js "# Weapons
Swords and bows.".

(** A file with a registry heading and a heading "Constructor". *)
Definition builderNotes : jsstring := js "## Game Overview
The pitch.
## Constructor
Builds levels.".

(** A file whose only level-2 heading carries an emoji. *)
Definition emojiNotes : jsstring := js "## Gameplay Mechanics 🎮
Jump and run.".

(** A run of events that stays inside the registry. *)
Definition registryTrace : list (env * op) :=
  [ (sampleEnv, CreateProject nebulaForm)
  ; (sampleEnv, SaveSection (Some (js "Once upon a time.")) (js "story"))
  ; (sampleEnv, GenerateSection true (fun _ => Some (js "Jump and run."))
                  (js "gameplay"))
  ; (sampleEnv, ImportFile (MarkdownFile (js "# Nebula Run

## Gameplay Mechanics
Jump and run.
## Timeline
Two years."))) ].

(** The diagram a snapshot carries for ordinal [n]. *)
Definition diagramJson (n : nat) : json :=
  JObj [ (js "id", JNum (inject_Z (Z.of_nat n)))
       ; (js "type", JStr (js "gameloop"))
       ; (js "label", JStr (js "Game Loop"))
       ; (js "code", JStr (js "graph TD; A-->B"))
       ; (js "createdAt", JStr (js "2026-01-01T00:00:00.000Z")) ].

(** A well-formed snapshot with 21 saved diagrams. *)
Definition crowdedSnapshot : json :=
  JObj [ (js "project",
          JObj [ (js "name", JStr (js "Nebula Run"))
               ; (js "genre", JStr (js "Unspecified"))
               ; (js "platforms", JArr [JStr (js "PC")])
               ; (js "createdAt", JStr (js "2026-01-01T00:00:00.000Z")) ])
       ; (js "gdd", JObj [])
       ; (js "diagramHistory", JArr (map diagramJson (rev (seq 1 21)))) ].

(** A saved diagram with ordinal [n]. *)
Definition loopDiagram (n : nat) : diagram :=
  {| d_id := inject_Z (Z.of_nat n); d_type := js "gameloop";
     d_label := js "Game Loop"; d_code := js "graph TD; A-->B";
     d_createdAt := js "2026-01-01T00:00:00.000Z" |}.

(** A store holding 20 diagrams, newest first. *)
Definition fullDiagramState : state :=
  withDiagrams (map loopDiagram (rev (seq 1 20))) initialState.

(** A project with all ten sections filled, the first with a space before
    its text. *)
Definition paddedGdd : obj sectionData :=
  map (fun s => (s_id s,
                 {| content := Some (if unitsEq (s_id s) (js "overview")
                                     then js " A racing game."
                                     else js "To be written.");
                    lastUpdated := None |}))
      GDD_SECTIONS.

(** The same with the space removed. *)
Definition tidyGdd : obj sectionData :=
  map (fun s => (s_id s,
                 {| content := Some (if unitsEq (s_id s) (js "overview")
                                     then js "A racing game."
                                     else js "To be written.");
                    lastUpdated := None |}))
      GDD_SECTIONS.

(** A message that is the keyword the source spells "tÃ¼r". *)
Definition garbledGenreMessage : jsstring := js "tÃ¼r".

(** A message that is the broad keyword the source spells "tÃ¼m". *)
Definition garbledAllMessage : jsstring := js "tÃ¼m".

(** ** More vocabulary: imported contents and export preamble *)

(** A stored section that is filled: its content is not empty and has no
    white space around it, and it carries the time of the import. *)
Definition freshlyImported (e : env) (d : sectionData) : Prop :=
  exists c, content d = Some c /\ c <> [] /\ trim c = c
            /\ lastUpdated d = Some (nowISO e).

(** The text below the export preamble. *)
Definition exportBody (gdd : obj sectionData) : jsstring :=
  fold_left (exportSection gdd) GDD_SECTIONS [].

(** A text that a line of the export prints and the import reads back as
    it is: not empty, no white space around it, no line terminator in it. *)
Definition plainField (s : jsstring) : bool :=
  nonEmpty s && unitsEq (trim s) s
  && forallb (fun c => negb (isLineTerminator c)) s.

(** A platform name that survives the comma-separated list. *)
Definition plainPlatform (s : jsstring) : bool :=
  plainField s && forallb (fun c => negb (c =? 0x2C)) s.

(** A project whose preamble the import reads back: plain name, genre and
    platforms, printed dates on one line, and no genre or platforms line
    among the section lines that fall within the first 20 lines. *)
Definition preambleReady (e : env) (p : project) (gdd : obj sectionData) : bool :=
  plainField (p_name p) && plainField (p_genre p)
  && negb (Nat.eqb (List.length (p_platforms p)) 0)
  && forallb plainPlatform (p_platforms p)
  && forallb (fun c => negb (c =? 10)) (formatDate e (p_createdAt p))
  && forallb (fun c => negb (c =? 10)) (formatDate e (p_updatedAt p))
  && noGenreLine (firstn 11 (split 10 (exportBody gdd)))
  && noPlatformsLine (firstn 11 (split 10 (exportBody gdd))).

(** ** More vocabulary: normalized titles *)

(** The units a normalized title is made of: a to z, 0 to 9, the space
    and the ampersand. *)
Definition isNormalUnit (c : Z) : bool :=
  ((0x61 <=? c) && (c <=? 0x7A)) || ((0x30 <=? c) && (c <=? 0x39))
  || (c =? 0x20) || (c =? 0x26).

Definition normalUnits : list Z :=
  map Z.of_nat (seq 97 26 ++ seq 48 10 ++ [32; 38])%nat.

(** No two spaces in a row; with [afterSpace], no space in front either. *)
Fixpoint singleSpaced (afterSpace : bool) (s : jsstring) : bool :=
  match s with
  | [] => true
  | c :: r =>
    if c =? 0x20 then negb afterSpace && singleSpaced true r
    else singleSpaced false r
  end.

(** ** Completion service, streamed *)

(** What the reader of a streamed reply hands over, read by read: a chunk,
    already decoded; the end of the stream; or a failure of the request or
    of a read. *)
Inductive reading : Type :=
| ReadChunk (chunk : jsstring) (rest : reading)
| ReadDone
| ReadFailed.

(** The text so far and the calls of [onChunk] so far, each with the piece
    and the text it was given. *)
Record progress := {
  fullResponse : jsstring;
  calls : list (jsstring * jsstring)
}.

Section Streaming.

(** [JSON.parse], [None] where it throws; and the text that [+=] makes of
    a value that is not a string. *)
Variable parse : jsstring -> option json.
Variable toText : json -> jsstring.

(** [chunk.split('\n').filter(line => line.trim())] *)
Definition chunkLines (chunk : jsstring) : list jsstring :=
  filter (fun line => nonEmpty (trim line)) (split 10 chunk).

(** The piece a line adds: none when the line does not parse, when it is
    [null] (reading its property throws, inside the [try]) and when it has
    no truthy [response]. *)
Definition responsePiece (line : jsstring) : option jsstring :=
  match parse line with
  | None => None
  | Some JNull => None
  | Some v =>
    match field (js "response") v with
    | Some r =>
      if truthy r
      then Some (match r with JStr s => s | _ => toText r end)
      else None
    | None => None
    end
  end.

(** One turn of the [for] loop. *)
Definition readLine (p : progress) (line : jsstring) : progress :=
  match responsePiece line with
  | Some piece =>
    let full := fullResponse p ++ piece in
    {| fullResponse := full; calls := calls p ++ [(piece, full)] |}
  | None => p
  end.

(** One turn of the [while] loop. *)
Definition readChunk (p : progress) (chunk : jsstring) : progress :=
  fold_left readLine (chunkLines chunk) p.

(** The [while] loop; the flag tells whether it ended with [done]. *)
Fixpoint readAll (r : reading) (p : progress) : progress * bool :=
  match r with
  | ReadChunk chunk rest => readAll rest (readChunk p chunk)
  | ReadDone => (p, true)
  | ReadFailed => (p, false)
  end.

(** [streamGenerateWithOllama]: the calls of [onChunk] it made and its
    result, [None] for [null].  [connected] is [state.ollamaConnected],
    [r] is what the reader hands over; [onChunk] is taken not to throw. *)
Definition streamGenerateWithOllama (connected : bool) (r : reading)
    : list (jsstring * jsstring) * option jsstring :=
  if negb connected then ([], None)
  else
    let (p, finished) := readAll r {| fullResponse := []; calls := [] |} in
    (calls p, if finished then Some (fullResponse p) else None).

End Streaming.

(** The text so far is what the calls so far were given, piece by piece. *)
Definition running (p : progress) : Prop :=
  fullResponse p = List.concat (map fst (calls p))
  /\ forall n piece full,
       nth_error (calls p) n = Some (piece, full) ->
       full = List.concat (map fst (firstn (S n) (calls p))).

(** ** Custom instructions of a section *)

(** The object has an own property of that name. *)
Definition hasOwn {A} (k : jsstring) (o : obj A) : bool :=
  match get k o with
  | Some _ => true
  | None => false
  end.

(** [state.sectionPrompts[sectionId] = value] for a text [value]: an own
    property is written, except under the name [__proto__] when the object
    has no own property of that name (one read from JSON can have one):
    there the assignment reaches the setter of [Object.prototype], which
    ignores a value that is neither an object nor [null]. *)
Definition assignPrompt (sectionId value : jsstring) (prompts : obj jsstring)
    : obj jsstring :=
  if unitsEq sectionId (js "__proto__") && negb (hasOwn sectionId prompts)
  then prompts
  else set sectionId value prompts.

(** [generateSectionWithPrompt]: [textarea] is the value of the element
    [prompt-<id>], [None] when the page has none. *)
Definition generateSectionWithPrompt (e : env) (textarea : option jsstring)
    (contentEl : bool) (complete : jsstring -> option jsstring)
    (sectionId : jsstring) (st : state) : state :=
  generateSection e contentEl complete sectionId
    match textarea with
    | Some value =>
      withPrompts (assignPrompt sectionId value (sectionPrompts st)) st
    | None => st
    end.

(** [clearSectionPrompt] *)
Definition clearSectionPrompt (sectionId : jsstring) (st : state) : state :=
  withPrompts (assignPrompt sectionId [] (sectionPrompts st)) st.

(** ** Saved diagrams, continued *)

(** [loadDiagram]: the values it puts in the fields [diagramCode] and
    [diagramType], [None] when it leaves them. *)
Definition loadDiagram (id : Q) (st : state) : option (jsstring * jsstring) :=
  match find (fun d => Qeq_bool (d_id d) id) (diagramHistory st) with
  | Some diagram => Some (d_code diagram, d_type diagram)
  | None => None
  end.

(** [s.replace(/<pattern>/g, '')] for a pattern that is a plain text: the
    occurrences are found from left to right and do not overlap.  [skip]
    counts the units of the current occurrence still to drop. *)
Fixpoint removeAllFrom (pattern : jsstring) (skip : nat) (s : jsstring)
    : jsstring :=
  match s with
  | [] => []
  | c :: r =>
    match skip with
    | S k => removeAllFrom pattern k r
    | O =>
      if nonEmpty pattern && startsWith pattern s
      then removeAllFrom pattern (List.length pattern - 1) r
      else c :: removeAllFrom pattern 0 r
    end
  end.

Definition removeAll (pattern s : jsstring) : jsstring :=
  removeAllFrom pattern 0 s.

Definition fence : jsstring := [0x60; 0x60; 0x60].

(** [response.replace(/```mermaid/g, '').replace(/```/g, '').trim()] *)
Definition cleanDiagramCode (response : jsstring) : jsstring :=
  trim (removeAll fence (removeAll (fence ++ js "mermaid") response)).

(** ** Diagram generation *)

(** [diagramPrompts], for a project of that name. *)
Definition diagramPrompts (name : jsstring) : obj jsstring :=
  [ (js "gameloop",
     js "Create a Mermaid flowchart diagram showing the core game loop for " ++ name
     ++ js ". Show the main cycle: Start -> Core Actions -> Feedback -> Reward -> Decision -> Repeat.");
    (js "mechanics",
     js "Create a Mermaid diagram showing how all the main mechanics relate to and interact with each other in " ++ name
     ++ js ". Use a graph TD or LR layout.");
    (js "progression",
     js "Create a Mermaid diagram showing the complete player progression system in " ++ name
     ++ js ". Include levels, unlocks, skill trees, and milestones.");
    (js "ui-flow",
     js "Create a Mermaid flowchart diagram showing the complete UI flow (all menus, screens, and transitions) of " ++ name
     ++ js ".");
    (js "class-diagram",
     js "Create a Mermaid classDiagram showing the main class structure for " ++ name
     ++ js ". Include key classes like Player, Enemy, GameManager, Item, etc. with their properties and methods.");
    (js "state-diagram",
     js "Create a Mermaid stateDiagram-v2 showing the main game states and transitions for " ++ name
     ++ js ". Include states like MainMenu, Loading, Playing, Paused, GameOver, etc.");
    (js "er-diagram",
     js "Create a Mermaid erDiagram showing the data entity relationships for " ++ name
     ++ js ". Include entities like Player, Inventory, Item, Quest, NPC, etc.");
    (js "sequence",
     js "Create a Mermaid sequence diagram showing a key interaction sequence in " ++ name
     ++ js ". For example combat flow or quest interaction.");
    (js "mindmap",
     js "Create a Mermaid mindmap diagram brainstorming the key concepts and features of " ++ name
     ++ js ".");
    (js "timeline",
     js "Create a Mermaid timeline diagram showing the development phases and milestones for " ++ name
     ++ js ".");
    (js "custom",
     js "Create an appropriate Mermaid diagram for " ++ name
     ++ js ".") ].

(** [${diagramPrompts[type]}]: the text of the table, the print of a
    member the table inherits, or "undefined". *)
Definition diagramPromptOf (e : env) (name type : jsstring) : jsstring :=
  match lookup type (diagramPrompts name) with
  | Own text => text
  | Inherited member => propertyKey e (RefInherited member)
  | Undefined => js "undefined"
  end.

(** [gddContext] of [generateDiagram] *)
Definition diagramGddContext (gdd : obj sectionData) : jsstring :=
  join nl
    (filter nonEmpty
       (map (fun kv : jsstring * sectionData =>
               let (key, val) := kv in
               match findSection key, content val with
               | Some sec, Some c =>
                 if nonEmpty c
                 then s_title sec ++ js ": " ++ substring0 300 c
                 else []
               | _, _ => []
               end)
            gdd)).

(** [existingCode && customDiagramPrompt], as a condition, on the values
    of the fields [diagramCustomPrompt] and [diagramCode]. *)
Definition isModifying (customField codeField : jsstring) : bool :=
  nonEmpty (trim codeField) && nonEmpty (trim customField).

Definition modifyDiagramPrompt (p : project)
    (existingCode customDiagramPrompt : jsstring) : jsstring :=
  nl
  ++ js "You have an existing Mermaid diagram for the game " ++ dquote
     ++ p_name p ++ dquote ++ js ":" ++ nl
  ++ nl
  ++ fence ++ js "mermaid" ++ nl
  ++ existingCode ++ nl
  ++ fence ++ nl
  ++ nl
  ++ js "The user wants to MODIFY or EXTEND this diagram with the following instructions:" ++ nl
  ++ customDiagramPrompt ++ nl
  ++ nl
  ++ js "IMPORTANT RULES:" ++ nl
  ++ js "- Keep ALL existing nodes, connections, and structure from the current diagram" ++ nl
  ++ js "- ADD or MODIFY only what the user requested" ++ nl
  ++ js "- Do NOT remove existing elements unless the user explicitly asks to remove something" ++ nl
  ++ js "- Maintain the same diagram type and style" ++ nl
  ++ js "- Return the COMPLETE updated Mermaid code (not just the changes)" ++ nl
  ++ nl
  ++ js "Return ONLY the updated Mermaid code, no explanations. Do not use code block markers (backticks)." ++ nl
  ++ js "Write valid Mermaid syntax that will render correctly." ++ nl.

Definition freshDiagramPrompt (e : env) (p : project) (gdd : obj sectionData)
    (type customDiagramPrompt : jsstring) : jsstring :=
  nl
  ++ diagramPromptOf e (p_name p) type ++ nl
  ++ nl
  ++ js "Game Information:" ++ nl
  ++ js "- Name: " ++ p_name p ++ nl
  ++ js "- Genre: " ++ p_genre p ++ nl
  ++ js "- Platforms: " ++ join (js ", ") (p_platforms p) ++ nl
  ++ js "- Description: " ++ orUndefined (p_description p) ++ nl
  ++ nl
  ++ (if nonEmpty (diagramGddContext gdd)
      then js "GDD Context:" ++ nl ++ diagramGddContext gdd else []) ++ nl
  ++ nl
  ++ (if nonEmpty customDiagramPrompt
      then js "IMPORTANT - User's custom instructions:" ++ nl
           ++ customDiagramPrompt ++ nl ++ nl
           ++ js "Incorporate the user's specific requests into the diagram."
      else []) ++ nl
  ++ nl
  ++ js "Return ONLY the Mermaid code, no other explanation. Do not use code block markers (backticks)." ++ nl
  ++ js "Write valid Mermaid syntax that will render correctly. Keep the diagram readable and not too complex." ++ nl.

(** The prompt [generateDiagram] sends for a project [p]. *)
Definition diagramPrompt (e : env) (p : project) (gdd : obj sectionData)
    (type customField codeField : jsstring) : jsstring :=
  if isModifying customField codeField
  then modifyDiagramPrompt p (trim codeField) (trim customField)
  else freshDiagramPrompt e p gdd type (trim customField).

(** [generateDiagram]: the value it puts in the field [diagramCode],
    [None] when it leaves the field.  [complete] is the completion
    service, answering a prompt with a text or with [null]. *)
Definition generateDiagram (e : env) (type customField codeField : jsstring)
    (complete : jsstring -> option jsstring) (st : state) : option jsstring :=
  match currentProject st with
  | None => None
  | Some p =>
    match complete (diagramPrompt e p (gddData st) type customField codeField) with
    | Some response =>
      if nonEmpty response then Some (cleanDiagramCode response) else None
    | None => None
    end
  end.

(** ** Snapshots

    What [JSON.stringify] prints of the store, as the value that
    [JSON.parse] reads back from the print.  A property whose value is
    [undefined] is not printed. *)

Definition optionalField (name : jsstring) (v : option json)
    : list (jsstring * json) :=
  match v with
  | Some x => [(name, x)]
  | None => []
  end.

Definition encodeProject (p : project) : json :=
  JObj (optionalField (js "id") (option_map JNum (p_id p))
        ++ [ (js "name", JStr (p_name p)); (js "genre", JStr (p_genre p)) ]
        ++ optionalField (js "description") (option_map JStr (p_description p))
        ++ [ (js "platforms", JArr (map JStr (p_platforms p)));
             (js "createdAt", JStr (p_createdAt p));
             (js "updatedAt", JStr (p_updatedAt p)) ]).

Definition encodeSection (d : sectionData) : json :=
  JObj (optionalField (js "content") (option_map JStr (content d))
        ++ optionalField (js "lastUpdated") (option_map JStr (lastUpdated d))).

Definition encodeEntries {A} (encode : A -> json) (o : obj A) : json :=
  JObj (map (fun kv => (fst kv, encode (snd kv))) o).

Definition encodeDiagram (d : diagram) : json :=
  JObj [ (js "id", JNum (d_id d)); (js "type", JStr (d_type d));
         (js "label", JStr (d_label d)); (js "code", JStr (d_code d));
         (js "createdAt", JStr (d_createdAt d)) ].

Definition encodeChatTurn (m : chatTurn) : json :=
  JObj [ (js "role", JStr match role m with
                          | User => js "user"
                          | Assistant => js "assistant"
                          end);
         (js "content", JStr (c_content m)) ].

(** The [json] case of [exportAs]: the value written to the file, [None]
    without a project. *)
Definition exportAsJson (e : env) (st : state) : option json :=
  match currentProject st with
  | None => None
  | Some p =>
    Some (JObj [ (js "project", encodeProject p);
                 (js "gdd", encodeEntries encodeSection (gddData st));
                 (js "sectionPrompts", encodeEntries JStr (sectionPrompts st));
                 (js "diagramHistory", JArr (map encodeDiagram (diagramHistory st)));
                 (js "chatHistory", JArr (map encodeChatTurn (chatHistory st)));
                 (js "exportedAt", JStr (nowISO e));
                 (js "version", JStr (js "1.1")) ])
  end.

(** [saveState]: the value stored under [gdd-studio-state]. *)
Definition saveState (st : state) : json :=
  JObj [ (js "currentProject", match currentProject st with
                               | Some p => encodeProject p
                               | None => JNull
                               end);
         (js "gddData", encodeEntries encodeSection (gddData st));
         (js "selectedModel", JStr (selectedModel st));
         (js "isDarkTheme", JBool (isDarkTheme st));
         (js "diagramHistory", JArr (map encodeDiagram (diagramHistory st)));
         (js "sectionPrompts", encodeEntries JStr (sectionPrompts st)) ].

(** What [localStorage.getItem] and [JSON.parse] give [loadState]: no item
    (or an empty one), an item that does not parse, or the parsed value. *)
Inductive storedItem : Type :=
| NoItem
| Unparseable
| Parsed (data : json).

Definition defaultModel : jsstring := js "gpt-oss:20b".

(** [data.<name> || fallback], read at the type of the store: [None] when
    the value is truthy and of another shape. *)
Definition orDefault {A} (read : json -> option A) (fallback : A)
    (name : jsstring) (data : json) : option A :=
  match field name data with
  | None => Some fallback
  | Some v => if truthy v then read v else Some fallback
  end.

(** [loadState]; [None] when the stored value is outside the typed
    store. *)
Definition loadState (saved : storedItem) (st : state) : option state :=
  match saved with
  | NoItem => Some st
  | Unparseable => Some st
  | Parsed JNull => Some st   (* reading its property throws; caught *)
  | Parsed data =>
    match orDefault (fun v => option_map Some (readProject v)) None
                    (js "currentProject") data,
          orDefault (readEntries readSectionData) [] (js "gddData") data,
          orDefault asString defaultModel (js "selectedModel") data,
          orDefault (readArray readDiagram) [] (js "diagramHistory") data,
          orDefault (readEntries asString) [] (js "sectionPrompts") data with
    | Some p, Some g, Some m, Some dh, Some sp =>
      Some {| currentProject := p; gddData := g; sectionPrompts := sp;
              diagramHistory := dh; chatHistory := chatHistory st;
              generatingSection := generatingSection st;
              selectedModel := m;
              isDarkTheme := match field (js "isDarkTheme") data with
                             | Some (JBool false) => false
                             | _ => true
                             end |}
    | _, _, _, _, _ => None
    end
  end.

(** ** Chat *)

(** [state.chatHistory.slice(-n)] *)
Definition lastTurns (n : nat) (l : list chatTurn) : list chatTurn :=
  skipn (List.length l - n) l.

Definition chatLine (m : chatTurn) : jsstring :=
  match role m with
  | User => js "User"
  | Assistant => js "Assistant"
  end ++ js ": " ++ c_content m.

(** [buildChatContext] *)
Definition buildChatContext (st : state) : jsstring :=
  join (nl ++ nl) (map chatLine (lastTurns 10 (chatHistory st))).

(** [relevantSectionIds.includes(s.id)] *)
Definition isRelevant (relevantSectionIds : list jsstring) (s : sectionDef) : bool :=
  existsb (unitsEq (s_id s)) relevantSectionIds.

(** The filled sections sent in full, and those sent as summaries. *)
Definition relevantSections (st : state) (relevantSectionIds : list jsstring)
    : list sectionDef :=
  filter (isRelevant relevantSectionIds)
         (filter (fun s => isFilled st (s_id s)) GDD_SECTIONS).

Definition summarisedSections (st : state) (relevantSectionIds : list jsstring)
    : list sectionDef :=
  filter (fun s => negb (isRelevant relevantSectionIds s))
         (filter (fun s => isFilled st (s_id s)) GDD_SECTIONS).

Definition emptySections (st : state) : list sectionDef :=
  filter (fun s => negb (isFilled st (s_id s))) GDD_SECTIONS.

(** One turn of [relevant.forEach]. *)
Definition fullEntry (st : state) (s : sectionDef) : jsstring :=
  nl ++ js "### " ++ s_title s ++ nl ++ existingContentOf st (s_id s) ++ nl.

(** [content.split('\n').find(l => l.trim() && !l.trim().startsWith('#')) || content.substring(0, 80)] *)
Definition firstLine (content : jsstring) : jsstring :=
  match find (fun l => nonEmpty (trim l) && negb (startsWith (js "#") (trim l)))
             (split 10 content) with
  | Some l => l
  | None => substring0 80 content
  end.

(** One turn of [others.forEach]. *)
Definition summaryEntry (st : state) (s : sectionDef) : jsstring :=
  js "- " ++ s_title s ++ js ": "
  ++ trim (substring0 100 (firstLine (existingContentOf st (s_id s))))
  ++ js "..." ++ nl.

Definition relevantBlock (st : state) (relevantSectionIds : list jsstring)
    : jsstring :=
  match relevantSections st relevantSectionIds with
  | [] => []
  | relevant =>
    nl ++ js "--- RELEVANT SECTIONS (full content) ---" ++ nl
    ++ List.concat (map (fullEntry st) relevant)
  end.

Definition summariesBlock (st : state) (relevantSectionIds : list jsstring)
    : jsstring :=
  match summarisedSections st relevantSectionIds with
  | [] => []
  | others =>
    nl ++ js "--- OTHER SECTIONS (summaries) ---" ++ nl
    ++ List.concat (map (summaryEntry st) others)
  end.

Definition emptyBlock (st : state) : jsstring :=
  match emptySections st with
  | [] => []
  | empty =>
    nl ++ js "Empty sections (not yet written): "
    ++ join (js ", ") (map s_title empty) ++ nl
  end.

(** [gddContext] of [sendMessage]. *)
Definition chatGddContext (e : env) (st : state)
    (relevantSectionIds : list jsstring) : jsstring :=
  match currentProject st with
  | None => []
  | Some p =>
    nl ++ js "--- PROJECT ---" ++ nl
    ++ js "Name: " ++ p_name p ++ js " | Genre: " ++ p_genre p
       ++ js " | Platforms: " ++ join (js ", ") (p_platforms p) ++ nl
    ++ js "Today's Date: " ++ localeDate e (nowISO e) ++ nl
    ++ match p_description p with
       | Some d => if nonEmpty d then js "Description: " ++ d ++ nl else []
       | None => []
       end
    ++ relevantBlock st relevantSectionIds
    ++ summariesBlock st relevantSectionIds
    ++ emptyBlock st
  end.

Definition chatSystemPrompt (gddContext : jsstring) : jsstring :=
  nl
  ++ js "You are the GDD Studio AI assistant. You help users create and refine Game Design Documents." ++ nl
  ++ nl
  ++ js "Your capabilities:" ++ nl
  ++ js "1. Answer questions about the current GDD document using the provided content" ++ nl
  ++ js "2. Suggest improvements, find gaps or inconsistencies" ++ nl
  ++ js "3. Generate new content for empty or incomplete sections" ++ nl
  ++ js "4. Provide professional game design feedback" ++ nl
  ++ js "5. Generate Mermaid diagram code when requested" ++ nl
  ++ nl
  ++ js "IMPORTANT: The relevant section(s) for this question are provided in FULL below. Use this actual content â€” do NOT invent details that contradict the document. Other sections are shown as brief summaries for context." ++ nl
  ++ gddContext ++ nl.

Definition chatPrompt (context message : jsstring) : jsstring :=
  nl ++ context ++ nl
  ++ nl
  ++ js "User: " ++ message ++ nl
  ++ nl
  ++ js "Respond based on the actual GDD document content provided. Be specific and reference the document when relevant. Use Markdown format." ++ nl.

Definition withChat (c : list chatTurn) (st : state) : state :=
  {| currentProject := currentProject st; gddData := gddData st;
     sectionPrompts := sectionPrompts st; diagramHistory := diagramHistory st;
     chatHistory := c; generatingSection := generatingSection st;
     selectedModel := selectedModel st; isDarkTheme := isDarkTheme st |}.

Definition userTurn (message : jsstring) : chatTurn :=
  {| role := User; c_content := message |}.

Definition assistantTurn (response : option jsstring) : chatTurn :=
  {| role := Assistant;
     c_content := match response with Some r => r | None => [] end |}.

(** [sendMessage], taken as one step: [inputValue] is the value of the
    field [chatInput]; [complete] is the completion service, answering a
    prompt and a system prompt with a text or with [null].  The page is
    taken to hold the message list. *)
Definition sendMessage (e : env)
    (complete : jsstring -> jsstring -> option jsstring)
    (inputValue : jsstring) (st : state) : state :=
  let message := trim inputValue in
  if negb (nonEmpty message) then st
  else
    let context := buildChatContext st in
    let relevantSectionIds := detectRelevantSections st message in
    let systemPrompt :=
      chatSystemPrompt (chatGddContext e st relevantSectionIds) in
    let response := complete (chatPrompt context message) systemPrompt in
    withChat (chatHistory st
              ++ [userTurn message; assistantTurn response]) st.

(** ** HTML import *)

(** The nodes under [doc.body]: texts, elements with their tag name and
    children, and the others (comments), which the walker does not show. *)
Inductive node : Type :=
| TextNode (textContent : jsstring)
| ElementNode (tagName : jsstring) (childNodes : list node)
| OtherNode.

(** What the walk of [parseHTMLImport] adds for an element, by its
    lower-cased tag name. *)
Definition openingMark (tag : jsstring) : jsstring :=
  if unitsEq tag (js "h1") then nl ++ js "# "
  else if unitsEq tag (js "h2") then nl ++ js "## "
  else if unitsEq tag (js "h3") then nl ++ js "### "
  else if unitsEq tag (js "h4") then nl ++ js "#### "
  else if unitsEq tag (js "p") then nl
  else if unitsEq tag (js "br") then nl
  else if unitsEq tag (js "hr") then nl ++ js "---" ++ nl
  else if unitsEq tag (js "li") then nl ++ js "- "
  else if unitsEq tag (js "strong") || unitsEq tag (js "b") then js "**"
  else if unitsEq tag (js "em") || unitsEq tag (js "i") then js "*"
  else [].

(** The walk in document order, from a node down. *)
Fixpoint walk (n : node) : jsstring :=
  match n with
  | TextNode text => text
  | ElementNode tag children =>
    openingMark (toLowerCase tag) ++ List.concat (map walk children)
  | OtherNode => []
  end.

(** [parseHTMLImport]: [body] holds the children of [doc.body], [None]
    when the document has no body. *)
Definition parseHTMLImport (e : env) (body : option (list node))
    : option importResult :=
  match body with
  | None => None
  | Some children =>
    Some (parseMarkdownImport e (List.concat (map walk children)))
  end.

(** ** The file handed to the import, by its name *)

(** [s.endsWith(suffix)] *)
Definition endsWith (s suffix : jsstring) : bool :=
  startsWith (rev suffix) (rev s).

Definition validExts : list jsstring :=
  [ js ".json"; js ".md"; js ".html"; js ".htm" ].

(** [hasValidExt] of the drop handler, for a file of that name. *)
Definition hasValidExt (name : jsstring) : bool :=
  existsb (endsWith (toLowerCase name)) validExts.

(** [file.name.split('.').pop().toLowerCase()] *)
Definition extensionOf (name : jsstring) : jsstring :=
  toLowerCase (last (split 0x2E name) []).

(** The branch [importProjectFile] takes. *)
Inductive fileFormat : Type :=
| JsonFormat
| MarkdownFormat
| HtmlFormat
| UnsupportedFormat.

Definition formatOf (name : jsstring) : fileFormat :=
  let ext := extensionOf name in
  if unitsEq ext (js "json") then JsonFormat
  else if unitsEq ext (js "md") then MarkdownFormat
  else if unitsEq ext (js "html") || unitsEq ext (js "htm") then HtmlFormat
  else UnsupportedFormat.

Definition isSupported (f : fileFormat) : bool :=
  match f with
  | UnsupportedFormat => false
  | _ => true
  end.

(** A parser for the examples: it reads the lines of the form
    [{"response":"text"}], the text without escapes, and refuses every
    other line. *)
Definition sampleParse (line : jsstring) : option json :=
  let opening := js "{" ++ dquote ++ js "response" ++ dquote ++ js ":" ++ dquote in
  let closing := dquote ++ js "}" in
  if startsWith opening line && startsWith (rev closing) (rev line)
     && (List.length opening + List.length closing <=? List.length line)%nat
  then Some (JObj [ (js "response",
                     JStr (firstn (List.length line - List.length opening
                                   - List.length closing)
                                  (skipn (List.length opening) line))) ])
  else None.

(** A stream of two chunks; the second holds a line that does not parse. *)
Definition sampleReading : reading :=
  ReadChunk (js "{" ++ dquote ++ js "response" ++ dquote ++ js ":" ++ dquote
             ++ js "Once " ++ dquote ++ js "}")
    (ReadChunk (js "{" ++ dquote ++ js "response" ++ dquote ++ js ":" ++ dquote
                ++ js "upon" ++ dquote ++ js "}" ++ nl ++ js "{" ++ dquote ++ js "resp")
       ReadDone).

(** A reply without a line that parses. *)
Definition garbledReading : reading :=
  ReadChunk (js "upstream timed out") (ReadChunk (js "<html>") ReadDone).

(** ** More vocabulary: what a stream holds *)

(** The chunks a reader hands over before the stream ends or fails. *)
Fixpoint chunksRead (r : reading) : list jsstring :=
  match r with
  | ReadChunk chunk rest => chunk :: chunksRead rest
  | ReadDone => []
  | ReadFailed => []
  end.

(** The stream ends with [done], not with a failure. *)
Fixpoint endedNormally (r : reading) : bool :=
  match r with
  | ReadChunk _ rest => endedNormally rest
  | ReadDone => true
  | ReadFailed => false
  end.

(** The pieces that lines carry, in order. *)
Definition pieces (parse : jsstring -> option json) (toText : json -> jsstring)
    (lines : list jsstring) : list jsstring :=
  flat_map (fun line => match responsePiece parse toText line with
                        | Some piece => [piece]
                        | None => []
                        end) lines.

(** ** More vocabulary: runs with the restore, and the order of diagrams *)

(** An event of the store: one of the operations, or the restore of the
    saved state at start-up. *)
Inductive storeEvent : Type :=
| Operation (o : op)
| RestoreState (saved : storedItem).

(** One event; [None] when it leaves the typed model. *)
Definition runStore (e : env) (ev : storeEvent) (st : state) : option state :=
  match ev with
  | Operation o => run e o st
  | RestoreState saved => loadState saved st
  end.

Fixpoint runStoreAll (trace : list (env * storeEvent)) (st : state)
    : option state :=
  match trace with
  | [] => Some st
  | (e, ev) :: rest =>
    match runStore e ev st with
    | Some st' => runStoreAll rest st'
    | None => None
    end
  end.

(** The diagram list an event brings from outside, when it brings one: the
    list of an accepted snapshot, or the list of the restored state. *)
Definition broughtDiagrams (ev : storeEvent) : option (list diagram) :=
  match ev with
  | Operation (ImportFile (JsonFile (Some data))) =>
    match parseJSONImport data with
    | Accepted d =>
      match readSnapshot d with
      | Some result => r_diagramHistory result
      | None => None
      end
    | _ => None
    end
  | RestoreState (Parsed JNull) => None
  | RestoreState (Parsed data) =>
    orDefault (readArray readDiagram) [] (js "diagramHistory") data
  | _ => None
  end.

(** The events under which the diagram list stays bounded: an import or a
    restore, if it brings a diagram list, brings at most 20. *)
Definition boundedStoreEvent (ev : storeEvent) : bool :=
  match broughtDiagrams ev with
  | Some dh => (List.length dh <=? 20)%nat
  | None => true
  end.

(** [newestFirst], as a test. *)
Fixpoint newestFirstB (l : list diagram) : bool :=
  match l with
  | [] => true
  | a :: rest =>
    forallb (fun b => Qle_bool (d_id b) (d_id a)) rest && newestFirstB rest
  end.

(** No creation ordinal of the list is after the clock [ms]. *)
Definition notAfter (ms : Z) (l : list diagram) : bool :=
  forallb (fun d => Qle_bool (d_id d) (inject_Z ms)) l.

(** The list is newest first and holds no ordinal after the clock [ms]. *)
Definition inOrderAt (ms : Z) (l : list diagram) : Prop :=
  newestFirst l /\ Forall (fun d => (d_id d <= inject_Z ms)%Q) l.

(** The events that keep the list newest first: an import or a restore, if
    it brings a diagram list, brings one that is newest first and holds no
    ordinal after the clock of the event. *)
Definition orderedEvent (e : env) (ev : storeEvent) : bool :=
  match broughtDiagrams ev with
  | Some dh => newestFirstB dh && notAfter (nowMs e) dh
  | None => true
  end.

(** The clock does not go back from one event to the next. *)
Fixpoint clocksAscendFrom (previous : Z) (trace : list (env * storeEvent))
    : bool :=
  match trace with
  | [] => true
  | (e, _) :: rest => (previous <=? nowMs e) && clocksAscendFrom (nowMs e) rest
  end.

(** A run in which the clock never goes back and every event keeps the
    list newest first. *)
Definition orderedRun (trace : list (env * storeEvent)) : bool :=
  match trace with
  | [] => true
  | (e, _) :: _ => clocksAscendFrom (nowMs e) trace
  end
  && forallb (fun ee => orderedEvent (fst ee) (snd ee)) trace.

(** The clock of [e] is not before the clock of any event of the run. *)
Definition afterRun (trace : list (env * storeEvent)) (e : env) : bool :=
  forallb (fun ee => nowMs (fst ee) <=? nowMs e) trace.

(** [sampleEnv] with the clock at [ms]. *)
Definition envAt (ms : Z) : env :=
  {| nowISO := nowISO sampleEnv; nowMs := ms;
     parseDateISO := parseDateISO sampleEnv;
     localeDateTime := localeDateTime sampleEnv;
     localeDate := localeDate sampleEnv;
     functionSource := functionSource sampleEnv |}.

(** Twenty diagrams saved one after the other, at the clocks 1 to 20. *)
Definition twentySaves : list (env * storeEvent) :=
  map (fun n => (envAt (Z.of_nat n),
                 Operation (SaveDiagram (js "graph TD; A-->B") (js "gameloop"))))
      (seq 1 20).

(** The state after [twentySaves]. *)
Definition twentySaved : state :=
  match runStoreAll twentySaves initialState with
  | Some st => st
  | None => initialState
  end.

(** A well-formed snapshot with the saved diagrams of the ordinals given,
    in that order. *)
Definition snapshotOf (ordinals : list nat) : json :=
  JObj [ (js "project",
          JObj [ (js "name", JStr (js "Nebula Run"))
               ; (js "genre", JStr (js "Unspecified"))
               ; (js "platforms", JArr [JStr (js "PC")])
               ; (js "createdAt", JStr (js "2026-01-01T00:00:00.000Z")) ])
       ; (js "gdd", JObj [])
       ; (js "diagramHistory", JArr (map diagramJson ordinals)) ].

(** Twenty diagrams, ordinals 1 to 20, the oldest first. *)
Definition oldestFirstSnapshot : json := snapshotOf (seq 1 20).

(** Twenty diagrams, ordinals 1000 down to 981, the newest first. *)
Definition aheadSnapshot : json := snapshotOf (rev (seq 981 20)).

(** Twenty diagrams saved one after the other while the clock goes back
    from 20 to 1. *)
Definition backwardSaves : list (env * storeEvent) :=
  map (fun n => (envAt (Z.of_nat n),
                 Operation (SaveDiagram (js "graph TD; A-->B") (js "gameloop"))))
      (rev (seq 1 20)).

(** A saved state with 21 diagrams. *)
Definition crowdedStore : json :=
  saveState (withDiagrams (map loopDiagram (rev (seq 1 21))) initialState).

(** ** More vocabulary: the stored content of a section *)

(** The content the store holds for a section as it is, white space
    included; the empty text when it holds none. *)
Definition storedText (st : state) (sectionId : jsstring) : jsstring :=
  match contentAt sectionId (gddData st) with
  | Some c => c
  | None => []
  end.

(** The instruction the store holds under a section id, as an own
    property; the empty text when it holds none. *)
Definition storedInstruction (st : state) (sectionId : jsstring) : jsstring :=
  match get sectionId (sectionPrompts st) with
  | Some i => i
  | None => []
  end.

(** [storyState] with the story stored with white space around it. *)
Definition paddedStoryState : state :=
  withGddData [ (js "story", {| content := Some (js " Zq" ++ nl);
                                lastUpdated := None |}) ]
    storyState.

(** [storyState] with a story that is white space only. *)
Definition blankStoryState : state :=
  withGddData [ (js "story", {| content := Some (js "  ");
                                lastUpdated := None |}) ]
    storyState.

(** * Properties *)

(** ** Strings and objects *)

Section StringFacts.

Lemma unitsEq_spec (a b : jsstring) : unitsEq a b = true <-> a = b.
Proof.
  revert b. induction a as [|x a IH]; intros [|y b]; simpl;
    try (split; [reflexivity || discriminate | reflexivity || discriminate]).
  rewrite andb_true_iff, Z.eqb_eq, IH. split.
  - intros [-> ->]. reflexivity.
  - intros H. injection H as -> ->. auto.
Qed.

Lemma unitsEq_refl (a : jsstring) : unitsEq a a = true.
Proof. now apply unitsEq_spec. Qed.

Lemma unitsEq_false (a b : jsstring) : unitsEq a b = false <-> a <> b.
Proof. now rewrite <- not_true_iff_false, unitsEq_spec. Qed.

Lemma nonEmpty_spec (s : jsstring) : nonEmpty s = true <-> s <> [].
Proof.
  unfold nonEmpty. rewrite negb_true_iff. apply unitsEq_false.
Qed.

Lemma nonEmpty_false (s : jsstring) : nonEmpty s = false <-> s = [].
Proof.
  unfold nonEmpty. rewrite negb_false_iff. apply unitsEq_spec.
Qed.

Lemma startsWith_app (p rest : jsstring) : startsWith p (p ++ rest) = true.
Proof.
  induction p as [|a p IH]; simpl; [reflexivity|].
  now rewrite Z.eqb_refl, IH.
Qed.

Lemma includes_here (s k : jsstring) :
  startsWith k s = true -> includes s k = true.
Proof. destruct s; simpl; intros ->; reflexivity. Qed.

Lemma includes_app (a before after : jsstring) :
  includes (before ++ a ++ after) a = true.
Proof.
  induction before as [|c before IH]; simpl.
  - apply includes_here, startsWith_app.
  - rewrite IH. apply orb_true_r.
Qed.

End StringFacts.

Section ObjFacts.

Context {A : Type}.

Lemma get_set_same (k : jsstring) (v : A) (o : obj A) :
  get k (set k v o) = Some v.
Proof.
  induction o as [|[k' v'] o IH]; simpl.
  - now rewrite unitsEq_refl.
  - destruct (unitsEq k k') eqn:E; simpl.
    + now rewrite unitsEq_refl.
    + now rewrite E.
Qed.

Lemma get_set_other (k k' : jsstring) (v : A) (o : obj A) :
  k <> k' -> get k (set k' v o) = get k o.
Proof.
  intros Hne. induction o as [|[k0 v0] o IH]; simpl.
  - apply unitsEq_false in Hne. now rewrite Hne.
  - destruct (unitsEq k' k0) eqn:E; simpl.
    + apply unitsEq_spec in E. subst k0.
      apply unitsEq_false in Hne. now rewrite Hne.
    + now rewrite IH.
Qed.

Lemma keys_set (k : jsstring) (v : A) (o : obj A) (x : jsstring) :
  In x (keys (set k v o)) -> x = k \/ In x (keys o).
Proof.
  unfold keys. induction o as [|[k0 v0] o IH]; simpl.
  - intros [H|[]]; auto.
  - destruct (unitsEq k k0) eqn:E; simpl.
    + apply unitsEq_spec in E. subst. tauto.
    + intros [H|H]; auto. apply IH in H. tauto.
Qed.

End ObjFacts.

(** ** Structured-snapshot import *)

Section JsonImport.

Lemma falsyField_spec (name : jsstring) (data : json) :
  falsyField name data = true <-> absentOrFalsy name data.
Proof.
  unfold falsyField, absentOrFalsy.
  destruct (field name data) as [v|]; split.
  - rewrite negb_true_iff. intros H. right. now exists v.
  - intros [H|[w [Hw Ht]]]; [discriminate|].
    injection Hw as <-. now rewrite Ht.
  - now left.
  - reflexivity.
Qed.

(** C2, as the code has it: a parsed snapshot other than [null] is
    reported invalid, with no result, exactly when [project] or [gdd] (one
    of them is enough) is missing or falsy; it is handed back unchanged
    exactly when both are present and truthy; [null] makes the property
    read throw. *)
Theorem parseJSONImport_requires_both_fields (data : json) :
  (parseJSONImport data = Invalid <->
     data <> JNull
     /\ (absentOrFalsy (js "project") data \/ absentOrFalsy (js "gdd") data))
  /\ (forall d, parseJSONImport data = Accepted d <->
        d = data /\ data <> JNull
        /\ ~ absentOrFalsy (js "project") data
        /\ ~ absentOrFalsy (js "gdd") data)
  /\ (parseJSONImport data = Threw <-> data = JNull).
Proof.
  pose proof (falsyField_spec (js "project") data) as HP.
  pose proof (falsyField_spec (js "gdd") data) as HG.
  assert (Hcase :
    (data = JNull /\ parseJSONImport data = Threw)
    \/ (data <> JNull
        /\ parseJSONImport data =
           if falsyField (js "project") data || falsyField (js "gdd") data
           then Invalid else Accepted data)).
  { destruct data; [left | right ..]; split; try reflexivity; discriminate. }
  destruct Hcase as [[Hn E] | [Hn E]]; rewrite E.
  - split; [|split].
    + split; [discriminate | intros [H _]; contradiction].
    + intros d; split; [discriminate | intros (_ & H & _); contradiction].
    + tauto.
  - destruct (falsyField (js "project") data), (falsyField (js "gdd") data);
      simpl; (split; [|split]); try (intros d); split;
      try discriminate; try contradiction;
      try (intros H; injection H as <-);
      try (intros (-> & _); reflexivity);
      intuition (auto; try congruence).
Qed.

(** The claim of C2 fails on a snapshot that has [project] and lacks
    [gdd]: it is reported invalid although the two fields are not both
    absent. *)
Lemma parseJSONImport_one_field_rejected :
  ~ (parseJSONImport projectOnlySnapshot = Invalid <->
       field (js "project") projectOnlySnapshot = None
       /\ field (js "gdd") projectOnlySnapshot = None).
Proof.
  intros [H _]. assert (E : parseJSONImport projectOnlySnapshot = Invalid)
    by reflexivity.
  destruct (H E) as [Hp _]. vm_compute in Hp. discriminate.
Qed.

End JsonImport.

(** ** Creating a project *)

Section CreateProject.

(** C9: with an empty trimmed name [createProject] leaves the state as it
    is; with a name, no genre and the one platform PC the project has the
    genre "Unspecified" and the [overview] section holds the heading of the
    name, the genre line, the platforms line listing PC, and the
    description. *)
Theorem createProject_nebula (e : env) (form : projectForm) (st : state) :
  (trim (newProjectName form) = [] -> createProject e form st = st)
  /\ (trim (newProjectName form) <> [] ->
      selectedGenres form = [] -> customTags form = [] ->
      checkedPlatforms form = [js "PC"] ->
      let st' := createProject e form st in
      let name := trim (newProjectName form) in
      (exists p, currentProject st' = Some p
                 /\ p_name p = name
                 /\ p_genre p = js "Unspecified"
                 /\ p_platforms p = [js "PC"]
                 /\ p_description p = Some (trim (newProjectDesc form)))
      /\ gddData st' =
         [ (js "overview",
            {| content :=
                 Some (js "# " ++ name ++ nl ++ nl
                       ++ js "**Genre:** Unspecified" ++ nl
                       ++ js "**Platforms:** PC" ++ nl ++ nl
                       ++ trim (newProjectDesc form));
               lastUpdated := None |}) ]).
Proof.
  split.
  - intros H. unfold createProject. rewrite H. reflexivity.
  - intros H Hg Hc Hp st' name. subst st' name. unfold createProject.
    apply unitsEq_false in H. rewrite H, Hg, Hc, Hp. simpl uniq. cbv iota.
    split.
    + eexists. repeat split; reflexivity.
    + reflexivity.
Qed.

Lemma createProject_nebula_witness :
  let st' := createProject sampleEnv nebulaForm initialState in
  gddData st' =
    [ (js "overview",
       {| content := Some (js "# Nebula Run

**Genre:** Unspecified
**Platforms:** PC

A racing game in space.");
          lastUpdated := None |}) ].
Proof.
  destruct (createProject_nebula sampleEnv nebulaForm initialState) as [_ H].
  destruct H as [_ H]; [vm_compute; discriminate | reflexivity..| ].
  exact H.
Defined.

End CreateProject.

(** ** Defaults of the headed-markdown import *)

Section MarkdownDefaults.

Variable e : env.

Lemma firstTitle_none (lines : list jsstring) :
  noTitleLine lines = true -> firstTitle lines = None.
Proof.
  induction lines as [|l lines IH]; simpl; [reflexivity|].
  intros H. apply andb_true_iff in H as [Hl H].
  apply negb_true_iff in Hl. rewrite Hl. auto.
Qed.

Lemma readHeader_genre_kept (lines : list jsstring) (h : header) :
  noGenreLine lines = true ->
  h_genre (fold_left (readMetaLine e) lines h) = h_genre h.
Proof.
  revert h. induction lines as [|l lines IH]; intros h H; simpl.
  - reflexivity.
  - simpl in H. apply andb_true_iff in H as [Hl H].
    rewrite IH by assumption. unfold readMetaLine. cbn [h_genre].
    destruct (matchLabel (js "**Genre:**") (trim l)); [discriminate | reflexivity].
Qed.

Lemma readHeader_platforms_kept (lines : list jsstring) (h : header) :
  noPlatformsLine lines = true ->
  h_platforms (fold_left (readMetaLine e) lines h) = h_platforms h.
Proof.
  revert h. induction lines as [|l lines IH]; intros h H; simpl.
  - reflexivity.
  - simpl in H. apply andb_true_iff in H as [Hl H].
    rewrite IH by assumption. unfold readMetaLine. cbn [h_platforms].
    destruct (matchPlatforms (trim l)); [discriminate | reflexivity].
Qed.

(** C10: a markdown import without a level-1 heading in its first 10
    lines is named "Imported Project"; without a line matching the genre
    pattern in its first 20 lines its genre is "Unknown"; without a line
    matching the platforms pattern there its platforms are ["PC"]; and
    the imported project has neither [id] nor [description]. *)
Theorem parseMarkdownImport_defaults (mdContent : jsstring) :
  let lines := split 10 mdContent in
  let p := r_project (parseMarkdownImport e mdContent) in
  (noTitleLine (firstn 10 lines) = true -> p_name p = js "Imported Project")
  /\ (noGenreLine (firstn 20 lines) = true -> p_genre p = js "Unknown")
  /\ (noPlatformsLine (firstn 20 lines) = true -> p_platforms p = [js "PC"])
  /\ p_id p = None
  /\ p_description p = None.
Proof.
  intros lines p. subst p. unfold parseMarkdownImport. fold lines.
  cbn [r_project p_name p_genre p_platforms p_id p_description].
  repeat split.
  - intros H. now rewrite (firstTitle_none _ H).
  - intros H. unfold readHeader. now rewrite (readHeader_genre_kept _ _ H).
  - intros H. unfold readHeader. now rewrite (readHeader_platforms_kept _ _ H).
Qed.

End MarkdownDefaults.

Lemma parseMarkdownImport_defaults_witness :
  let p := r_project (parseMarkdownImport sampleEnv plainNote) in
  p_name p = js "Imported Project" /\ p_genre p = js "Unknown"
  /\ p_platforms p = [js "PC"].
Proof.
  destruct (parseMarkdownImport_defaults sampleEnv plainNote)
    as (Hn & Hg & Hp & _).
  cbv zeta. split; [apply Hn | split; [apply Hg | apply Hp]];
    vm_compute; reflexivity.
Defined.

(** ** Section-fill prompts *)

Section SectionFill.

Lemma occursIn_here (a s : jsstring) : occursIn a (a ++ s).
Proof. exists [], s. reflexivity. Qed.

Lemma occursIn_later (a t s : jsstring) : occursIn a s -> occursIn a (t ++ s).
Proof.
  intros (before & after & ->). exists (t ++ before), after.
  now rewrite app_assoc.
Qed.

Lemma occursIn_includes (a s : jsstring) : occursIn a s -> includes s a = true.
Proof. intros (before & after & ->). apply includes_app. Qed.

Ltac find_occurrence :=
  repeat first [ apply occursIn_here | apply occursIn_later ].

Lemma updatePrompt_quotes (e : env) (p : project) (section : sectionDef)
    (existingContent customPrompt : jsstring) :
  occursIn existingContent (updatePrompt e p section existingContent customPrompt)
  /\ occursIn customPrompt (updatePrompt e p section existingContent customPrompt).
Proof. unfold updatePrompt. split; find_occurrence. Qed.

(** The entry of the target section adds nothing to the reference list. *)
Lemma otherSections_set_target (gdd : obj sectionData) (sectionId : jsstring)
    (d : sectionData) :
  otherSections (set sectionId d gdd) sectionId = otherSections gdd sectionId.
Proof.
  unfold otherSections. f_equal.
  set (f := fun kv : jsstring * sectionData => _).
  assert (Hf : forall d', f (sectionId, d') = []).
  { intros d'. subst f. cbv beta iota.
    destruct (findSection sectionId), (content d'); try reflexivity.
    now rewrite unitsEq_refl, andb_false_r. }
  induction gdd as [|[k v] gdd IH]; cbn [set map filter].
  - now rewrite Hf.
  - destruct (unitsEq sectionId k) eqn:E; cbn [map filter].
    + apply unitsEq_spec in E. subst k. now rewrite !Hf.
    + now rewrite IH.
Qed.

Lemma isUpdate_spec (st : state) (sectionId : jsstring) :
  isUpdate st sectionId = true <->
  existingContentOf st sectionId <> [] /\ customPromptOf st sectionId <> [].
Proof.
  unfold isUpdate. now rewrite andb_true_iff, !nonEmpty_spec.
Qed.

Lemma existingContentOf_stored (st : state) (sectionId : jsstring) :
  existingContentOf st sectionId = trim (storedText st sectionId).
Proof.
  unfold existingContentOf, storedText, contentAt.
  destruct (get sectionId (gddData st)) as [d|]; [|reflexivity].
  destruct (content d); reflexivity.
Qed.

Lemma isUpdate_stored (st : state) (sectionId : jsstring) :
  isUpdate st sectionId = true <->
  trim (storedText st sectionId) <> [] /\ storedInstruction st sectionId <> [].
Proof.
  rewrite isUpdate_spec, existingContentOf_stored. reflexivity.
Qed.

Lemma isUpdate_stored_false (st : state) (sectionId : jsstring) :
  trim (storedText st sectionId) = [] \/ storedInstruction st sectionId = [] ->
  isUpdate st sectionId = false.
Proof.
  intros H. apply not_true_iff_false. rewrite isUpdate_stored.
  intros [Hc Hi]. destruct H; contradiction.
Qed.

(** The two prompts part after the project lines: the update prompt goes
    on with "Here is", the fresh prompt with "Other" or a line break. *)
Lemma updatePrompt_not_fresh (e : env) (p : project) (section : sectionDef)
    (existingContent customPrompt others customPrompt' : jsstring) :
  updatePrompt e p section existingContent customPrompt
  <> freshPrompt e p section others customPrompt'.
Proof.
  unfold updatePrompt, freshPrompt. intros H.
  do 4 apply app_inv_head in H.
  apply (f_equal (fun s => hd 0 s)) in H.
  destruct (nonEmpty others); vm_compute in H; discriminate.
Qed.

(** C5, as the code has it: for a request on a registry section of an
    open project, the existing content is the stored content with the
    white space around it dropped.  The update prompt is the one sent
    exactly when that trimmed content and the stored instruction are both
    non-empty; it then carries the trimmed content and the instruction;
    otherwise the fresh prompt is sent, and it is the same whatever the
    store holds for the target section. *)
Theorem generateSection_sub_mode (e : env) (st : state) (sectionId : jsstring)
    (section : sectionDef) (p : project) :
  findSection sectionId = Some section ->
  currentProject st = Some p ->
  let existingContent := trim (storedText st sectionId) in
  let customPrompt := storedInstruction st sectionId in
  ((exists content instruction,
      sectionPrompt e st sectionId
      = Some (updatePrompt e p section content instruction))
   <-> existingContent <> [] /\ customPrompt <> [])
  /\ (existingContent <> [] /\ customPrompt <> [] ->
      sectionPrompt e st sectionId =
        Some (updatePrompt e p section existingContent customPrompt)
      /\ occursIn existingContent
           (updatePrompt e p section existingContent customPrompt)
      /\ occursIn customPrompt
           (updatePrompt e p section existingContent customPrompt))
  /\ (~ (existingContent <> [] /\ customPrompt <> []) ->
      sectionPrompt e st sectionId =
        Some (freshPrompt e p section (otherSections (gddData st) sectionId)
                customPrompt))
  /\ (forall d : sectionData,
        let st' := withGddData (set sectionId d (gddData st)) st in
        existingContent = [] \/ customPrompt = [] ->
        trim (storedText st' sectionId) = [] \/ customPrompt = [] ->
        sectionPrompt e st' sectionId = sectionPrompt e st sectionId).
Proof.
  intros Hsec Hproj existingContent customPrompt.
  subst existingContent customPrompt.
  assert (Hupdate :
            trim (storedText st sectionId) <> []
            /\ storedInstruction st sectionId <> [] ->
            sectionPrompt e st sectionId
            = Some (updatePrompt e p section (trim (storedText st sectionId))
                      (storedInstruction st sectionId))).
  { intros H. apply isUpdate_stored in H.
    unfold sectionPrompt. rewrite Hsec, Hproj, H.
    now rewrite existingContentOf_stored. }
  assert (Hfresh :
            ~ (trim (storedText st sectionId) <> []
               /\ storedInstruction st sectionId <> []) ->
            sectionPrompt e st sectionId
            = Some (freshPrompt e p section
                      (otherSections (gddData st) sectionId)
                      (storedInstruction st sectionId))).
  { intros H. rewrite <- isUpdate_stored, not_true_iff_false in H.
    unfold sectionPrompt. now rewrite Hsec, Hproj, H. }
  split; [|split; [|split]].
  - split.
    + intros (c & i & Hsent).
      destruct (isUpdate st sectionId) eqn:Eu;
        [now apply isUpdate_stored|].
      rewrite Hfresh in Hsent.
      * pose proof (f_equal (fun o : option jsstring =>
                               match o with Some x => x | None => [] end)
                            Hsent) as Heq.
        cbv beta iota in Heq. symmetry in Heq.
        now apply updatePrompt_not_fresh in Heq.
      * rewrite <- isUpdate_stored. congruence.
    + intros H. eexists. eexists. now apply Hupdate.
  - intros H. split; [now apply Hupdate | apply updatePrompt_quotes].
  - exact Hfresh.
  - intros d st' Hf Hf'. apply isUpdate_stored_false in Hf.
    assert (Hf2 : isUpdate st' sectionId = false)
      by (apply isUpdate_stored_false; exact Hf').
    subst st'. unfold sectionPrompt in *.
    cbn [currentProject withGddData] in *. rewrite Hsec, Hproj, Hf, Hf2.
    unfold customPromptOf. cbn [sectionPrompts gddData withGddData].
    now rewrite otherSections_set_target.
Qed.

End SectionFill.

Lemma generateSection_sub_mode_witness :
  exists prompt,
    sectionPrompt sampleEnv storyState (js "story") = Some prompt
    /\ prompt = updatePrompt sampleEnv nebulaProject storySection
                  (storedText storyState (js "story"))
                  (js "Add a twist: D")
    /\ occursIn (storedText storyState (js "story")) prompt
    /\ occursIn (js "Add a twist: D") prompt.
Proof.
  assert (Hs : findSection (js "story") = Some storySection)
    by (vm_compute; reflexivity).
  assert (Hp : currentProject storyState = Some nebulaProject)
    by (vm_compute; reflexivity).
  assert (Ht : trim (storedText storyState (js "story"))
               = storedText storyState (js "story"))
    by (vm_compute; reflexivity).
  assert (Hi : storedInstruction storyState (js "story")
               = js "Add a twist: D")
    by (vm_compute; reflexivity).
  destruct (generateSection_sub_mode sampleEnv storyState (js "story")
              storySection nebulaProject Hs Hp) as (_ & H & _).
  destruct H as (Hpr & Hc & Hq); [split; vm_compute; discriminate|].
  rewrite Ht, Hi in Hpr, Hc, Hq.
  eexists. split; [exact Hpr|]. split; [reflexivity|].
  split; [exact Hc | exact Hq].
Defined.

(** The claim of C5 fails on content with white space around it.  A story
    stored as " Zq", a line break after it, with an instruction: the
    update prompt is sent and holds "Zq", yet not the stored content as it
    is.  A story of two spaces with an instruction: the content and the
    instruction are both non-empty, yet the fresh prompt is sent. *)
Lemma generateSection_drops_white_space :
  (exists prompt,
     sectionPrompt sampleEnv paddedStoryState (js "story") = Some prompt
     /\ prompt = updatePrompt sampleEnv nebulaProject storySection (js "Zq")
                   (js "Add a twist: D")
     /\ storedText paddedStoryState (js "story") = js " Zq" ++ nl
     /\ includes prompt (storedText paddedStoryState (js "story")) = false)
  /\ nonEmpty (storedText blankStoryState (js "story")) = true
  /\ nonEmpty (storedInstruction blankStoryState (js "story")) = true
  /\ sectionPrompt sampleEnv blankStoryState (js "story")
     = Some (freshPrompt sampleEnv nebulaProject storySection
               (otherSections (gddData blankStoryState) (js "story"))
               (js "Add a twist: D")).
Proof.
  split; [|split; [|split]].
  - eexists. split; [vm_compute; reflexivity|].
    split; [|split]; vm_compute; reflexivity.
  - vm_compute. reflexivity.
  - vm_compute. reflexivity.
  - vm_compute. reflexivity.
Qed.


(** ** Saved diagrams *)

Section Diagrams.

Lemma length_pop {A} (l : list A) : List.length (pop l) = pred (List.length l).
Proof.
  unfold pop. induction l as [|a [|b l] IH]; simpl in *; auto.
Qed.

Lemma saveDiagram_stored (e : env) (codeField type : jsstring) (st : state) :
  trim codeField <> [] ->
  let diagram := {| d_id := inject_Z (nowMs e); d_type := type;
                    d_label := diagramLabel type; d_code := trim codeField;
                    d_createdAt := nowISO e |} in
  diagramHistory (saveDiagram e codeField type st) =
    if (20 <=? List.length (diagramHistory st))%nat
    then pop (diagram :: diagramHistory st)
    else diagram :: diagramHistory st.
Proof.
  intros Hc diagram. unfold saveDiagram.
  apply unitsEq_false in Hc. rewrite Hc. cbn [diagramHistory withDiagrams].
  reflexivity.
Qed.

Lemma saveDiagram_length (e : env) (codeField type : jsstring) (st : state) :
  (List.length (diagramHistory st) <= 20)%nat ->
  (List.length (diagramHistory (saveDiagram e codeField type st)) <= 20)%nat.
Proof.
  intros H. destruct (unitsEq (trim codeField) []) eqn:E.
  - unfold saveDiagram. now rewrite E.
  - apply unitsEq_false in E. rewrite (saveDiagram_stored _ _ _ _ E).
    destruct (20 <=? List.length (diagramHistory st))%nat eqn:L.
    + rewrite length_pop. simpl. exact H.
    + apply Nat.leb_gt in L. simpl. lia.
Qed.

Lemma deleteDiagram_length (id : Q) (st : state) :
  (List.length (diagramHistory (deleteDiagram id st))
   <= List.length (diagramHistory st))%nat.
Proof. unfold deleteDiagram. cbn [diagramHistory withDiagrams]. apply filter_length_le. Qed.

Lemma last_cons {A} (a d : A) (l : list A) : last (a :: l) d = last l a.
Proof.
  revert a d. induction l as [|b l IH]; intros a d; [reflexivity|].
  change (last (a :: b :: l) d) with (last (b :: l) d).
  now rewrite (IH b d), (IH b a).
Qed.

(** In a list kept newest first, the last entry has the smallest ordinal. *)
Lemma newestFirst_last (d0 : diagram) (l : list diagram) :
  newestFirst (d0 :: l) ->
  forall d, In d (d0 :: l) -> (d_id (last l d0) <= d_id d)%Q.
Proof.
  revert d0. induction l as [|d1 l IH]; intros d0 Hs d Hin.
  - destruct Hin as [<-|[]]. apply Qle_refl.
  - inversion Hs as [|? ? Hs' Hall]; subst.
    rewrite last_cons.
    destruct Hin as [<-|Hin].
    + apply Qle_trans with (d_id d1).
      * apply IH; [exact Hs' | now left].
      * now inversion Hall.
    + now apply IH.
Qed.

Lemma diagramHistory_touch (e : env) (st : state) :
  diagramHistory (touch e st) = diagramHistory st.
Proof. reflexivity. Qed.

Lemma diagramHistory_generateSection (e : env) (contentEl : bool)
    (complete : jsstring -> option jsstring) (sectionId : jsstring) (st : state) :
  diagramHistory (generateSection e contentEl complete sectionId st)
  = diagramHistory st.
Proof.
  unfold generateSection.
  destruct (sectionPrompt e st sectionId); [|reflexivity].
  destruct contentEl; [|reflexivity]. cbn [negb].
  destruct (complete j) as [response|]; [|reflexivity].
  destruct (nonEmpty response); reflexivity.
Qed.

Lemma parseJSONImport_accepted (data d : json) :
  parseJSONImport data = Accepted d -> d = data.
Proof.
  unfold parseJSONImport.
  destruct data;
    try destruct (falsyField (js "project") _ || falsyField (js "gdd") _);
    congruence.
Qed.

Lemma run_bounded (e : env) (o : op) (st st' : state) :
  boundedEvent o = true -> run e o st = Some st' ->
  (List.length (diagramHistory st) <= 20)%nat ->
  (List.length (diagramHistory st') <= 20)%nat.
Proof.
  intros Hb Hrun Hlen. destruct o; simpl in Hrun.
  - injection Hrun as <-. unfold createProject.
    destruct (unitsEq _ _); assumption.
  - injection Hrun as <-. now rewrite diagramHistory_generateSection.
  - injection Hrun as <-. destruct editor; assumption.
  - injection Hrun as <-. now apply saveDiagram_length.
  - injection Hrun as <-. eapply Nat.le_trans; [apply deleteDiagram_length | assumption].
  - destruct file as [[data|] | text | [markdown|] | ]; simpl in Hrun;
      try (injection Hrun as <-; assumption).
    destruct (parseJSONImport data) as [| |d] eqn:Ep;
      try (injection Hrun as <-; assumption).
    apply parseJSONImport_accepted in Ep. subst d.
    simpl in Hb. destruct (readSnapshot data) as [result|]; [|discriminate].
    injection Hrun as <-. unfold applyImport.
    rewrite diagramHistory_touch. cbn [diagramHistory].
    destruct result as [rp rg rs [dh|] rc]; cbn [r_diagramHistory] in *.
    + now apply Nat.leb_le.
    + assumption.
Qed.

Lemma runAll_bounded (trace : list (env * op)) (st st' : state) :
  forallb (fun eo => boundedEvent (snd eo)) trace = true ->
  runAll trace st = Some st' ->
  (List.length (diagramHistory st) <= 20)%nat ->
  (List.length (diagramHistory st') <= 20)%nat.
Proof.
  revert st. induction trace as [|[e o] trace IH]; intros st Hb Hrun Hlen.
  - simpl in Hrun. now injection Hrun as <-.
  - simpl in Hb, Hrun. apply andb_true_iff in Hb as [Ho Hb].
    destruct (run e o st) as [st1|] eqn:E; [|discriminate].
    eapply IH; eauto using run_bounded.
Qed.

Lemma runStore_bounded (e : env) (ev : storeEvent) (st st' : state) :
  boundedStoreEvent ev = true -> runStore e ev st = Some st' ->
  (List.length (diagramHistory st) <= 20)%nat ->
  (List.length (diagramHistory st') <= 20)%nat.
Proof.
  intros Hb Hrun Hlen. destruct ev as [o|saved].
  - destruct o as [form|contentEl complete sectionId|editor sectionId
                   |codeField type|id|file];
      try (eapply run_bounded; [ | exact Hrun | exact Hlen]; reflexivity).
    destruct file as [[data|] | text | [markdown|] | ];
      try (eapply run_bounded; [ | exact Hrun | exact Hlen]; reflexivity).
    cbn [runStore run importProjectFile] in Hrun.
    unfold boundedStoreEvent in Hb. cbn [broughtDiagrams] in Hb.
    destruct (parseJSONImport data) as [| |d] eqn:Ep;
      try (injection Hrun as <-; assumption).
    destruct (readSnapshot d) as [result|]; [|discriminate].
    injection Hrun as <-. unfold applyImport.
    rewrite diagramHistory_touch. cbn [diagramHistory].
    destruct (r_diagramHistory result) as [dh|].
    + now apply Nat.leb_le.
    + assumption.
  - cbn [runStore] in Hrun. unfold boundedStoreEvent in Hb.
    destruct saved as [| |data]; try (injection Hrun as <-; assumption).
    unfold loadState in Hrun. cbn [broughtDiagrams] in Hb.
    destruct data; try (injection Hrun as <-; assumption);
      repeat match type of Hrun with
             | context [match orDefault ?f ?d ?k ?v with _ => _ end] =>
               destruct (orDefault f d k v); [|discriminate]
             end;
      injection Hrun as <-; cbn [diagramHistory]; now apply Nat.leb_le.
Qed.

Lemma runStoreAll_bounded (trace : list (env * storeEvent)) (st st' : state) :
  forallb (fun ee => boundedStoreEvent (snd ee)) trace = true ->
  runStoreAll trace st = Some st' ->
  (List.length (diagramHistory st) <= 20)%nat ->
  (List.length (diagramHistory st') <= 20)%nat.
Proof.
  revert st. induction trace as [|[e ev] trace IH]; intros st Hb Hrun Hlen.
  - simpl in Hrun. now injection Hrun as <-.
  - cbn [forallb snd] in Hb. cbn [runStoreAll] in Hrun.
    rewrite andb_true_iff in Hb. destruct Hb as [Hev Hb].
    destruct (runStore e ev st) as [st1|] eqn:E; [|discriminate].
    eapply IH; eauto using runStore_bounded.
Qed.

(** *** The order of the list *)

Lemma newestFirstB_spec (l : list diagram) :
  newestFirstB l = true -> newestFirst l.
Proof.
  induction l as [|a l IH]; intros H; [constructor|].
  cbn [newestFirstB] in H. rewrite andb_true_iff in H. destruct H as [Ha Hl].
  constructor; [now apply IH|].
  apply Forall_forall. intros b Hb.
  rewrite forallb_forall in Ha. apply Qle_bool_iff. now apply Ha.
Qed.

Lemma notAfter_spec (ms : Z) (l : list diagram) :
  notAfter ms l = true -> Forall (fun d => (d_id d <= inject_Z ms)%Q) l.
Proof.
  unfold notAfter. rewrite forallb_forall. intros H.
  apply Forall_forall. intros d Hd. apply Qle_bool_iff. now apply H.
Qed.

Lemma inOrderAt_nil (ms : Z) : inOrderAt ms [].
Proof. split; constructor. Qed.

Lemma inOrderAt_later (t t' : Z) (l : list diagram) :
  t <= t' -> inOrderAt t l -> inOrderAt t' l.
Proof.
  intros Ht [Hs Hall]. split; [exact Hs|].
  eapply Forall_impl; [|exact Hall]. intros d Hd.
  eapply Qle_trans; [exact Hd|]. now rewrite <- Zle_Qle.
Qed.

Lemma newestFirst_removelast (l : list diagram) :
  newestFirst l -> newestFirst (removelast l).
Proof.
  induction l as [|a l IH]; intros H; [constructor|].
  inversion H as [|? ? Hs Hall]; subst.
  destruct l as [|b l]; [constructor|].
  change (removelast (a :: b :: l)) with (a :: removelast (b :: l)).
  constructor; [now apply IH|].
  apply Forall_forall. intros d Hd.
  rewrite Forall_forall in Hall. apply Hall.
  clear - Hd. revert b Hd. induction l as [|c l IHl]; intros b Hd.
  - destruct Hd.
  - change (removelast (b :: c :: l)) with (b :: removelast (c :: l)) in Hd.
    destruct Hd as [<-|Hd]; [now left | right; now apply IHl].
Qed.

Lemma In_removelast {A} (l : list A) (d : A) : In d (removelast l) -> In d l.
Proof.
  induction l as [|a [|b l] IH]; intros H.
  - destruct H.
  - destruct H.
  - change (removelast (a :: b :: l)) with (a :: removelast (b :: l)) in H.
    destruct H as [<-|H]; [now left | right; now apply IH].
Qed.

Lemma inOrderAt_removelast (t : Z) (l : list diagram) :
  inOrderAt t l -> inOrderAt t (removelast l).
Proof.
  intros [Hs Hall]. split; [now apply newestFirst_removelast|].
  apply Forall_forall. intros d Hd.
  rewrite Forall_forall in Hall. apply Hall. now apply In_removelast.
Qed.

Lemma newestFirst_filter (f : diagram -> bool) (l : list diagram) :
  newestFirst l -> newestFirst (filter f l).
Proof.
  induction l as [|a l IH]; intros H; [constructor|].
  inversion H as [|? ? Hs Hall]; subst. cbn [filter].
  destruct (f a); [|now apply IH].
  constructor; [now apply IH|].
  apply Forall_forall. intros d Hd. apply filter_In in Hd as [Hd _].
  rewrite Forall_forall in Hall. now apply Hall.
Qed.

Lemma inOrderAt_filter (t : Z) (f : diagram -> bool) (l : list diagram) :
  inOrderAt t l -> inOrderAt t (filter f l).
Proof.
  intros [Hs Hall]. split; [now apply newestFirst_filter|].
  apply Forall_forall. intros d Hd. apply filter_In in Hd as [Hd _].
  rewrite Forall_forall in Hall. now apply Hall.
Qed.

(** A diagram made at the clock [ms] goes in front of a list that holds no
    ordinal after [ms]. *)
Lemma inOrderAt_cons (ms : Z) (d : diagram) (l : list diagram) :
  d_id d = inject_Z ms -> inOrderAt ms l -> inOrderAt ms (d :: l).
Proof.
  intros Hd [Hs Hall]. split.
  - constructor; [exact Hs|]. now rewrite Hd.
  - constructor; [rewrite Hd; apply Qle_refl | exact Hall].
Qed.

Lemma saveDiagram_inOrder (e : env) (codeField type : jsstring) (st : state) :
  inOrderAt (nowMs e) (diagramHistory st) ->
  inOrderAt (nowMs e) (diagramHistory (saveDiagram e codeField type st)).
Proof.
  intros H. destruct (unitsEq (trim codeField) []) eqn:E.
  - unfold saveDiagram. now rewrite E.
  - apply unitsEq_false in E. rewrite (saveDiagram_stored _ _ _ _ E).
    destruct (20 <=? List.length (diagramHistory st))%nat.
    + unfold pop. apply inOrderAt_removelast. now apply inOrderAt_cons.
    + now apply inOrderAt_cons.
Qed.

Lemma runStore_inOrder (t : Z) (e : env) (ev : storeEvent) (st st' : state) :
  t <= nowMs e -> orderedEvent e ev = true ->
  runStore e ev st = Some st' ->
  inOrderAt t (diagramHistory st) ->
  inOrderAt (nowMs e) (diagramHistory st').
Proof.
  intros Ht Hev Hrun Hin. apply (inOrderAt_later _ _ _ Ht) in Hin.
  destruct ev as [o|saved].
  - destruct o as [form|contentEl complete sectionId|editor sectionId
                   |codeField type|id|file]; cbn [runStore run] in Hrun.
    + injection Hrun as <-. unfold createProject.
      destruct (unitsEq _ _); assumption.
    + injection Hrun as <-. now rewrite diagramHistory_generateSection.
    + injection Hrun as <-. destruct editor; assumption.
    + injection Hrun as <-. now apply saveDiagram_inOrder.
    + injection Hrun as <-. unfold deleteDiagram.
      cbn [diagramHistory withDiagrams]. now apply inOrderAt_filter.
    + destruct file as [[data|] | text | [markdown|] | ];
        cbn [importProjectFile] in Hrun;
        try (injection Hrun as <-; assumption).
      unfold orderedEvent in Hev. cbn [broughtDiagrams] in Hev.
      destruct (parseJSONImport data) as [| |d] eqn:Ep;
        try (injection Hrun as <-; assumption).
      destruct (readSnapshot d) as [result|]; [|discriminate].
      injection Hrun as <-. unfold applyImport.
      rewrite diagramHistory_touch. cbn [diagramHistory].
      destruct (r_diagramHistory result) as [dh|]; [|assumption].
      rewrite andb_true_iff in Hev. destruct Hev as [Hn Ha].
      split; [now apply newestFirstB_spec | now apply notAfter_spec].
  - cbn [runStore] in Hrun. unfold orderedEvent in Hev.
    destruct saved as [| |data]; try (injection Hrun as <-; assumption).
    unfold loadState in Hrun. cbn [broughtDiagrams] in Hev.
    destruct data; try (injection Hrun as <-; assumption);
      repeat match type of Hrun with
             | context [match orDefault ?f ?d ?k ?v with _ => _ end] =>
               destruct (orDefault f d k v); [|discriminate]
             end;
      injection Hrun as <-; cbn [diagramHistory];
      rewrite andb_true_iff in Hev; destruct Hev as [Hn Ha];
      (split; [now apply newestFirstB_spec | now apply notAfter_spec]).
Qed.

Lemma runStoreAll_inOrder (trace : list (env * storeEvent)) (t : Z)
    (e : env) (st st' : state) :
  clocksAscendFrom t trace = true ->
  forallb (fun ee => orderedEvent (fst ee) (snd ee)) trace = true ->
  afterRun trace e = true -> t <= nowMs e ->
  runStoreAll trace st = Some st' ->
  inOrderAt t (diagramHistory st) ->
  inOrderAt (nowMs e) (diagramHistory st').
Proof.
  revert t st. induction trace as [|[e1 ev] trace IH];
    intros t st Hc Ho Ha Ht Hrun Hin.
  - cbn [runStoreAll] in Hrun. injection Hrun as <-.
    now apply (inOrderAt_later t).
  - cbn [clocksAscendFrom] in Hc. cbn [forallb fst snd] in Ho.
    unfold afterRun in Ha. cbn [forallb fst] in Ha.
    cbn [runStoreAll] in Hrun.
    rewrite andb_true_iff in Hc, Ho, Ha.
    destruct Hc as [Hc1 Hc], Ho as [Ho1 Ho], Ha as [Ha1 Ha].
    apply Z.leb_le in Hc1, Ha1.
    destruct (runStore e1 ev st) as [st1|] eqn:E; [|discriminate].
    apply (IH (nowMs e1) st1); auto.
    now apply (runStore_inOrder t e1 ev st).
Qed.

Lemma orderedRun_inOrder (trace : list (env * storeEvent)) (e : env)
    (st : state) :
  orderedRun trace = true -> afterRun trace e = true ->
  runStoreAll trace initialState = Some st ->
  inOrderAt (nowMs e) (diagramHistory st).
Proof.
  intros Ho Ha Hrun. unfold orderedRun in Ho.
  rewrite andb_true_iff in Ho. destruct Ho as [Hc Ho].
  destruct trace as [|[e1 ev] trace].
  - cbn [runStoreAll] in Hrun. injection Hrun as <-. apply inOrderAt_nil.
  - assert (H1 : nowMs e1 <= nowMs e).
    { unfold afterRun in Ha. cbn [forallb fst] in Ha.
      rewrite andb_true_iff in Ha. destruct Ha as [Ha _].
      now apply Z.leb_le. }
    apply (runStoreAll_inOrder ((e1, ev) :: trace) (nowMs e1) e initialState);
      auto.
    apply inOrderAt_nil.
Qed.

Lemma last_In {A} (l : list A) (a : A) : In (last l a) (a :: l).
Proof.
  revert a. induction l as [|b l IH]; intros a; [now left|].
  rewrite last_cons. right. apply IH.
Qed.

Lemma app_removelast_last_cons {A} (a : A) (l : list A) :
  a :: l = removelast (a :: l) ++ [last l a].
Proof.
  rewrite <- (last_cons a a l). apply app_removelast_last. discriminate.
Qed.

(** C4, as the code has it.  (1) [saveDiagram] keeps a list of at most 20
    entries at most 20 long.  (2) On a list of exactly 20 it puts the new
    entry first and drops the last entry of the list, whatever its ordinal.
    (3) The bound holds after every run of events from the initial state,
    imports and restores included, in which each import or restore that
    brings a diagram list brings at most 20.  (4) After every run from the
    initial state in which the clock never goes back and each import or
    restore brings a list that is newest first and not ahead of the clock,
    the list is newest first, and a diagram saved then on a list of 20 evicts
    the entry with the smallest creation ordinal of the 21. *)
Theorem saveDiagram_keeps_bound :
  (forall e codeField type st,
     (List.length (diagramHistory st) <= 20)%nat ->
     (List.length (diagramHistory (saveDiagram e codeField type st)) <= 20)%nat)
  /\ (forall e codeField type st,
        trim codeField <> [] ->
        List.length (diagramHistory st) = 20%nat ->
        let diagram := {| d_id := inject_Z (nowMs e); d_type := type;
                          d_label := diagramLabel type;
                          d_code := trim codeField;
                          d_createdAt := nowISO e |} in
        let st' := saveDiagram e codeField type st in
        diagramHistory st' = diagram :: removelast (diagramHistory st)
        /\ diagram :: diagramHistory st
           = diagramHistory st' ++ [last (diagramHistory st) diagram])
  /\ (forall trace st,
        forallb (fun ee => boundedStoreEvent (snd ee)) trace = true ->
        runStoreAll trace initialState = Some st ->
        (List.length (diagramHistory st) <= 20)%nat)
  /\ (forall trace st,
        orderedRun trace = true ->
        runStoreAll trace initialState = Some st ->
        newestFirst (diagramHistory st)
        /\ forall e codeField type,
             afterRun trace e = true ->
             trim codeField <> [] ->
             List.length (diagramHistory st) = 20%nat ->
             let diagram := {| d_id := inject_Z (nowMs e); d_type := type;
                               d_label := diagramLabel type;
                               d_code := trim codeField;
                               d_createdAt := nowISO e |} in
             let st' := saveDiagram e codeField type st in
             let evicted := last (diagramHistory st) diagram in
             diagram :: diagramHistory st = diagramHistory st' ++ [evicted]
             /\ In evicted (diagramHistory st)
             /\ (forall d, In d (diagram :: diagramHistory st) ->
                           (d_id evicted <= d_id d)%Q)
             /\ newestFirst (diagramHistory st')).
Proof.
  assert (Hsave : forall e codeField type st,
            trim codeField <> [] ->
            List.length (diagramHistory st) = 20%nat ->
            let diagram := {| d_id := inject_Z (nowMs e); d_type := type;
                              d_label := diagramLabel type;
                              d_code := trim codeField;
                              d_createdAt := nowISO e |} in
            let st' := saveDiagram e codeField type st in
            diagramHistory st' = diagram :: removelast (diagramHistory st)
            /\ diagram :: diagramHistory st
               = diagramHistory st' ++ [last (diagramHistory st) diagram]).
  { intros e codeField type st Hc Hlen diagram st'.
    assert (E : diagramHistory st'
                = diagram :: removelast (diagramHistory st)).
    { unfold st'. rewrite (saveDiagram_stored _ _ _ _ Hc), Hlen.
      cbn [Nat.leb]. unfold pop.
      destruct (diagramHistory st); [discriminate | reflexivity]. }
    split; [exact E|]. rewrite E.
    destruct (diagramHistory st) as [|d0 l] eqn:Eh; [discriminate|].
    change ((diagram :: removelast (d0 :: l)) ++ [last (d0 :: l) diagram])
      with (removelast (diagram :: d0 :: l) ++ [last (d0 :: l) diagram]).
    apply app_removelast_last_cons. }
  split; [|split; [|split]].
  - intros. now apply saveDiagram_length.
  - exact Hsave.
  - intros trace st Hb Hrun. eapply runStoreAll_bounded; eauto. simpl. lia.
  - intros trace st Ho Hrun. split.
    + destruct trace as [|[e1 ev] trace].
      * cbn [runStoreAll] in Hrun. injection Hrun as <-. constructor.
      * set (eLast := envAt (fold_right Z.max 0
                                (map (fun ee => nowMs (fst ee))
                                     ((e1, ev) :: trace)))).
        apply (orderedRun_inOrder ((e1, ev) :: trace) eLast st); auto.
        unfold afterRun. apply forallb_forall. intros ee Hee.
        apply Z.leb_le. unfold eLast. cbn [nowMs envAt].
        clear - Hee. induction ((e1, ev) :: trace) as [|x l IH];
          [destruct Hee|].
        cbn [map fold_right]. destruct Hee as [<-|Hee]; [lia|].
        specialize (IH Hee). lia.
    + intros e codeField type Ha Hc Hlen diagram st' evicted.
      pose proof (orderedRun_inOrder trace e st Ho Ha Hrun) as Hin.
      destruct (Hsave e codeField type st Hc Hlen) as [E1 E2].
      fold diagram in E1, E2. fold st' in E1, E2. fold evicted in E2.
      assert (Hall : inOrderAt (nowMs e) (diagram :: diagramHistory st))
        by now apply inOrderAt_cons.
      split; [exact E2|]. split; [|split].
      * unfold evicted.
        destruct (diagramHistory st) as [|d0 l]; [discriminate|].
        rewrite last_cons. apply last_In.
      * apply newestFirst_last. apply Hall.
      * rewrite E1.
        destruct (diagramHistory st) as [|d0 l] eqn:Eh; [discriminate|].
        change (diagram :: removelast (d0 :: l))
          with (removelast (diagram :: d0 :: l)).
        apply newestFirst_removelast. apply Hall.
Qed.

(** Twenty diagrams saved at the clocks 1 to 20, then one at the clock 21:
    the diagram of the clock 1 goes. *)
Lemma saveDiagram_keeps_bound_witness :
  let st' := saveDiagram (envAt 21) (js "graph TD; A-->B") (js "gameloop")
               twentySaved in
  (List.length (diagramHistory st') <= 20)%nat
  /\ map d_id (diagramHistory twentySaved)
     = map (fun n => inject_Z (Z.of_nat n)) (rev (seq 1 20))
  /\ map d_id (diagramHistory st')
     = map (fun n => inject_Z (Z.of_nat n)) (rev (seq 2 20))
  /\ (exists evicted,
        In evicted (diagramHistory twentySaved)
        /\ d_id evicted = inject_Z 1
        /\ map d_id (diagramHistory st' ++ [evicted])
           = map (fun n => inject_Z (Z.of_nat n)) (rev (seq 1 21))
        /\ Forall (fun d => (d_id evicted <= d_id d)%Q)
                  (diagramHistory twentySaved)).
Proof.
  destruct saveDiagram_keeps_bound as (H1 & H2 & H3 & H4).
  assert (Hrun : runStoreAll twentySaves initialState = Some twentySaved)
    by (vm_compute; reflexivity).
  assert (Hb : forallb (fun ee => boundedStoreEvent (snd ee)) twentySaves
               = true) by (vm_compute; reflexivity).
  assert (Ho : orderedRun twentySaves = true) by (vm_compute; reflexivity).
  assert (Ha : afterRun twentySaves (envAt 21) = true)
    by (vm_compute; reflexivity).
  assert (Hc : trim (js "graph TD; A-->B") <> [])
    by (vm_compute; discriminate).
  assert (Hlen : List.length (diagramHistory twentySaved) = 20%nat)
    by (vm_compute; reflexivity).
  destruct (H4 twentySaves twentySaved Ho Hrun) as [_ Hsave].
  destruct (Hsave (envAt 21) (js "graph TD; A-->B") (js "gameloop")
                  Ha Hc Hlen) as (E & Hin & Hmin & _).
  split; [|split; [|split]].
  - apply H1. apply (H3 twentySaves twentySaved Hb Hrun).
  - vm_compute. reflexivity.
  - vm_compute. reflexivity.
  - eexists. split; [exact Hin|]. split; [vm_compute; reflexivity|].
    split.
    + rewrite <- E. vm_compute. reflexivity.
    + apply Forall_forall. intros d Hd. apply Hmin. right. exact Hd.
Defined.

(** The claim of C4 fails in these runs from the initial state.  A
    snapshot with 21 diagrams is installed as it is by an import, and a
    saved state with 21 diagrams by the restore.  After an import of 20
    diagrams listed oldest first, saving a diagram drops the one with the
    ordinal 20 and keeps the one with the smallest ordinal, 1.  After an
    import at the clock 50 of 20 diagrams with the ordinals 1000 down to
    981, a diagram saved at the clock 100 has the smallest ordinal and
    stays, and 981 goes.  After 20 saves with the clock going back from 20
    to 1, a diagram saved at the clock 21 drops the one with the ordinal
    20 and keeps 1. *)
Lemma import_exceeds_diagram_bound :
  option_map (fun st => List.length (diagramHistory st))
    (runStoreAll
       [ (sampleEnv, Operation (ImportFile (JsonFile (Some crowdedSnapshot)))) ]
       initialState) = Some 21%nat
  /\ option_map (fun st => List.length (diagramHistory st))
       (runStoreAll [ (sampleEnv, RestoreState (Parsed crowdedStore)) ]
          initialState) = Some 21%nat
  /\ boundedStoreEvent
       (Operation (ImportFile (JsonFile (Some oldestFirstSnapshot)))) = true
  /\ option_map (fun st => map d_id (diagramHistory st))
       (runStoreAll
          [ (envAt 50,
             Operation (ImportFile (JsonFile (Some oldestFirstSnapshot))))
          ; (envAt 100,
             Operation (SaveDiagram (js "graph TD; A-->B") (js "gameloop"))) ]
          initialState)
     = Some (inject_Z 100
             :: map (fun n => inject_Z (Z.of_nat n)) (seq 1 19))
  /\ boundedStoreEvent
       (Operation (ImportFile (JsonFile (Some aheadSnapshot)))) = true
  /\ option_map (fun st => map d_id (diagramHistory st))
       (runStoreAll
          [ (envAt 50, Operation (ImportFile (JsonFile (Some aheadSnapshot))))
          ; (envAt 100,
             Operation (SaveDiagram (js "graph TD; A-->B") (js "gameloop"))) ]
          initialState)
     = Some (inject_Z 100
             :: map (fun n => inject_Z (Z.of_nat n)) (rev (seq 982 19)))
  /\ option_map (fun st => map d_id (diagramHistory st))
       (runStoreAll
          (backwardSaves
           ++ [ (envAt 21,
                 Operation (SaveDiagram (js "graph TD; A-->B")
                              (js "gameloop"))) ])
          initialState)
     = Some (inject_Z 21
             :: map (fun n => inject_Z (Z.of_nat n)) (seq 1 19)).
Proof.
  split; [|split; [|split; [|split; [|split; [|split]]]]];
    vm_compute; reflexivity.
Qed.

End Diagrams.

(** ** The registry is closed under most events *)

Section RegistryClosed.

Lemma inRegistry_spec (id : jsstring) : inRegistry id = true <-> In id registryIds.
Proof.
  unfold inRegistry. rewrite existsb_exists. split.
  - intros (x & Hx & E). apply unitsEq_spec in E. now subst.
  - intros H. exists id. split; [assumption | apply unitsEq_refl].
Qed.

Lemma findSection_inRegistry (id : jsstring) (s : sectionDef) :
  findSection id = Some s -> inRegistry id = true.
Proof.
  unfold findSection. intros H. apply find_some in H as [Hin E].
  apply unitsEq_spec in E. subst id.
  apply inRegistry_spec. unfold registryIds. now apply in_map.
Qed.

Lemma findSection_outside (id : jsstring) :
  inRegistry id = false -> findSection id = None.
Proof.
  intros H. destruct (findSection id) eqn:E; [|reflexivity].
  apply findSection_inRegistry in E. congruence.
Qed.

Lemma keysInRegistry_set (k : jsstring) (d : sectionData) (gdd : obj sectionData) :
  inRegistry k = true -> keysInRegistry gdd = true ->
  keysInRegistry (set k d gdd) = true.
Proof.
  unfold keysInRegistry. rewrite !forallb_forall. intros Hk Hg x Hx.
  apply keys_set in Hx as [->|Hx]; auto.
Qed.

Lemma generateSection_outside (e : env) (contentEl : bool)
    (complete : jsstring -> option jsstring) (sectionId : jsstring) (st : state) :
  inRegistry sectionId = false ->
  generateSection e contentEl complete sectionId st = st.
Proof.
  intros H. unfold generateSection, sectionPrompt.
  now rewrite (findSection_outside _ H).
Qed.

Lemma generateSection_keys (e : env) (contentEl : bool)
    (complete : jsstring -> option jsstring) (sectionId : jsstring) (st : state) :
  keysInRegistry (gddData st) = true ->
  keysInRegistry (gddData (generateSection e contentEl complete sectionId st)) = true.
Proof.
  intros H. destruct (inRegistry sectionId) eqn:Hreg.
  - unfold generateSection.
    destruct (sectionPrompt e st sectionId); [|assumption].
    destruct contentEl; [|assumption]. cbn [negb].
    destruct (complete j) as [response|]; [|assumption].
    destruct (nonEmpty response); [|assumption].
    cbn [gddData touch withGddData withGenerating].
    now apply keysInRegistry_set.
  - now rewrite generateSection_outside.
Qed.

(** Every section id the title table holds is a registry id. *)
Lemma knownSectionTitles_ids : map snd knownSectionTitles = registryIds.
Proof. vm_compute. reflexivity. Qed.

Lemma get_In_values {A} (k : jsstring) (v : A) (o : obj A) :
  get k o = Some v -> In v (map snd o).
Proof.
  induction o as [|[k' v'] o IH]; simpl; [discriminate|].
  destruct (unitsEq k k'); [intros H; injection H as ->; now left | auto].
Qed.

Lemma scanTitles_In (normalized id : jsstring) (known : obj jsstring) :
  scanTitles normalized known = Some id -> In id (map snd known).
Proof.
  unfold scanTitles. destruct (find _ known) as [[t i]|] eqn:E; [|discriminate].
  intros H. injection H as <-. apply find_some in E as [Hin _].
  now apply (in_map snd) in Hin.
Qed.

Lemma isGddSectionHeading_id (heading id : jsstring) (known : obj jsstring) :
  isGddSectionHeading heading known = RefId id -> In id (map snd known).
Proof.
  unfold isGddSectionHeading, lookup.
  destruct (get (normalizeSectionTitle heading) known) as [v|] eqn:G.
  - destruct (truthyRef (RefId v)).
    + intros H. injection H as <-. eapply get_In_values; eauto.
    + destruct (scanTitles _ known) eqn:S; [|discriminate].
      intros H. injection H as <-. eapply scanTitles_In; eauto.
  - destruct (existsb _ objectPrototypeNames); cbn [truthyRef].
    + discriminate.
    + destruct (scanTitles _ known) eqn:S; [|discriminate].
      intros H. injection H as <-. eapply scanTitles_In; eauto.
Qed.

Lemma boundaryOf_id (line id : jsstring) :
  boundaryOf knownSectionTitles line = RefId id -> inRegistry id = true.
Proof.
  unfold boundaryOf. destruct (isHeading2 (trim line)); [|discriminate].
  intros H. apply isGddSectionHeading_id in H.
  rewrite knownSectionTitles_ids in H. now apply inRegistry_spec.
Qed.

Lemma sectionBoundaries_lines (known : obj jsstring) (lines : list jsstring)
    (n i : nat) (r : sectionRef) :
  In (i, r) (sectionBoundaries known n lines) ->
  exists l, In l lines /\ r = boundaryOf known l /\ truthyRef r = true.
Proof.
  revert n. induction lines as [|l lines IH]; intros n; simpl; [tauto|].
  destruct (truthyRef (boundaryOf known l)) eqn:T.
  - intros [H|H].
    + injection H as _ <-. exists l. auto.
    + apply IH in H as (l' & ? & ? & ?). exists l'. auto.
  - intros H. apply IH in H as (l' & ? & ? & ?). exists l'. auto.
Qed.

Lemma collectSections_keys (e : env) (lines : list jsstring)
    (boundaries : list (nat * sectionRef)) (gdd : obj sectionData) (k : jsstring) :
  In k (keys (collectSections e lines boundaries gdd)) ->
  In k (keys gdd)
  \/ exists i r, In (i, r) boundaries /\ k = propertyKey e r.
Proof.
  revert gdd. induction boundaries as [|[i r] rest IH]; intros gdd; simpl.
  - auto.
  - intros H. apply IH in H as [H|(i' & r' & Hin & ->)].
    + destruct (nonEmpty _).
      * apply keys_set in H as [->|H]; [right; exists i, r|]; auto.
      * auto.
    + right. exists i', r'. auto.
Qed.

Lemma parseMarkdownImport_level2_keys (e : env) (text : jsstring) :
  level2Import text = true ->
  keysInRegistry (r_gdd (parseMarkdownImport e text)) = true.
Proof.
  unfold level2Import, parseMarkdownImport, importedGdd. cbn [r_gdd].
  set (lines := split 10 text).
  intros H. apply andb_true_iff in H as [Hne Hinh].
  destruct (sectionBoundaries knownSectionTitles 0 lines) as [|b bs] eqn:B;
    [discriminate|]. rewrite <- B. clear Hne.
  unfold keysInRegistry. apply forallb_forall. intros k Hk.
  apply collectSections_keys in Hk as [[]|(i & r & Hin & ->)].
  apply sectionBoundaries_lines in Hin as (l & Hl & -> & Ht).
  unfold noInheritedHeading in Hinh. rewrite forallb_forall in Hinh.
  specialize (Hinh l Hl).
  destruct (boundaryOf knownSectionTitles l) as [id|name|] eqn:Eb;
    try discriminate.
  cbn [propertyKey]. eapply boundaryOf_id; eauto.
Qed.

Lemma run_keys (e : env) (o : op) (st st' : state) :
  registryEvent o = true -> run e o st = Some st' ->
  keysInRegistry (gddData st) = true -> keysInRegistry (gddData st') = true.
Proof.
  intros Hr Hrun Hk. destruct o; simpl in Hrun.
  - injection Hrun as <-. unfold createProject.
    destruct (unitsEq _ _); [assumption | reflexivity].
  - injection Hrun as <-. now apply generateSection_keys.
  - injection Hrun as <-. destruct editor as [value|]; [|assumption].
    cbn [saveSection gddData touch withGddData].
    now apply keysInRegistry_set.
  - injection Hrun as <-. unfold saveDiagram.
    destruct (unitsEq _ _); assumption.
  - injection Hrun as <-. assumption.
  - destruct file as [[data|] | text | [markdown|] | ]; simpl in Hrun, Hr;
      try (injection Hrun as <-; assumption).
    + destruct (parseJSONImport data) as [| |d] eqn:Ep;
        try (injection Hrun as <-; assumption).
      apply parseJSONImport_accepted in Ep. subst d.
      destruct (readSnapshot data) as [result|]; [|discriminate].
      injection Hrun as <-. exact Hr.
    + injection Hrun as <-. cbn [applyImport touch gddData].
      now apply parseMarkdownImport_level2_keys.
    + injection Hrun as <-. cbn [applyImport touch gddData].
      now apply parseMarkdownImport_level2_keys.
Qed.

Lemma runAll_keys (trace : list (env * op)) (st st' : state) :
  forallb (fun eo => registryEvent (snd eo)) trace = true ->
  runAll trace st = Some st' ->
  keysInRegistry (gddData st) = true -> keysInRegistry (gddData st') = true.
Proof.
  revert st. induction trace as [|[e o] trace IH]; intros st Hb Hrun Hk.
  - simpl in Hrun. now injection Hrun as <-.
  - simpl in Hb, Hrun. apply andb_true_iff in Hb as [Ho Hb].
    destruct (run e o st) as [st1|] eqn:E; [|discriminate].
    eapply IH; eauto using run_keys.
Qed.

(** C3, as the code has it: a generation request for an id outside the
    registry changes nothing, and so does a manual save without an editor
    element; a markdown import whose pass 1 finds a registry title (and no
    heading matched through an inherited member) stores registry ids only;
    and the keys of the Section Content map stay inside the registry along
    every run of events from the initial state in which edits are saved for
    rendered sections, markdown imports go through pass 1 and snapshots
    carry registry ids. *)
Theorem registry_closed_under_events :
  (forall e contentEl complete sectionId st,
     inRegistry sectionId = false ->
     generateSection e contentEl complete sectionId st = st)
  /\ (forall e sectionId st, saveSection e None sectionId st = st)
  /\ (forall e text,
        level2Import text = true ->
        keysInRegistry (r_gdd (parseMarkdownImport e text)) = true)
  /\ (forall trace st,
        forallb (fun eo => registryEvent (snd eo)) trace = true ->
        runAll trace initialState = Some st ->
        keysInRegistry (gddData st) = true).
Proof.
  repeat split.
  - intros. now apply generateSection_outside.
  - intros. now apply parseMarkdownImport_level2_keys.
  - intros trace st Hb Hrun. eapply runAll_keys; eauto.
Qed.

Lemma registry_closed_under_events_witness :
  exists st, runAll registryTrace initialState = Some st
             /\ keysInRegistry (gddData st) = true.
Proof.
  destruct registry_closed_under_events as (_ & _ & _ & H).
  assert (E : exists st, runAll registryTrace initialState = Some st)
    by (vm_compute; eexists; reflexivity).
  destruct E as [st E]. exists st. split; [exact E|].
  apply (H registryTrace st); [vm_compute; reflexivity | exact E].
Defined.

(** The claim of C3 fails on a markdown file without level-2 headings: the
    fallback stores its level-1 heading under a synthesized id. *)
Lemma fallback_import_leaves_registry :
  exists st,
    runAll [ (sampleEnv, ImportFile (MarkdownFile levelOneNotes)) ]
           initialState = Some st
    /\ keys (gddData st) = [js "weapons"]
    /\ keysInRegistry (gddData st) = false.
Proof.
  eexists. split; [|split]; vm_compute; reflexivity.
Qed.

End RegistryClosed.

(** ** Lines, joins and trims *)

Section LineFacts.

Lemma split_nonempty (sep : Z) (s : jsstring) : split sep s <> [].
Proof.
  induction s as [|c s IH]; simpl; [discriminate|].
  destruct (c =? sep); [discriminate|].
  destruct (split sep s); [contradiction | discriminate].
Qed.

Lemma split_app_sep (sep : Z) (a b : jsstring) :
  split sep (a ++ sep :: b) = split sep a ++ split sep b.
Proof.
  induction a as [|c a IH]; simpl.
  - now rewrite Z.eqb_refl.
  - destruct (c =? sep); [now rewrite IH|].
    rewrite IH. pose proof (split_nonempty sep a) as Hne.
    destruct (split sep a); [contradiction | reflexivity].
Qed.

Lemma split_no_sep (sep : Z) (s : jsstring) :
  ~ In sep s -> split sep s = [s].
Proof.
  induction s as [|c s IH]; simpl; [reflexivity|].
  intros H. destruct (c =? sep) eqn:E.
  - apply Z.eqb_eq in E. subst. tauto.
  - rewrite IH by tauto. reflexivity.
Qed.

Lemma join_cons (sep a : jsstring) (l : list jsstring) :
  l <> [] -> join sep (a :: l) = a ++ sep ++ join sep l.
Proof. destruct l; [contradiction | reflexivity]. Qed.

Lemma join_app (sep : jsstring) (l l' : list jsstring) :
  l <> [] -> l' <> [] ->
  join sep (l ++ l') = join sep l ++ sep ++ join sep l'.
Proof.
  intros Hl Hl'. induction l as [|a l IH]; [contradiction|].
  destruct l as [|b l].
  - simpl app. now rewrite join_cons.
  - change ((a :: b :: l) ++ l') with (a :: ((b :: l) ++ l')).
    rewrite join_cons by discriminate.
    rewrite IH by discriminate.
    rewrite (join_cons sep a (b :: l)) by discriminate.
    now rewrite <- !app_assoc.
Qed.

Lemma join_split (sep : Z) (s : jsstring) : join [sep] (split sep s) = s.
Proof.
  induction s as [|c s IH]; simpl; [reflexivity|].
  destruct (c =? sep) eqn:E.
  - apply Z.eqb_eq in E. subst c.
    rewrite join_cons by apply split_nonempty. now rewrite IH.
  - pose proof (split_nonempty sep s) as Hne.
    destruct (split sep s) as [|l ls]; [contradiction|].
    destruct ls as [|l' ls]; simpl in *; now rewrite <- IH.
Qed.

Lemma forallb_rev {A} (f : A -> bool) (l : list A) :
  forallb f (rev l) = forallb f l.
Proof.
  induction l as [|a l IH]; simpl; [reflexivity|].
  rewrite forallb_app, IH. simpl. rewrite andb_true_r. apply andb_comm.
Qed.

Lemma trimStart_ws_prefix (w s : jsstring) :
  forallb isWhiteSpace w = true -> trimStart (w ++ s) = trimStart s.
Proof.
  induction w as [|c w IH]; simpl; [reflexivity|].
  intros H. apply andb_true_iff in H as [Hc Hw]. now rewrite Hc, IH.
Qed.

Lemma trimStart_app_ws (s w : jsstring) :
  forallb isWhiteSpace w = true ->
  trimStart (s ++ w) = match trimStart s with
                       | [] => []
                       | t => t ++ w
                       end.
Proof.
  intros Hw. induction s as [|c s IH]; simpl.
  - rewrite <- (app_nil_r w). now rewrite trimStart_ws_prefix.
  - destruct (isWhiteSpace c); [exact IH | reflexivity].
Qed.

Lemma trimEnd_app_ws (s w : jsstring) :
  forallb isWhiteSpace w = true -> trimEnd (s ++ w) = trimEnd s.
Proof.
  intros Hw. unfold trimEnd. rewrite rev_app_distr.
  rewrite trimStart_ws_prefix; [reflexivity | now rewrite forallb_rev].
Qed.

Lemma trim_padded (w1 s w2 : jsstring) :
  forallb isWhiteSpace w1 = true -> forallb isWhiteSpace w2 = true ->
  trim (w1 ++ s ++ w2) = trim s.
Proof.
  intros H1 H2. unfold trim.
  rewrite trimStart_ws_prefix by assumption.
  rewrite trimStart_app_ws by assumption.
  destruct (trimStart s) as [|c t]; [reflexivity|].
  now apply trimEnd_app_ws.
Qed.

End LineFacts.

(** ** Export followed by import *)

Section RoundTrip.

Variable e : env.

Lemma sectionBoundaries_skip (known : obj jsstring) (n : nat)
    (l l' : list jsstring) :
  forallb (fun x => negb (truthyRef (boundaryOf known x))) l = true ->
  sectionBoundaries known n (l ++ l')
  = sectionBoundaries known (n + List.length l) l'.
Proof.
  revert n. induction l as [|x l IH]; intros n H; simpl.
  - now rewrite Nat.add_0_r.
  - simpl in H. apply andb_true_iff in H as [Hx Hl].
    apply negb_true_iff in Hx. rewrite Hx, IH by assumption.
    f_equal. lia.
Qed.

Lemma slice_middle {A} (pre body post : list A) :
  slice (List.length pre) (List.length pre + List.length body)
        (pre ++ body ++ post) = body.
Proof.
  unfold slice. rewrite skipn_app, skipn_all, Nat.sub_diag. simpl.
  replace (List.length pre + List.length body - List.length pre)%nat
    with (List.length body) by lia.
  rewrite firstn_app, firstn_all, Nat.sub_diag. simpl. apply app_nil_r.
Qed.

(** The text between a heading and the next comes back as the content. *)
Lemma body_text (c : jsstring) (tail : list jsstring) :
  unitsEq (trim c) c = true ->
  tail = [[]] \/ tail = [[]; []] ->
  trim (join nl ([] :: split 10 c ++ tail)) = c.
Proof.
  intros Hc Htail. apply unitsEq_spec in Hc.
  assert (Ht : tail <> []) by (destruct Htail; subst; discriminate).
  rewrite join_cons
    by (intros H; apply app_eq_nil in H as [H _]; now apply split_nonempty in H).
  rewrite join_app by (try apply split_nonempty; assumption).
  change (join nl (split 10 c)) with (join [10] (split 10 c)).
  rewrite join_split. transitivity (trim c); [|exact Hc].
  apply (trim_padded nl c (nl ++ join nl tail)); [reflexivity|].
  destruct Htail; subst; reflexivity.
Qed.

Lemma boundaryOf_empty_line : boundaryOf knownSectionTitles [] = RefNull.
Proof. vm_compute. reflexivity. Qed.

Lemma exportLines_cons (s : sectionDef) (c : jsstring)
    (rest : list (sectionDef * jsstring)) :
  exportLines ((s, c) :: rest)
  = (js "## " ++ s_title s) :: ([] :: split 10 c ++ [[]]) ++ exportLines rest.
Proof. simpl. now rewrite <- app_assoc. Qed.

(** Where the text of a section ends: at the next heading, or at the end
    of the file after one more empty line. *)
Lemma export_section_end (n : nat) (rest : list (sectionDef * jsstring)) :
  Forall readsBack rest ->
  (rest = [] /\ sectionBoundaries knownSectionTitles n (exportLines rest) = [])
  \/ (rest <> [] /\ exists r B,
        sectionBoundaries knownSectionTitles n (exportLines rest) = (n, r) :: B).
Proof.
  intros H. destruct H as [|[s c] rest (Hb & Hid & _) _].
  - left. split; [reflexivity|]. cbn [exportLines sectionBoundaries].
    now rewrite boundaryOf_empty_line.
  - right. split; [discriminate|]. cbn [exportLines sectionBoundaries].
    cbn [fst] in Hb, Hid. rewrite Hb. cbn [truthyRef]. rewrite Hid. eauto.
Qed.

Lemma collectSections_export (sections : list (sectionDef * jsstring)) :
  Forall readsBack sections ->
  forall (pre : list jsstring) (g : obj sectionData),
    collectSections e (pre ++ exportLines sections)
      (sectionBoundaries knownSectionTitles (List.length pre)
         (exportLines sections)) g
    = storeAll e g sections.
Proof.
  induction 1 as [|[s c] rest (Hb & Hid & Hc) Hrest IH]; intros pre g.
  - cbn [exportLines sectionBoundaries]. now rewrite boundaryOf_empty_line.
  - cbn [fst snd] in Hb, Hid, Hc. unfold survivesRoundTrip in Hc.
    apply andb_true_iff in Hc as [Hc Hlines].
    apply andb_true_iff in Hc as [Hne Htrim].
    rewrite exportLines_cons.
    set (heading := js "## " ++ s_title s).
    set (body := [] :: split 10 c ++ [[]]).
    assert (Hbody : noBoundary body = true).
    { unfold body, noBoundary. cbn [forallb].
      rewrite boundaryOf_empty_line. cbn [truthyRef negb andb].
      rewrite forallb_app. unfold noBoundary in Hlines. rewrite Hlines.
      cbn [forallb]. now rewrite boundaryOf_empty_line. }
    cbn [sectionBoundaries]. fold heading in Hb. rewrite Hb.
    cbn [truthyRef]. rewrite Hid.
    unfold noBoundary in Hbody. rewrite sectionBoundaries_skip by exact Hbody.
    set (pre' := pre ++ [heading]).
    assert (Hpre' : List.length pre' = S (List.length pre))
      by (unfold pre'; rewrite length_app; simpl; lia).
    assert (Hl : pre ++ heading :: body ++ exportLines rest
                 = pre' ++ body ++ exportLines rest)
      by (unfold pre'; now rewrite <- app_assoc).
    rewrite Hl, <- Hpre'.
    cbn [collectSections propertyKey]. rewrite <- Hpre'.
    match goal with
    | |- context [nonEmpty (trim ?x)] => assert (Htext : trim x = c)
    end.
    { match goal with
      | |- context [sectionBoundaries knownSectionTitles ?n (exportLines rest)] =>
        destruct (export_section_end n rest Hrest)
          as [[Hr Hb0] | [_ (r & B & Hb0)]]; rewrite Hb0
      end.
      - subst rest. cbn [exportLines].
        replace (List.length (pre' ++ body ++ [[]]))
          with (List.length pre' + List.length (body ++ [[]]))%nat
          by (rewrite !length_app; lia).
        rewrite <- (app_nil_r (body ++ [[]])) at 2.
        rewrite slice_middle. unfold body.
        change (([] :: split 10 c ++ [[]]) ++ [[]])
          with ([] :: ((split 10 c ++ [[]]) ++ [[]])).
        rewrite <- app_assoc. apply body_text; [assumption | now right].
      - rewrite slice_middle. unfold body.
        apply body_text; [assumption | now left]. }
    rewrite Htext, Hne.
    rewrite app_assoc.
    match goal with
    | |- context [sectionBoundaries knownSectionTitles ?n (exportLines rest)] =>
      replace n with (List.length (pre' ++ body))
        by (rewrite length_app; unfold jsstring; lia)
    end.
    rewrite IH. reflexivity.
Qed.

End RoundTrip.

Section RoundTripExport.

Variables (e e' : env) (p : project) (gdd : obj sectionData).

Lemma not_In_sep (sep : Z) (s : jsstring) :
  forallb (fun c => negb (c =? sep)) s = true -> ~ In sep s.
Proof.
  rewrite forallb_forall. intros H Hin. specialize (H _ Hin).
  now rewrite Z.eqb_refl in H.
Qed.

(** The registry headings are read back as their sections. *)
Lemma registry_headings :
  Forall (fun s => boundaryOf knownSectionTitles (js "## " ++ s_title s)
                     = RefId (s_id s)
                   /\ nonEmpty (s_id s) = true
                   /\ ~ In 10 (js "## " ++ s_title s)) GDD_SECTIONS.
Proof.
  unfold GDD_SECTIONS.
  repeat constructor; cbn [s_id s_title];
    try (vm_compute; reflexivity);
    apply not_In_sep; vm_compute; reflexivity.
Qed.

Lemma exportHeader_split :
  exportHeader e p = exportHeaderLines e p ++ [10].
Proof.
  unfold exportHeader, exportHeaderLines. rewrite <- !app_assoc. reflexivity.
Qed.

Hypothesis ready : roundTripReady e p gdd = true.

Lemma ready_header : noBoundary (split 10 (exportHeaderLines e p)) = true.
Proof.
  unfold roundTripReady in ready.
  apply andb_true_iff in ready as [H _]. apply andb_true_iff in H as [H _].
  rewrite exportHeader_split, split_app_sep in H.
  unfold noBoundary in *. rewrite forallb_app in H.
  now apply andb_true_iff in H as [H _].
Qed.

Lemma ready_section (s : sectionDef) :
  In s GDD_SECTIONS ->
  contentAt (s_id s) gdd = Some (storedContent gdd s)
  /\ survivesRoundTrip (storedContent gdd s) = true.
Proof.
  intros Hin. unfold roundTripReady in ready.
  apply andb_true_iff in ready as [H _]. apply andb_true_iff in H as [_ H].
  rewrite forallb_forall in H. specialize (H s Hin).
  unfold storedContent. destruct (contentAt (s_id s) gdd); [auto | discriminate].
Qed.

Lemma ready_keys (id : jsstring) :
  inRegistry id = false -> contentAt id gdd = None.
Proof.
  intros Hout. unfold roundTripReady in ready.
  apply andb_true_iff in ready as [_ H]. unfold keysInRegistry in H.
  rewrite forallb_forall in H. unfold contentAt.
  destruct (get id gdd) as [d|] eqn:G; [|reflexivity].
  assert (Hin : In id (keys gdd)).
  { clear -G. unfold keys. induction gdd as [|[k v] g IH]; simpl in *;
      [discriminate|].
    destruct (unitsEq id k) eqn:E; [apply unitsEq_spec in E; auto | auto]. }
  apply H in Hin. congruence.
Qed.

Lemma filledSections_readBack : Forall readsBack (filledSections gdd).
Proof.
  unfold filledSections. apply Forall_map. apply Forall_forall.
  intros s Hin. pose proof registry_headings as R.
  rewrite Forall_forall in R. destruct (R s Hin) as (Hb & Hid & _).
  destruct (ready_section s Hin) as [_ Hc]. repeat split; assumption.
Qed.

(** The export is its preamble followed by the text of each section. *)
Lemma export_text (sections : list sectionDef) (md : jsstring) :
  (forall s, In s sections -> In s GDD_SECTIONS) ->
  fold_left (exportSection gdd) sections md
  = md ++ flat_map (fun s => sectionText (s_title s) (storedContent gdd s))
                   sections.
Proof.
  revert md. induction sections as [|s sections IH]; intros md Hsub.
  - simpl. now rewrite app_nil_r.
  - cbn [fold_left flat_map]. rewrite IH by (intros; apply Hsub; now right).
    destruct (ready_section s (Hsub s (or_introl eq_refl))) as [Hc Hs].
    unfold exportSection, sectionText. unfold contentAt in Hc.
    destruct (get (s_id s) gdd) as [[c' u]|]; [|discriminate].
    cbn [content] in Hc. subst c'.
    unfold survivesRoundTrip in Hs. apply andb_true_iff in Hs as [Hs _].
    apply andb_true_iff in Hs as [Hs _]. rewrite Hs.
    now rewrite <- !app_assoc.
Qed.

(** The lines of the section texts. *)
Lemma split_section_texts (sections : list sectionDef) :
  (forall s, In s sections -> In s GDD_SECTIONS) ->
  split 10 (flat_map (fun s => sectionText (s_title s) (storedContent gdd s))
                     sections)
  = exportLines (map (fun s => (s, storedContent gdd s)) sections).
Proof.
  induction sections as [|s sections IH]; intros Hsub; [reflexivity|].
  cbn [flat_map map exportLines]. unfold sectionText.
  pose proof registry_headings as R. rewrite Forall_forall in R.
  destruct (R s (Hsub s (or_introl eq_refl))) as (_ & _ & Hnl).
  set (rest := flat_map _ sections) in *.
  replace ((js "## " ++ s_title s ++ nl ++ nl ++ storedContent gdd s ++ nl ++ nl)
           ++ rest)
    with ((js "## " ++ s_title s) ++ 10 :: ([] ++ 10 :: (storedContent gdd s
            ++ 10 :: ([] ++ 10 :: rest))))
    by (unfold nl; rewrite <- !app_assoc; reflexivity).
  rewrite !split_app_sep, (split_no_sep _ _ Hnl).
  rewrite IH by (intros; apply Hsub; now right).
  reflexivity.
Qed.

Lemma export_lines :
  split 10 (generateMarkdownExport e p gdd)
  = split 10 (exportHeaderLines e p) ++ exportLines (filledSections gdd).
Proof.
  unfold generateMarkdownExport. rewrite export_text by auto.
  rewrite exportHeader_split, <- app_assoc. cbn [app].
  rewrite split_app_sep, split_section_texts by auto. reflexivity.
Qed.

Lemma imported_export :
  r_gdd (parseMarkdownImport e' (generateMarkdownExport e p gdd))
  = storeAll e' [] (filledSections gdd).
Proof.
  unfold parseMarkdownImport, importedGdd. cbn [r_gdd].
  rewrite export_lines.
  pose proof ready_header as Hh. unfold noBoundary in Hh.
  rewrite sectionBoundaries_skip by exact Hh. cbn [Nat.add].
  rewrite collectSections_export by apply filledSections_readBack.
  destruct (sectionBoundaries knownSectionTitles
              (List.length (split 10 (exportHeaderLines e p)))
              (exportLines (filledSections gdd))) eqn:B; [|reflexivity].
  exfalso. revert B. unfold filledSections, GDD_SECTIONS.
  cbn [map exportLines sectionBoundaries s_title].
  pose proof registry_headings as R. inversion R as [|? ? (Hb & Hid & _) _].
  cbn [s_title s_id] in Hb, Hid. rewrite Hb. cbn [truthyRef]. rewrite Hid.
  discriminate.
Qed.

End RoundTripExport.

Section RoundTripContent.

Variable e : env.

Lemma contentAt_set_same (id : jsstring) (d : sectionData) (g : obj sectionData) :
  contentAt id (set id d g) = content d.
Proof. unfold contentAt. now rewrite get_set_same. Qed.

Lemma contentAt_set_other (id k : jsstring) (d : sectionData) (g : obj sectionData) :
  id <> k -> contentAt id (set k d g) = contentAt id g.
Proof. intros H. unfold contentAt. now rewrite get_set_other. Qed.

(** A store that no section of the list addresses is left as it was. *)
Lemma contentAt_storeAll_other (id : jsstring)
    (sections : list (sectionDef * jsstring)) (g : obj sectionData) :
  (forall sc, In sc sections -> s_id (fst sc) <> id) ->
  contentAt id (storeAll e g sections) = contentAt id g.
Proof.
  revert g. induction sections as [|sc sections IH]; intros g H; [reflexivity|].
  unfold storeAll in *. cbn [fold_left]. rewrite IH by (intros; apply H; now right).
  apply contentAt_set_other. intros E. apply (H sc); [now left | auto].
Qed.

(** A section that the list addresses holds the content stored for it. *)
Lemma contentAt_storeAll_hit (id c : jsstring)
    (sections : list (sectionDef * jsstring)) (g : obj sectionData) :
  (forall sc, In sc sections -> s_id (fst sc) = id -> snd sc = c) ->
  (exists sc, In sc sections /\ s_id (fst sc) = id) ->
  contentAt id (storeAll e g sections) = Some c.
Proof.
  revert g. induction sections as [|sc sections IH]; intros g Hc [sc0 [Hin Hid]].
  - destruct Hin.
  - unfold storeAll in *. cbn [fold_left].
    destruct (existsb (fun x => unitsEq (s_id (fst x)) id) sections) eqn:E.
    + apply IH; [intros; apply Hc; auto; now right|].
      apply existsb_exists in E as (x & Hx & Ex).
      apply unitsEq_spec in Ex. eauto.
    + assert (Hnone : forall x, In x sections -> s_id (fst x) <> id).
      { intros x Hx Ex. rewrite <- not_true_iff_false in E. apply E.
        apply existsb_exists. exists x. split; [assumption|].
        now apply unitsEq_spec. }
      pose proof (contentAt_storeAll_other id sections) as Ho.
      unfold storeAll in Ho. rewrite Ho by assumption.
      destruct Hin as [->|Hin]; [|now apply Hnone in Hin].
      rewrite <- Hid, contentAt_set_same. cbn [importedEntry content].
      f_equal. apply Hc; [now left | assumption].
Qed.

End RoundTripContent.

(** C1, as the code has it: when every registry section holds a content
    that is not empty, has no white space around it and has no line that
    opens a section, the store has no other key and the preamble has no
    line that opens a section, the import of the markdown export maps
    every section id to the content it had. *)
Theorem export_import_round_trip (e e' : env) (p : project)
    (gdd : obj sectionData) :
  roundTripReady e p gdd = true ->
  forall id,
    contentAt id (r_gdd (parseMarkdownImport e' (generateMarkdownExport e p gdd)))
    = contentAt id gdd.
Proof.
  intros ready id. rewrite (imported_export e e' p gdd ready).
  destruct (inRegistry id) eqn:Hreg.
  - apply inRegistry_spec in Hreg. unfold registryIds in Hreg.
    apply in_map_iff in Hreg as (s & <- & Hs).
    destruct (ready_section e p gdd ready s Hs) as [Hc _]. rewrite Hc.
    apply contentAt_storeAll_hit.
    + unfold filledSections. intros sc Hin Hid.
      apply in_map_iff in Hin as (s' & <- & Hs'). cbn [fst snd] in *.
      destruct (ready_section e p gdd ready s' Hs') as [Hc' _].
      rewrite Hid, Hc in Hc'. now injection Hc'.
    + exists (s, storedContent gdd s). split; [|reflexivity].
      unfold filledSections. apply in_map_iff. exists s. auto.
  - rewrite (ready_keys e p gdd ready id Hreg).
    rewrite contentAt_storeAll_other; [reflexivity|].
    unfold filledSections. intros sc Hin Hid.
    apply in_map_iff in Hin as (s & <- & Hs). cbn [fst] in Hid.
    assert (inRegistry id = true); [|congruence].
    apply inRegistry_spec. subst id. unfold registryIds. now apply in_map.
Qed.

Lemma export_import_round_trip_witness :
  contentAt (js "overview")
    (r_gdd (parseMarkdownImport sampleEnv
              (generateMarkdownExport sampleEnv nebulaProject tidyGdd)))
  = contentAt (js "overview") tidyGdd.
Proof.
  apply export_import_round_trip. vm_compute. reflexivity.
Defined.

(** The claim of C1 fails on a project whose overview starts with a
    space: the import hands the content back without it. *)
Lemma padded_content_not_restored :
  contentAt (js "overview")
    (r_gdd (parseMarkdownImport sampleEnv
              (generateMarkdownExport sampleEnv nebulaProject paddedGdd)))
  <> contentAt (js "overview") paddedGdd.
Proof. vm_compute. discriminate. Qed.

(** The same fails on a project with unfilled sections: the import stores
    the placeholder sentence as their content. *)
Lemma placeholder_imported_as_content :
  let st := createProject sampleEnv nebulaForm initialState in
  contentAt (js "gameplay") (gddData st) = None
  /\ contentAt (js "gameplay")
       (r_gdd (parseMarkdownImport sampleEnv
                 (generateMarkdownExport sampleEnv nebulaProject (gddData st))))
     = Some placeholder.
Proof. vm_compute. split; reflexivity. Qed.

(** ** Which level-2 headings open a section *)

Section Headings.

Lemma knownSectionTitles_keys : keys knownSectionTitles = normalizedTitles.
Proof. vm_compute. reflexivity. Qed.

Lemma knownSectionTitles_truthy :
  forallb (fun kv => nonEmpty (snd kv)) knownSectionTitles = true.
Proof. vm_compute. reflexivity. Qed.

Lemma get_In_keys {A} (k : jsstring) (o : obj A) :
  In k (keys o) <-> get k o <> None.
Proof.
  unfold keys. induction o as [|[k' v] o IH]; simpl.
  - split; [tauto | congruence].
  - destruct (unitsEq k k') eqn:E.
    + apply unitsEq_spec in E. subst. split; [discriminate | auto].
    + apply unitsEq_false in E. rewrite <- IH. split; [|tauto].
      intros [H|H]; [congruence | assumption].
Qed.

Lemma get_In_entry {A} (k : jsstring) (v : A) (o : obj A) :
  get k o = Some v -> In (k, v) o.
Proof.
  induction o as [|[k' v'] o IH]; simpl; [discriminate|].
  destruct (unitsEq k k') eqn:E; [|auto].
  apply unitsEq_spec in E. subst. intros H. injection H as ->. now left.
Qed.

Lemma scanTitles_none (normalized : jsstring) (known : obj jsstring) :
  get normalized known = None -> scanTitles normalized known = None.
Proof.
  unfold scanTitles. induction known as [|[t i] known IH]; simpl; [reflexivity|].
  destruct (unitsEq normalized t); [discriminate | exact IH].
Qed.

(** What the code does with a level-2 heading: it opens a section exactly
    when its normalization is a normalized registry title or the name of a
    member that the title table inherits from [Object.prototype]. *)
Lemma heading2_opens_section (line : jsstring) :
  isHeading2 (trim line) = true ->
  (truthyRef (boundaryOf knownSectionTitles line) = true <->
   In (normalizedHeading line) normalizedTitles
   \/ In (normalizedHeading line) objectPrototypeNames).
Proof.
  intros H2. unfold boundaryOf. rewrite H2.
  unfold isGddSectionHeading, lookup. fold (normalizedHeading line).
  rewrite <- knownSectionTitles_keys, get_In_keys.
  destruct (get (normalizedHeading line) knownSectionTitles) as [id|] eqn:G.
  - assert (Hid : nonEmpty id = true).
    { pose proof knownSectionTitles_truthy as T. rewrite forallb_forall in T.
      apply (T (normalizedHeading line, id)). now apply get_In_entry. }
    cbn [truthyRef]. rewrite Hid. cbn [truthyRef]. rewrite Hid.
    split; [left; discriminate | reflexivity].
  - rewrite (scanTitles_none _ _ G).
    destruct (existsb (unitsEq (normalizedHeading line)) objectPrototypeNames)
      eqn:E; cbn [truthyRef].
    + split; [|reflexivity]. intros _. right.
      apply existsb_exists in E as (x & Hx & Ex).
      apply unitsEq_spec in Ex. now subst.
    + split; [discriminate|]. intros [F|F]; [congruence|].
      rewrite <- not_true_iff_false in E. exfalso. apply E.
      apply existsb_exists. exists (normalizedHeading line).
      split; [assumption | apply unitsEq_refl].
Qed.

(** The emoji example of the specification: the heading is matched after
    normalization and its text is stored under [gameplay]. *)
Lemma emoji_heading_matches_gameplay :
  normalizeSectionTitle (js "Gameplay Mechanics 🎮") = js "gameplay mechanics"
  /\ boundaryOf knownSectionTitles (js "## Gameplay Mechanics 🎮")
     = RefId (js "gameplay")
  /\ r_gdd (parseMarkdownImport sampleEnv emojiNotes)
     = [ (js "gameplay", importedEntry sampleEnv (js "Jump and run.")) ].
Proof. split; [|split]; vm_compute; reflexivity. Qed.

(** C6 fails on the code for the heading "Constructor": its normalization
    is no normalized registry title, yet the lookup in the title table
    finds the inherited member [constructor], the line opens a section,
    the overview loses the text below it, and that text is stored under
    the printed form of the function. *)
Theorem constructor_heading_opens_section :
  existsb (unitsEq (normalizeSectionTitle (js "Constructor"))) normalizedTitles
    = false
  /\ boundaryOf knownSectionTitles (js "## Constructor")
     = RefInherited (js "constructor")
  /\ sectionBoundaries knownSectionTitles 0 (split 10 builderNotes)
     = [ (0%nat, RefId (js "overview"))
       ; (2%nat, RefInherited (js "constructor")) ]
  /\ r_gdd (parseMarkdownImport sampleEnv builderNotes)
     = [ (js "overview", importedEntry sampleEnv (js "The pitch."))
       ; (js "function Object() { [native code] }",
          importedEntry sampleEnv (js "Builds levels.")) ].
Proof. split; [|split; [|split]]; vm_compute; reflexivity. Qed.

End Headings.

(** ** Relevance detector *)

Section Relevance.

Lemma startsWith_units (k s : jsstring) :
  startsWith k s = true -> forall c, In c k -> In c s.
Proof.
  revert s. induction k as [|a k IH]; intros s H c Hin; [destruct Hin|].
  destruct s as [|b s]; [discriminate|]. simpl in H.
  apply andb_true_iff in H as [E H]. apply Z.eqb_eq in E. subst b.
  destruct Hin as [<-|Hin]; [now left | right; eauto].
Qed.

Lemma includes_units (s k : jsstring) :
  includes s k = true -> forall c, In c k -> In c s.
Proof.
  induction s as [|b s IH]; simpl; intros H c Hin.
  - rewrite orb_false_r in H. exact (startsWith_units k [] H c Hin).
  - apply orb_true_iff in H as [H|H].
    + exact (startsWith_units k (b :: s) H c Hin).
    + right. eauto.
Qed.

Lemma lowerUnit_lower (u c : Z) :
  In c (lowerUnit u) -> isUpperCaseUnit c = false.
Proof.
  unfold lowerUnit, isUpperCaseUnit.
  repeat match goal with
         | |- context [if ?b then _ else _] => destruct b eqn:?
         end;
    simpl; intros H;
    repeat match goal with
           | H : _ \/ _ |- _ => destruct H
           | H : False |- _ => destruct H
           end; subst;
    repeat match goal with
           | H : (_ && _) = true |- _ => apply andb_true_iff in H as [? ?]
           | H : (_ && _) = false |- _ => apply andb_false_iff in H
           | H : negb _ = true |- _ => apply negb_true_iff in H
           | H : negb _ = false |- _ => apply negb_false_iff in H
           | H : (_ <=? _) = true |- _ => apply Z.leb_le in H
           | H : (_ <=? _) = false |- _ => apply Z.leb_gt in H
           | H : (_ =? _) = true |- _ => apply Z.eqb_eq in H
           | H : (_ =? _) = false |- _ => apply Z.eqb_neq in H
           end;
    rewrite ?orb_false_iff, ?andb_false_iff, ?negb_false_iff,
            ?Z.leb_gt, ?Z.eqb_eq;
    intuition lia.
Qed.

Lemma toLowerCase_lower (s : jsstring) (c : Z) :
  In c (toLowerCase s) -> isUpperCaseUnit c = false.
Proof.
  unfold toLowerCase. rewrite in_flat_map. intros (u & _ & H).
  eapply lowerUnit_lower; eauto.
Qed.

(** A keyword written with an upper-case letter is found in no message. *)
Lemma upper_case_keyword_never_found (message kw : jsstring) :
  existsb isUpperCaseUnit kw = true ->
  includes (toLowerCase message) kw = false.
Proof.
  intros H. apply existsb_exists in H as (c & Hc & Hu).
  destruct (includes (toLowerCase message) kw) eqn:E; [|reflexivity].
  pose proof (includes_units _ _ E c Hc) as Hin.
  apply toLowerCase_lower in Hin. congruence.
Qed.

(** Every keyword of the source that is not plain ASCII holds such a
    letter. *)
Lemma garbled_keywords_upper_case :
  forallb (fun kw => isAscii kw || existsb isUpperCaseUnit kw) allKeywords = true.
Proof. vm_compute. reflexivity. Qed.

End Relevance.

Section Ranking.

Lemma distinct_NoDup (l : list jsstring) : distinct l = true -> NoDup l.
Proof.
  induction l as [|x l IH]; simpl; intros H; constructor.
  - apply andb_true_iff in H as [H _]. apply negb_true_iff in H.
    intros Hin. rewrite <- not_true_iff_false in H. apply H.
    apply existsb_exists. exists x. split; [assumption | apply unitsEq_refl].
  - apply andb_true_iff in H as [_ H]. auto.
Qed.

Lemma sectionKeywords_keys : keys sectionKeywords = registryIds.
Proof. vm_compute. reflexivity. Qed.

Lemma registryIds_NoDup : NoDup registryIds.
Proof. apply distinct_NoDup. vm_compute. reflexivity. Qed.

Lemma set_fresh {A} (k : jsstring) (v : A) (o : obj A) :
  ~ In k (keys o) -> set k v o = o ++ [(k, v)].
Proof.
  unfold keys. induction o as [|[k' v'] o IH]; simpl; intros H; [reflexivity|].
  destruct (unitsEq k k') eqn:E.
  - apply unitsEq_spec in E. subst. tauto.
  - rewrite IH by tauto. reflexivity.
Qed.

Lemma get_of_entry {A} (k : jsstring) (v : A) (o : obj A) :
  NoDup (keys o) -> In (k, v) o -> get k o = Some v.
Proof.
  unfold keys. induction o as [|[k' v'] o IH]; simpl; intros Hnd Hin;
    [destruct Hin|].
  inversion Hnd as [|? ? Hk Hnd']; subst.
  destruct Hin as [Hin|Hin].
  - injection Hin as -> ->. now rewrite unitsEq_refl.
  - destruct (unitsEq k k') eqn:E; [|auto].
    apply unitsEq_spec in E. subst k'. exfalso. apply Hk.
    now apply (in_map fst) in Hin.
Qed.

(** The inner loop counts the keywords found in the message. *)
Lemma keywordScore_count (lower : jsstring) (keywords : list jsstring) :
  keywordScore lower keywords = List.length (filter (includes lower) keywords).
Proof.
  unfold keywordScore.
  assert (G : forall n, fold_left (fun score kw =>
                          if includes lower kw then S score else score)
                          keywords n
                        = (n + List.length (filter (includes lower) keywords))%nat).
  { induction keywords as [|kw keywords IH]; intros n; simpl; [lia|].
    rewrite IH. destruct (includes lower kw); simpl; lia. }
  apply G.
Qed.

(** The outer loop lists the positive scores in the order of the map. *)
Lemma sectionScores_positive (lower : jsstring) :
  sectionScores lower = positiveScores lower.
Proof.
  unfold sectionScores, positiveScores.
  assert (G : forall (table : obj (list jsstring)) (acc : obj nat),
            NoDup (keys table) ->
            (forall k, In k (keys table) -> ~ In k (keys acc)) ->
            fold_left (fun scores (kv : jsstring * list jsstring) =>
                         let (sectionId, keywords) := kv in
                         let score := keywordScore lower keywords in
                         if (0 <? score)%nat then set sectionId score scores
                         else scores) table acc
            = acc ++ filter (fun kv => (0 <? snd kv)%nat)
                       (map (fun kv : jsstring * list jsstring =>
                               (fst kv, keywordScore lower (snd kv))) table)).
  { induction table as [|[k kws] table IH]; intros acc Hnd Hfresh.
    - simpl. now rewrite app_nil_r.
    - cbn [fold_left map filter fst snd]. unfold keys in *. cbn [map fst] in *.
      inversion Hnd as [|? ? Hk Hnd']; subst.
      destruct (0 <? keywordScore lower kws)%nat eqn:E.
      + rewrite set_fresh by (apply Hfresh; now left).
        rewrite IH; [now rewrite <- app_assoc | assumption |].
        intros k' Hk' Hin. unfold keys in Hin. rewrite map_app in Hin.
        apply in_app_iff in Hin as [Hin|[<-|[]]].
        * apply (Hfresh k'); [now right | assumption].
        * contradiction.
      + apply IH; [assumption | intros; apply Hfresh; now right]. }
  rewrite G; [reflexivity | | intros k _ []].
  rewrite sectionKeywords_keys. apply registryIds_NoDup.
Qed.

Lemma insertSorted_In (x z : jsstring * nat) (l : list (jsstring * nat)) :
  In z (insertSorted byScoreDesc x l) <-> z = x \/ In z l.
Proof.
  induction l as [|y l IH]; simpl.
  - intuition.
  - destruct (byScoreDesc x y <=? 0); simpl; rewrite ?IH; intuition.
Qed.

Lemma stableSort_In (z : jsstring * nat) (l : list (jsstring * nat)) :
  In z (stableSort byScoreDesc l) <-> In z l.
Proof.
  induction l as [|x l IH]; [simpl; tauto|].
  change (stableSort byScoreDesc (x :: l))
    with (insertSorted byScoreDesc x (stableSort byScoreDesc l)).
  rewrite insertSorted_In, IH. simpl. intuition.
Qed.

(** Inserting an entry that stood before all others keeps the ranking. *)
Lemma insertSorted_ranked (x : jsstring * nat) (l : list (jsstring * nat)) :
  StronglySorted pairRank l -> Forall (registryOrder x) l ->
  StronglySorted pairRank (insertSorted byScoreDesc x l).
Proof.
  induction l as [|y l IH]; intros Hs Hx; simpl.
  - repeat constructor.
  - inversion Hs as [|? ? Hs' Hy]; subst.
    inversion Hx as [|? ? Hxy Hxl]; subst.
    unfold byScoreDesc at 1. destruct (_ <=? 0) eqn:E.
    + apply Z.leb_le in E. constructor; [assumption|].
      constructor.
      * unfold pairRank, registryOrder in *. lia.
      * rewrite Forall_forall in *. intros z Hz.
        specialize (Hy z Hz). specialize (Hxl z Hz).
        unfold pairRank, registryOrder in *. lia.
    + apply Z.leb_gt in E. constructor; [now apply IH|].
      apply Forall_forall. intros z Hz. apply insertSorted_In in Hz as [->|Hz].
      * unfold pairRank. lia.
      * rewrite Forall_forall in Hy. now apply Hy.
Qed.

Lemma stableSort_ranked (l : list (jsstring * nat)) :
  StronglySorted registryOrder l ->
  StronglySorted pairRank (stableSort byScoreDesc l).
Proof.
  induction 1 as [|x l Hs IH Hx]; [constructor|].
  change (stableSort byScoreDesc (x :: l))
    with (insertSorted byScoreDesc x (stableSort byScoreDesc l)).
  apply insertSorted_ranked; [assumption|].
  apply Forall_forall. intros z Hz. rewrite stableSort_In in Hz.
  rewrite Forall_forall in Hx. now apply Hx.
Qed.

End Ranking.

Section Detector.

Lemma StronglySorted_by_key {A B} (f : A -> B) (R : B -> B -> Prop) (l : list A) :
  StronglySorted R (map f l) -> StronglySorted (fun a b => R (f a) (f b)) l.
Proof.
  induction l as [|a l IH]; simpl; intros H; [constructor|].
  inversion H as [|? ? Hs Ha]; subst. constructor; [auto|].
  rewrite Forall_forall in *. intros b Hb. apply Ha. now apply in_map.
Qed.

Lemma StronglySorted_filter {A} (R : A -> A -> Prop) (f : A -> bool) (l : list A) :
  StronglySorted R l -> StronglySorted R (filter f l).
Proof.
  induction 1 as [|a l Hs IH Ha]; simpl; [constructor|].
  destruct (f a); [|assumption]. constructor; [assumption|].
  rewrite Forall_forall in *. intros b Hb. apply filter_In in Hb as [Hb _]. auto.
Qed.

Lemma StronglySorted_map_members {A B} (f : A -> B) (R : A -> A -> Prop)
    (R' : B -> B -> Prop) (l : list A) :
  (forall a b, In a l -> In b l -> R a b -> R' (f a) (f b)) ->
  StronglySorted R l -> StronglySorted R' (map f l).
Proof.
  intros Himp H. induction H as [|a l Hs IH Ha]; simpl; [constructor|].
  constructor.
  - apply IH. intros x y Hx Hy. apply Himp; now right.
  - rewrite Forall_forall in *. intros y Hy.
    apply in_map_iff in Hy as (b & <- & Hb).
    apply Himp; [now left | now right | auto].
Qed.

Lemma registryIds_index_sorted :
  StronglySorted (fun a b => (indexOf a registryIds < indexOf b registryIds)%nat)
                 registryIds.
Proof.
  unfold registryIds, GDD_SECTIONS. cbn [map s_id].
  repeat (constructor; [|repeat (constructor; [vm_compute; lia|]); constructor]).
  constructor.
Qed.

Variable lower : jsstring.

Lemma positiveScores_registry_order :
  StronglySorted registryOrder (positiveScores lower).
Proof.
  unfold positiveScores. apply StronglySorted_filter.
  apply (StronglySorted_by_key fst
           (fun a b => (indexOf a registryIds < indexOf b registryIds)%nat)).
  rewrite map_map. cbn [fst].
  change (map (fun x : jsstring * list jsstring => fst x) sectionKeywords)
    with (keys sectionKeywords).
  rewrite sectionKeywords_keys. apply registryIds_index_sorted.
Qed.

Lemma positiveScores_entry (id : jsstring) (score : nat) :
  In (id, score) (positiveScores lower) <->
  In id registryIds /\ score = scoreOf lower id /\ (0 < score)%nat.
Proof.
  unfold positiveScores. rewrite filter_In, in_map_iff. cbn [snd].
  rewrite Nat.ltb_lt. unfold scoreOf.
  pose proof registryIds_NoDup as Hnd. rewrite <- sectionKeywords_keys in *.
  split.
  - intros [([k kws] & E & Hin) Hpos]. cbn [fst snd] in E.
    injection E as -> <-.
    rewrite (get_of_entry _ _ _ Hnd Hin).
    repeat split; [|assumption]. now apply (in_map fst) in Hin.
  - intros (Hin & -> & Hpos). split; [|assumption].
    unfold keys in Hin. apply in_map_iff in Hin as ([k kws] & <- & Hin).
    cbn [fst] in *. rewrite (get_of_entry _ _ _ Hnd Hin) in *.
    exists (k, kws). auto.
Qed.

End Detector.

(** What the detector does for a message that is not broad: it returns
    exactly the registry sections whose score in the lower-cased message
    is positive, higher scores first and registry order among equal
    scores; the score of a section is the number of its keywords, as
    spelt in the source, that the lower-cased message holds. *)
Lemma detectRelevantSections_ranked (st : state) (message : jsstring) :
  let lower := toLowerCase message in
  isBroad lower = false ->
  (forall id, In id (detectRelevantSections st message) <->
              In id registryIds /\ (0 < scoreOf lower id)%nat)
  /\ StronglySorted (moreRelevant lower) (detectRelevantSections st message)
  /\ ((forall id, In id registryIds -> scoreOf lower id = 0%nat) ->
      detectRelevantSections st message = []).
Proof.
  intros lower Hb. unfold detectRelevantSections. fold lower. rewrite Hb.
  rewrite sectionScores_positive.
  assert (Hmem : forall id,
            In id (map fst (stableSort byScoreDesc (positiveScores lower))) <->
            In id registryIds /\ (0 < scoreOf lower id)%nat).
  { intros id. rewrite in_map_iff. split.
    - intros ([k score] & <- & Hin). cbn [fst].
      apply stableSort_In, positiveScores_entry in Hin as (Hreg & -> & Hpos).
      auto.
    - intros [Hreg Hpos]. exists (id, scoreOf lower id). split; [reflexivity|].
      apply stableSort_In, positiveScores_entry. auto. }
  split; [exact Hmem | split].
  - apply (StronglySorted_map_members fst pairRank).
    + intros [a sa] [b sb] Ha Hb' Hrank.
      apply stableSort_In, positiveScores_entry in Ha as (_ & -> & _).
      apply stableSort_In, positiveScores_entry in Hb' as (_ & -> & _).
      exact Hrank.
    + apply stableSort_ranked, positiveScores_registry_order.
  - intros Hzero.
    destruct (map fst (stableSort byScoreDesc (positiveScores lower)))
      as [|id ids] eqn:E; [reflexivity|].
    assert (Hin : In id (id :: ids)) by now left.
    apply Hmem in Hin as [Hreg Hpos].
    rewrite (Hzero id Hreg) in Hpos. lia.
Qed.

Lemma detectRelevantSections_ranked_example :
  detectRelevantSections storyState
    (js "Is the combat system fun, and does the boss fit the story?")
  = [js "gameplay"; js "story"; js "characters"].
Proof. vm_compute. reflexivity. Qed.

(** What the detector does for a broad message: the filled sections, in
    registry order, whatever else the message holds. *)
Lemma detectRelevantSections_broad (st : state) (message : jsstring) :
  isBroad (toLowerCase message) = true ->
  detectRelevantSections st message = filter (isFilled st) registryIds.
Proof.
  intros Hb. unfold detectRelevantSections. rewrite Hb.
  unfold registryIds. induction GDD_SECTIONS as [|s l IH]; [reflexivity|].
  simpl. destruct (isFilled st (s_id s)); simpl; now rewrite IH.
Qed.

(** C7 fails on the code for the message "tÃ¼r": it is, letter for
    letter, a keyword of the overview section and no broad keyword, so the
    overview has one keyword occurrence; the code counts none, because it
    lower-cases the message and not the keyword, and returns no section. *)
Theorem garbled_keyword_not_counted :
  existsb (includesIgnoringCase garbledGenreMessage) broadKeywords = false
  /\ (exists keywords,
        get (js "overview") sectionKeywords = Some keywords
        /\ existsb (unitsEq garbledGenreMessage) keywords = true
        /\ occurrenceCount garbledGenreMessage keywords = 1%nat
        /\ keywordScore (toLowerCase garbledGenreMessage) keywords = 0%nat)
  /\ (forall st, detectRelevantSections st garbledGenreMessage = []).
Proof.
  split; [vm_compute; reflexivity | split].
  - eexists. split; [vm_compute; reflexivity|].
    split; [|split]; vm_compute; reflexivity.
  - intros st. unfold detectRelevantSections.
    replace (isBroad (toLowerCase garbledGenreMessage)) with false
      by (vm_compute; reflexivity).
    vm_compute. reflexivity.
Qed.

(** C8 fails on the code for the message "tÃ¼m": it is, letter for
    letter, a broad keyword, yet it is not taken as broad, and the
    detector returns no section although two are filled. *)
Theorem garbled_broad_keyword_missed :
  existsb (unitsEq garbledAllMessage) broadKeywords = true
  /\ isBroad (toLowerCase garbledAllMessage) = false
  /\ filter (isFilled storyState) registryIds = [js "overview"; js "story"]
  /\ detectRelevantSections storyState garbledAllMessage = [].
Proof. split; [|split; [|split]]; vm_compute; reflexivity. Qed.

(** * Further properties of the code *)

Ltac locate_part :=
  repeat first [ apply occursIn_here | apply occursIn_later ].

(** ** The relevance detector returns distinct registry ids *)

Section DetectorIds.

Lemma StronglySorted_NoDup {A} (R : A -> A -> Prop) (l : list A) :
  (forall a, ~ R a a) -> StronglySorted R l -> NoDup l.
Proof.
  intros Hirr. induction 1 as [|a l Hs IH Ha]; constructor; [|assumption].
  intros Hin. rewrite Forall_forall in Ha. exact (Hirr a (Ha a Hin)).
Qed.

Lemma moreRelevant_irreflexive (lower a : jsstring) : ~ moreRelevant lower a a.
Proof. unfold moreRelevant. lia. Qed.

(** X1: whatever the message and the store, [detectRelevantSections]
    returns registry ids only and no id twice; for a broad message every
    returned section is filled. *)
Theorem detectRelevantSections_distinct_registry_ids (st : state)
    (message : jsstring) :
  NoDup (detectRelevantSections st message)
  /\ (forall id, In id (detectRelevantSections st message) ->
                 In id registryIds)
  /\ (isBroad (toLowerCase message) = true ->
      forall id, In id (detectRelevantSections st message) ->
                 isFilled st id = true).
Proof.
  destruct (isBroad (toLowerCase message)) eqn:Hb.
  - rewrite (detectRelevantSections_broad st message Hb).
    split; [|split].
    + apply NoDup_filter, registryIds_NoDup.
    + intros id Hin. now apply filter_In in Hin.
    + intros _ id Hin. now apply filter_In in Hin.
  - destruct (detectRelevantSections_ranked st message Hb) as (Hmem & Hs & _).
    split; [|split].
    + eapply StronglySorted_NoDup; [|exact Hs].
      intros a. apply moreRelevant_irreflexive.
    + intros id Hin. now apply Hmem in Hin.
    + discriminate.
Qed.

End DetectorIds.

(** ** What a level-2 import stores *)

Section StoredContents.

Lemma trimStart_idempotent (s : jsstring) : trimStart (trimStart s) = trimStart s.
Proof.
  induction s as [|c s IH]; simpl; [reflexivity|].
  destruct (isWhiteSpace c) eqn:E; [exact IH|]. simpl. now rewrite E.
Qed.

Lemma trimStart_prefix (s : jsstring) :
  exists w, s = w ++ trimStart s /\ forallb isWhiteSpace w = true.
Proof.
  induction s as [|c s (w & Hw & Hall)]; simpl.
  - exists []. auto.
  - destruct (isWhiteSpace c) eqn:E.
    + exists (c :: w). simpl. rewrite E, Hall. split; [now f_equal | reflexivity].
    + exists []. auto.
Qed.

Lemma trimEnd_suffix (s : jsstring) :
  exists w, s = trimEnd s ++ w /\ forallb isWhiteSpace w = true.
Proof.
  destruct (trimStart_prefix (rev s)) as (w & Hw & Hall).
  exists (rev w). split.
  - unfold trimEnd. rewrite <- rev_app_distr, <- Hw. now rewrite rev_involutive.
  - now rewrite forallb_rev.
Qed.

Lemma trimEnd_idempotent (s : jsstring) : trimEnd (trimEnd s) = trimEnd s.
Proof.
  unfold trimEnd. now rewrite rev_involutive, trimStart_idempotent.
Qed.

(** What is left of a string without leading white space, once trailing
    white space is dropped, still has no leading white space. *)
Lemma trimStart_trimEnd (t : jsstring) :
  trimStart t = t -> trimStart (trimEnd t) = trimEnd t.
Proof.
  intros Ht. destruct (trimEnd_suffix t) as (w & Hw & Hall).
  destruct (trimEnd t) as [|c u] eqn:E; [reflexivity|].
  rewrite Hw in Ht. simpl in Ht. simpl.
  destruct (isWhiteSpace c) eqn:Ec; [|reflexivity].
  exfalso.
  assert (L : (List.length (trimStart (u ++ w)) <= List.length (u ++ w))%nat).
  { clear. induction (u ++ w) as [|x l IH]; simpl; [lia|].
    destruct (isWhiteSpace x); simpl; lia. }
  rewrite Ht in L. simpl in L. lia.
Qed.

Lemma trim_idempotent (s : jsstring) : trim (trim s) = trim s.
Proof.
  unfold trim. rewrite trimStart_trimEnd by apply trimStart_idempotent.
  apply trimEnd_idempotent.
Qed.

Lemma set_entries {A} (k : jsstring) (v : A) (o : obj A) (kv : jsstring * A) :
  In kv (set k v o) -> kv = (k, v) \/ In kv o.
Proof.
  induction o as [|[k' v'] o IH]; simpl.
  - intros [H|[]]; auto.
  - destruct (unitsEq k k'); simpl; intros [H|H]; auto.
    apply IH in H. tauto.
Qed.

Variable e : env.

Lemma collectSections_filled (lines : list jsstring)
    (boundaries : list (nat * sectionRef)) (gdd : obj sectionData) :
  Forall (fun kv => freshlyImported e (snd kv)) gdd ->
  Forall (fun kv => freshlyImported e (snd kv))
         (collectSections e lines boundaries gdd).
Proof.
  revert gdd. induction boundaries as [|[i r] rest IH]; intros gdd Hg; simpl;
    [assumption|].
  apply IH. destruct (nonEmpty _) eqn:Hne; [|assumption].
  apply Forall_forall. intros kv Hin. apply set_entries in Hin as [->|Hin].
  - cbn [snd]. eexists. cbn [content lastUpdated].
    repeat split; [now apply nonEmpty_spec | apply trim_idempotent].
  - rewrite Forall_forall in Hg. now apply Hg.
Qed.

(** X2: when pass 1 of the headed-markdown import finds a boundary, every
    section the import stores is filled: its content is not empty, has no
    white space around it, and is stamped with the time of the import. *)
Theorem level2_import_stores_filled_sections (mdContent : jsstring) :
  sectionBoundaries knownSectionTitles 0 (split 10 mdContent) <> [] ->
  Forall (fun kv => freshlyImported e (snd kv))
         (r_gdd (parseMarkdownImport e mdContent)).
Proof.
  intros Hb. unfold parseMarkdownImport, importedGdd. cbn [r_gdd].
  destruct (sectionBoundaries knownSectionTitles 0 (split 10 mdContent))
    as [|b bs] eqn:B; [contradiction|].
  rewrite <- B. apply collectSections_filled. constructor.
Qed.

End StoredContents.

Lemma level2_import_stores_filled_sections_witness :
  Forall (fun kv => freshlyImported sampleEnv (snd kv))
         (r_gdd (parseMarkdownImport sampleEnv emojiNotes)).
Proof.
  apply level2_import_stores_filled_sections. vm_compute. discriminate.
Defined.

(** ** The export preamble read back by the import *)

Section PreambleFacts.

Lemma trimStart_fixed_head (s : jsstring) :
  trimStart s = s -> s <> [] ->
  exists c r, s = c :: r /\ isWhiteSpace c = false.
Proof.
  destruct s as [|c r]; [contradiction|]. intros H _. exists c, r.
  split; [reflexivity|]. destruct (isWhiteSpace c) eqn:E; [|reflexivity].
  exfalso. simpl in H. rewrite E in H.
  destruct (trimStart_prefix r) as (w & Hw & _).
  apply (f_equal (@List.length Z)) in H. apply (f_equal (@List.length Z)) in Hw.
  rewrite length_app in Hw. simpl in H. lia.
Qed.

Lemma trimStart_app_fixed (a x : jsstring) :
  trimStart a = a -> a <> [] -> trimStart (a ++ x) = a ++ x.
Proof.
  intros H Hne. destruct (trimStart_fixed_head a H Hne) as (c & r & -> & Hc).
  simpl. now rewrite Hc.
Qed.

Lemma trim_fixed_parts (s : jsstring) :
  trim s = s -> trimStart s = s /\ trimEnd s = s.
Proof.
  intros H. split.
  - rewrite <- H. unfold trim. apply trimStart_trimEnd, trimStart_idempotent.
  - rewrite <- H. unfold trim. apply trimEnd_idempotent.
Qed.

Lemma trimEnd_app_fixed (x g : jsstring) :
  trimEnd g = g -> g <> [] -> trimEnd (x ++ g) = x ++ g.
Proof.
  intros H Hne. unfold trimEnd in *. rewrite rev_app_distr.
  assert (Hr : trimStart (rev g) = rev g).
  { apply (f_equal (@rev Z)) in H. now rewrite rev_involutive in H. }
  rewrite trimStart_app_fixed; [now rewrite <- rev_app_distr, rev_involutive | assumption |].
  intros E. apply Hne. apply (f_equal (@rev Z)) in E.
  now rewrite rev_involutive in E.
Qed.

(** A text that begins and ends with something that is not white space is
    its own trim. *)
Lemma trim_fixed_app (a g : jsstring) :
  trimStart a = a -> a <> [] -> trimEnd g = g -> g <> [] ->
  trim (a ++ g) = a ++ g.
Proof.
  intros Ha Hane Hg Hgne. unfold trim.
  rewrite trimStart_app_fixed by assumption. now apply trimEnd_app_fixed.
Qed.

Lemma startsWithCI_app (p rest : jsstring) : startsWithCI p (p ++ rest) = true.
Proof.
  induction p as [|a p IH]; simpl; [reflexivity|].
  now rewrite Z.eqb_refl, IH.
Qed.

Lemma startsWithCI_longer (p a x : jsstring) :
  startsWithCI p a = true -> startsWithCI p (a ++ x) = true.
Proof.
  revert a. induction p as [|c p IH]; intros a H; [reflexivity|].
  destruct a as [|d a]; [discriminate|]. simpl in *.
  apply andb_true_iff in H as [-> H]. now rewrite IH.
Qed.

(** A line whose text, leading white space dropped, does not begin with
    the label is no match for it. *)
Lemma matchLabel_other_prefix (label s : jsstring) :
  startsWithCI label (trimStart s) = false -> matchLabel label (trim s) = None.
Proof.
  intros H. unfold matchLabel.
  destruct (startsWithCI label (trim s)) eqn:E; [|reflexivity].
  exfalso. destruct (trimEnd_suffix (trimStart s)) as (w & Hw & _).
  fold (trim s) in Hw. rewrite Hw in H.
  rewrite (startsWithCI_longer _ _ w E) in H. discriminate.
Qed.

Lemma startsWithCI_app_false (p a x : jsstring) :
  startsWithCI (firstn (List.length a) p) a = false ->
  startsWithCI p (a ++ x) = false.
Proof.
  revert a. induction p as [|c p IH]; intros a H.
  - now rewrite firstn_nil in H.
  - destruct a as [|d a]; [discriminate|]. simpl in *.
    destruct (foldAscii c =? foldAscii d); [|reflexivity].
    simpl in *. now apply IH.
Qed.

(** A line that opens with fixed text other than the label is no match. *)
Lemma matchLabel_literal_line (label a x : jsstring) :
  trimStart a = a -> a <> [] ->
  startsWithCI (firstn (List.length a) label) a = false ->
  matchLabel label (trim (a ++ x)) = None.
Proof.
  intros Ha Hne H. apply matchLabel_other_prefix.
  rewrite trimStart_app_fixed by assumption.
  now apply startsWithCI_app_false.
Qed.

Lemma takeWhile_all (f : Z -> bool) (s : jsstring) :
  forallb f s = true -> takeWhile f s = s.
Proof.
  induction s as [|c s IH]; simpl; [reflexivity|].
  intros H. apply andb_true_iff in H as [-> H]. now rewrite IH.
Qed.

(** The capture after a label followed by one space is the plain text. *)
Lemma matchLabel_plain (label g : jsstring) :
  plainField g = true ->
  matchLabel label (label ++ js " " ++ g) = Some g.
Proof.
  unfold plainField. intros H. apply andb_true_iff in H as [H Hlt].
  apply andb_true_iff in H as [Hne Htrim].
  apply nonEmpty_spec in Hne. apply unitsEq_spec in Htrim.
  destruct (trim_fixed_parts g Htrim) as [Hs _].
  destruct (trimStart_fixed_head g Hs Hne) as (c & r & -> & Hc).
  unfold matchLabel. rewrite startsWithCI_app.
  rewrite skipn_app, skipn_all, Nat.sub_diag. cbn [app skipn].
  change (js " " ++ c :: r) with (32 :: c :: r).
  cbn [restCapture]. replace (isWhiteSpace 32) with true by reflexivity.
  rewrite Hc. now rewrite takeWhile_all.
Qed.

Lemma plainField_parts (g : jsstring) :
  plainField g = true ->
  g <> [] /\ trim g = g /\ trimStart g = g /\ trimEnd g = g /\ ~ In 10 g.
Proof.
  unfold plainField. intros H. apply andb_true_iff in H as [H Hlt].
  apply andb_true_iff in H as [Hne Htrim].
  apply nonEmpty_spec in Hne. apply unitsEq_spec in Htrim.
  destruct (trim_fixed_parts g Htrim) as [Hs He].
  repeat split; try assumption.
  intros Hin. rewrite forallb_forall in Hlt. now specialize (Hlt 10 Hin).
Qed.

End PreambleFacts.

Section PreambleRoundTrip.

Variables e e' : env.

Lemma split_line (a b : jsstring) :
  ~ In 10 a -> split 10 (a ++ 10 :: b) = a :: split 10 b.
Proof. intros H. now rewrite split_app_sep, split_no_sep. Qed.

Lemma export_header_then_body (p : project) (gdd : obj sectionData) :
  generateMarkdownExport e p gdd = exportHeader e p ++ exportBody gdd.
Proof.
  unfold generateMarkdownExport, exportBody.
  generalize (exportHeader e p). generalize GDD_SECTIONS.
  induction l as [|s l IH]; intros acc; simpl.
  - now rewrite app_nil_r.
  - rewrite IH. rewrite (IH (exportSection gdd [] s)).
    rewrite app_assoc. f_equal.
Qed.

(** The nine lines of the preamble. *)
Lemma export_preamble_lines (p : project) (gdd : obj sectionData) :
  ~ In 10 (p_name p) -> ~ In 10 (p_genre p) ->
  ~ In 10 (join (js ", ") (p_platforms p)) ->
  ~ In 10 (formatDate e (p_createdAt p)) ->
  ~ In 10 (formatDate e (p_updatedAt p)) ->
  split 10 (generateMarkdownExport e p gdd)
  = [ js "# " ++ p_name p ++ js " - Game Design Document";
      [];
      js "**Created:** " ++ formatDate e (p_createdAt p);
      js "**Last Updated:** " ++ formatDate e (p_updatedAt p);
      js "**Genre:** " ++ p_genre p;
      js "**Platforms:** " ++ join (js ", ") (p_platforms p);
      [];
      js "---";
      [] ] ++ split 10 (exportBody gdd).
Proof.
  intros Hn Hg Hp Hc Hu. rewrite export_header_then_body.
  set (body := exportBody gdd).
  replace (exportHeader e p ++ body)
    with ((js "# " ++ p_name p ++ js " - Game Design Document") ++ 10 ::
          [] ++ 10 ::
          (js "**Created:** " ++ formatDate e (p_createdAt p)) ++ 10 ::
          (js "**Last Updated:** " ++ formatDate e (p_updatedAt p)) ++ 10 ::
          (js "**Genre:** " ++ p_genre p) ++ 10 ::
          (js "**Platforms:** " ++ join (js ", ") (p_platforms p)) ++ 10 ::
          [] ++ 10 :: js "---" ++ 10 :: [] ++ 10 :: body).
  2:{ unfold exportHeader, nl. rewrite <- !app_assoc. reflexivity. }
  assert (lit : forall a x : jsstring,
             forallb (fun c => negb (c =? 10)) a = true ->
             ~ In 10 x -> ~ In 10 (a ++ x)).
  { intros a x Ha Hx Hin. apply in_app_or in Hin as [Hin|Hin]; [|tauto].
    rewrite forallb_forall in Ha. now specialize (Ha 10 Hin). }
  assert (lit' : forall a : jsstring,
             forallb (fun c => negb (c =? 10)) a = true -> ~ In 10 a).
  { intros a Ha Hin. rewrite forallb_forall in Ha. now specialize (Ha 10 Hin). }
  rewrite split_line.
  2:{ apply lit; [vm_compute; reflexivity|]. intros Hin.
      apply in_app_or in Hin as [Hin|Hin]; [tauto|].
      revert Hin. apply lit'. vm_compute; reflexivity. }
  rewrite split_line by (intros []).
  rewrite split_line by (apply lit; [vm_compute; reflexivity|assumption]).
  rewrite split_line by (apply lit; [vm_compute; reflexivity|assumption]).
  rewrite split_line by (apply lit; [vm_compute; reflexivity|assumption]).
  rewrite split_line by (apply lit; [vm_compute; reflexivity|assumption]).
  rewrite split_line by (intros []).
  rewrite split_line by (apply lit'; vm_compute; reflexivity).
  rewrite split_line by (intros []).
  reflexivity.
Qed.

Lemma plainField_intro (g : jsstring) :
  g <> [] -> trimStart g = g -> trimEnd g = g ->
  forallb (fun c => negb (isLineTerminator c)) g = true ->
  plainField g = true.
Proof.
  intros Hne Hs He Hl. unfold plainField. rewrite Hl, andb_true_r.
  apply andb_true_iff. split; [now apply nonEmpty_spec|].
  apply unitsEq_spec. unfold trim. now rewrite Hs.
Qed.

Lemma plainPlatform_parts (s : jsstring) :
  plainPlatform s = true -> plainField s = true /\ ~ In 0x2C s.
Proof.
  unfold plainPlatform. intros H. apply andb_true_iff in H as [H Hc].
  split; [assumption|]. intros Hin. rewrite forallb_forall in Hc.
  now specialize (Hc _ Hin).
Qed.

(** Platform names joined by ", " make one plain field. *)
Lemma join_plain (ps : list jsstring) :
  ps <> [] -> forallb plainPlatform ps = true ->
  plainField (join (js ", ") ps) = true.
Proof.
  induction ps as [|p ps IH]; [contradiction|]. intros _ H.
  simpl in H. apply andb_true_iff in H as [Hp H].
  destruct (plainPlatform_parts p Hp) as [Hpf _].
  destruct ps as [|q ps]; [exact Hpf|].
  rewrite join_cons by discriminate.
  specialize (IH ltac:(discriminate) H).
  destruct (plainField_parts _ Hpf) as (Hne & _ & Hs & _ & _).
  destruct (plainField_parts _ IH) as (Hne' & _ & _ & He' & _).
  apply plainField_intro.
  - destruct p; [contradiction | discriminate].
  - now apply trimStart_app_fixed.
  - rewrite app_assoc. now apply trimEnd_app_fixed.
  - rewrite !forallb_app. unfold plainField in Hpf, IH.
    apply andb_true_iff in Hpf as [_ ->]. apply andb_true_iff in IH as [_ ->].
    reflexivity.
Qed.

Lemma trim_after_space (l : jsstring) : trim (32 :: l) = trim l.
Proof. reflexivity. Qed.

(** Splitting the joined names at the commas and trimming gives the names
    back. *)
Lemma split_join_platforms (ps : list jsstring) :
  ps <> [] -> forallb plainPlatform ps = true ->
  map trim (split 0x2C (join (js ", ") ps)) = ps.
Proof.
  induction ps as [|p ps IH]; [contradiction|]. intros _ H.
  simpl in H. apply andb_true_iff in H as [Hp H].
  destruct (plainPlatform_parts p Hp) as [Hpf Hc].
  destruct (plainField_parts _ Hpf) as (_ & Ht & _).
  destruct ps as [|q ps].
  - cbn [join]. rewrite split_no_sep by assumption. cbn [map]. now rewrite Ht.
  - rewrite join_cons by discriminate.
    change (js ", " ++ ?x) with (0x2C :: 32 :: x).
    rewrite split_app_sep, split_no_sep by assumption.
    cbn [app map]. rewrite Ht. f_equal.
    specialize (IH ltac:(discriminate) H).
    rewrite <- IH at 2.
    set (J := join (js ", ") (q :: ps)).
    change (split 0x2C (32 :: J))
      with (match split 0x2C J with
            | l :: ls => (32 :: l) :: ls
            | [] => [[32]]
            end).
    destruct (split 0x2C J) as [|l ls] eqn:E; [now apply split_nonempty in E|].
    reflexivity.
Qed.

Lemma genre_literal : js "**Genre:** " = js "**Genre:**" ++ js " ".
Proof. vm_compute. reflexivity. Qed.

Lemma platforms_literal : js "**Platforms:** " = js "**Platforms:**" ++ js " ".
Proof. vm_compute. reflexivity. Qed.

Lemma trim_labelled (label g : jsstring) :
  trimStart label = label -> label <> [] -> plainField g = true ->
  trim (label ++ g) = label ++ g.
Proof.
  intros Hl Hne Hg. destruct (plainField_parts _ Hg) as (Hgne & _ & _ & He & _).
  now apply trim_fixed_app.
Qed.

(** The genre line of the preamble sets the genre. *)
Lemma readMetaLine_genre_line (h : header) (g : jsstring) :
  plainField g = true ->
  h_genre (readMetaLine e' h (js "**Genre:** " ++ g)) = g.
Proof.
  intros Hg. unfold readMetaLine. cbn [h_genre].
  rewrite trim_labelled; [| vm_compute; reflexivity | vm_compute; discriminate | assumption].
  rewrite genre_literal, <- app_assoc, matchLabel_plain by assumption.
  now destruct (plainField_parts _ Hg) as (_ & -> & _).
Qed.

(** The platforms line of the preamble sets the platforms. *)
Lemma readMetaLine_platforms_line (h : header) (ps : list jsstring) :
  ps <> [] -> forallb plainPlatform ps = true ->
  h_platforms (readMetaLine e' h (js "**Platforms:** " ++ join (js ", ") ps)) = ps.
Proof.
  intros Hne Hps. pose proof (join_plain ps Hne Hps) as HJ.
  unfold readMetaLine. cbn [h_platforms].
  rewrite trim_labelled; [| vm_compute; reflexivity | vm_compute; discriminate | assumption].
  unfold matchPlatforms.
  rewrite platforms_literal, <- app_assoc, matchLabel_plain by assumption.
  now apply split_join_platforms.
Qed.

Lemma readMetaLine_genre_other (h : header) (l : jsstring) :
  matchLabel (js "**Genre:**") (trim l) = None ->
  h_genre (readMetaLine e' h l) = h_genre h.
Proof. intros H. unfold readMetaLine. cbn [h_genre]. now rewrite H. Qed.

Lemma readMetaLine_platforms_other (h : header) (l : jsstring) :
  matchLabel (js "**Platforms:**") (trim l) = None ->
  matchLabel (js "**Platform:**") (trim l) = None ->
  h_platforms (readMetaLine e' h l) = h_platforms h.
Proof.
  intros H H'. unfold readMetaLine, matchPlatforms. cbn [h_platforms].
  now rewrite H, H'.
Qed.

Lemma document_suffix_literal :
  rev (js " - Game Design Document")
  = rev (js "Game Design Document") ++ [32; 0x2D; 32].
Proof. vm_compute. reflexivity. Qed.

(** The title line of the preamble gives the project name back. *)
Lemma firstTitle_preamble (name : jsstring) (rest : list jsstring) :
  plainField name = true ->
  firstTitle ((js "# " ++ name ++ js " - Game Design Document") :: rest)
  = Some name.
Proof.
  intros Hn. destruct (plainField_parts _ Hn) as (Hne & Ht & Hs & He & _).
  cbn [firstTitle].
  assert (Htrim : trim (js "# " ++ name ++ js " - Game Design Document")
                  = js "# " ++ name ++ js " - Game Design Document").
  { apply trim_fixed_app; [vm_compute; reflexivity | vm_compute; discriminate | |].
    - replace (js " - Game Design Document")
        with (js " " ++ js "- Game Design Document") by (vm_compute; reflexivity).
      rewrite app_assoc. apply trimEnd_app_fixed;
        [vm_compute; reflexivity | vm_compute; discriminate].
    - destruct name; [contradiction | discriminate]. }
  rewrite Htrim.
  destruct (trimStart_fixed_head name Hs Hne) as (c & r & E & Hc).
  assert (H1 : isHeading1 (js "# " ++ name ++ js " - Game Design Document") = true).
  { unfold isHeading1. rewrite startsWith_app.
    change (js "# " ++ ?x) with (35 :: 32 :: x). reflexivity. }
  rewrite H1. f_equal.
  assert (Hstrip : stripHeadingMark (js "#")
                     (js "# " ++ name ++ js " - Game Design Document")
                   = name ++ js " - Game Design Document").
  { change (js "# " ++ ?x) with (35 :: 32 :: x).
    change (js "#") with [35]. unfold stripHeadingMark.
    cbn [startsWith List.length skipn].
    rewrite Z.eqb_refl. cbn [andb]. replace (isWhiteSpace 32) with true by reflexivity.
    now apply trimStart_app_fixed. }
  rewrite Hstrip. unfold stripDocumentSuffix.
  rewrite rev_app_distr, document_suffix_literal, <- app_assoc.
  rewrite startsWithCI_app.
  replace (List.length (js "Game Design Document"))
    with (List.length (rev (js "Game Design Document"))) by apply length_rev.
  rewrite skipn_app, skipn_all, Nat.sub_diag. cbn [app skipn].
  cbn [trimStart]. replace (isWhiteSpace 32) with true by reflexivity.
  replace (isWhiteSpace 45) with false by reflexivity.
  replace (isDash 45) with true by reflexivity.
  assert (Hr : trimStart (rev name) = rev name).
  { unfold trimEnd in He. apply (f_equal (@rev Z)) in He.
    now rewrite rev_involutive in He. }
  change (trimStart (32 :: rev name)) with (trimStart (rev name)).
  rewrite Hr, rev_involutive. exact Ht.
Qed.

Lemma imported_name (md : jsstring) :
  p_name (r_project (parseMarkdownImport e' md))
  = match firstTitle (firstn 10 (split 10 md)) with
    | Some name => name
    | None => js "Imported Project"
    end.
Proof. reflexivity. Qed.

Lemma imported_genre (md : jsstring) :
  p_genre (r_project (parseMarkdownImport e' md))
  = if nonEmpty (h_genre (readHeader e' (split 10 md)))
    then h_genre (readHeader e' (split 10 md)) else js "Unknown".
Proof. reflexivity. Qed.

Lemma imported_platforms (md : jsstring) :
  p_platforms (r_project (parseMarkdownImport e' md))
  = match h_platforms (readHeader e' (split 10 md)) with
    | [] => [js "PC"]
    | ps => ps
    end.
Proof. reflexivity. Qed.

Lemma firstn_title_line (l0 : jsstring) (ls body : list jsstring) :
  firstn 10 ((l0 :: ls) ++ body) = l0 :: firstn 9 (ls ++ body).
Proof. reflexivity. Qed.

Lemma fold_left_nine {A B} (f : A -> B -> A) (a : A)
    (l0 l1 l2 l3 l4 l5 l6 l7 l8 : B) (body : list B) :
  fold_left f (firstn 20 ([l0; l1; l2; l3; l4; l5; l6; l7; l8] ++ body)) a
  = fold_left f (firstn 11 body)
      (f (f (f (f (f (f (f (f (f a l0) l1) l2) l3) l4) l5) l6) l7) l8).
Proof. reflexivity. Qed.

Lemma readHeader_nine_lines (l0 l1 l2 l3 l4 l5 l6 l7 l8 : jsstring)
    (body : list jsstring) :
  readHeader e' ([l0; l1; l2; l3; l4; l5; l6; l7; l8] ++ body)
  = fold_left (readMetaLine e') (firstn 11 body)
      (readMetaLine e' (readMetaLine e' (readMetaLine e' (readMetaLine e'
        (readMetaLine e' (readMetaLine e' (readMetaLine e' (readMetaLine e'
          (readMetaLine e'
             {| h_createdAt := nowISO e'; h_genre := []; h_platforms := [] |}
             l0) l1) l2) l3) l4) l5) l6) l7) l8).
Proof. unfold readHeader. apply fold_left_nine. Qed.

Lemma blank_line_no_label (label : jsstring) :
  label <> [] -> matchLabel label (trim []) = None.
Proof. destruct label; [contradiction | reflexivity]. Qed.

Lemma rule_line_no_genre : matchLabel (js "**Genre:**") (trim (js "---")) = None.
Proof. vm_compute. reflexivity. Qed.

Lemma rule_line_no_platforms :
  matchLabel (js "**Platforms:**") (trim (js "---")) = None
  /\ matchLabel (js "**Platform:**") (trim (js "---")) = None.
Proof. split; vm_compute; reflexivity. Qed.

Lemma platforms_line_no_genre (x : jsstring) :
  matchLabel (js "**Genre:**") (trim (js "**Platforms:** " ++ x)) = None.
Proof.
  apply matchLabel_literal_line;
    [vm_compute; reflexivity | vm_compute; discriminate | vm_compute; reflexivity].
Qed.

Lemma genre_label_nonempty : js "**Genre:**" <> [].
Proof. vm_compute. discriminate. Qed.

Lemma platforms_label_nonempty : js "**Platforms:**" <> [] /\ js "**Platform:**" <> [].
Proof. split; vm_compute; discriminate. Qed.

(** X3: a project exported to markdown and imported again keeps its name,
    genre and platforms, when name and genre are non-empty single lines
    without surrounding white space, the platforms are at least one and
    are such lines without a comma, the printed dates hold no line break
    and none of the first eleven lines of the sections' part matches the
    genre or the platforms pattern. *)
Theorem preamble_round_trip (p : project) (gdd : obj sectionData) :
  preambleReady e p gdd = true ->
  let imported := r_project (parseMarkdownImport e' (generateMarkdownExport e p gdd)) in
  p_name imported = p_name p
  /\ p_genre imported = p_genre p
  /\ p_platforms imported = p_platforms p.
Proof.
  unfold preambleReady. intros H.
  rewrite !andb_true_iff in H.
  destruct H as (((((((Hname & Hgenre) & Hlen) & Hps) & Hc) & Hu) & HnoG) & HnoP).
  assert (Hne : p_platforms p <> []).
  { intros E. rewrite E in Hlen. discriminate. }
  assert (no10 : forall s : jsstring,
             forallb (fun c => negb (c =? 10)) s = true -> ~ In 10 s).
  { intros s Hs Hin. rewrite forallb_forall in Hs. now specialize (Hs 10 Hin). }
  pose proof (join_plain _ Hne Hps) as HJ.
  pose proof (export_preamble_lines p gdd
                (proj2 (proj2 (proj2 (proj2 (plainField_parts _ Hname)))))
                (proj2 (proj2 (proj2 (proj2 (plainField_parts _ Hgenre)))))
                (proj2 (proj2 (proj2 (proj2 (plainField_parts _ HJ)))))
                (no10 _ Hc) (no10 _ Hu)) as Hlines.
  cbv zeta. rewrite imported_name, imported_genre, imported_platforms, Hlines.
  rewrite firstn_title_line, firstTitle_preamble by assumption.
  rewrite readHeader_nine_lines.
  split; [reflexivity|]. split.
  - rewrite readHeader_genre_kept by assumption.
    rewrite readMetaLine_genre_other
      by (apply blank_line_no_label, genre_label_nonempty).
    rewrite readMetaLine_genre_other by apply rule_line_no_genre.
    rewrite readMetaLine_genre_other
      by (apply blank_line_no_label, genre_label_nonempty).
    rewrite readMetaLine_genre_other by apply platforms_line_no_genre.
    rewrite readMetaLine_genre_line by assumption.
    destruct (plainField_parts _ Hgenre) as (Hg & _).
    apply nonEmpty_spec in Hg. now rewrite Hg.
  - rewrite readHeader_platforms_kept by assumption.
    rewrite readMetaLine_platforms_other
      by (apply blank_line_no_label, platforms_label_nonempty).
    rewrite readMetaLine_platforms_other by apply rule_line_no_platforms.
    rewrite readMetaLine_platforms_other
      by (apply blank_line_no_label, platforms_label_nonempty).
    rewrite readMetaLine_platforms_line by assumption.
    destruct (p_platforms p); [contradiction | reflexivity].
Qed.

End PreambleRoundTrip.

Lemma preamble_round_trip_witness :
  let imported := r_project (parseMarkdownImport sampleEnv
                    (generateMarkdownExport sampleEnv nebulaProject tidyGdd)) in
  p_name imported = p_name nebulaProject
  /\ p_genre imported = p_genre nebulaProject
  /\ p_platforms imported = p_platforms nebulaProject.
Proof.
  apply preamble_round_trip. vm_compute. reflexivity.
Defined.

(** ** Normalized titles *)

Section NormalizedTitles.

Lemma normal_unit_cases (c : Z) : isNormalUnit c = true -> In c normalUnits.
Proof.
  unfold isNormalUnit, normalUnits. intros H.
  apply in_map_iff. exists (Z.to_nat c).
  rewrite !orb_true_iff, !andb_true_iff, !Z.leb_le, !Z.eqb_eq in H.
  split; [lia|]. rewrite !in_app_iff, !in_seq. simpl. lia.
Qed.

(** A test that holds of the 38 units holds of every unit of a normalized
    title. *)
Lemma normal_unit_check (f : Z -> bool) (c : Z) :
  forallb f normalUnits = true -> isNormalUnit c = true -> f c = true.
Proof.
  intros Hf Hc. rewrite forallb_forall in Hf. apply Hf. now apply normal_unit_cases.
Qed.

Lemma normal_unit_space (c : Z) :
  isNormalUnit c = true -> isWhiteSpace c = (c =? 0x20).
Proof.
  intros Hc. apply eqb_prop.
  apply (normal_unit_check (fun c => Bool.eqb (isWhiteSpace c) (c =? 0x20)));
    [vm_compute; reflexivity | assumption].
Qed.

Lemma title_unit_normal (c : Z) :
  isTitleUnit c = true -> isWhiteSpace c = false -> isNormalUnit c = true.
Proof.
  unfold isTitleUnit, isNormalUnit. intros H Hw. rewrite Hw in H.
  rewrite !orb_true_iff in *. destruct H as [[[H|H]|H]|H]; auto; discriminate.
Qed.

Lemma space_is_white : isWhiteSpace 0x20 = true.
Proof. reflexivity. Qed.

Lemma white_not_space (c : Z) : isWhiteSpace c = false -> (c =? 0x20) = false.
Proof.
  intros H. destruct (Z.eqb_spec c 0x20) as [->|]; [|reflexivity].
  now rewrite space_is_white in H.
Qed.

(** What the collapse of white space runs leaves of title units. *)
Lemma replaceSpaceRuns_normal (inRun : bool) (s : jsstring) :
  forallb isTitleUnit s = true ->
  forallb isNormalUnit (replaceSpaceRuns (js " ") inRun s) = true
  /\ singleSpaced inRun (replaceSpaceRuns (js " ") inRun s) = true.
Proof.
  revert inRun. induction s as [|c s IH]; intros inRun H; [split; reflexivity|].
  simpl in H. apply andb_true_iff in H as [Hc H]. cbn [replaceSpaceRuns].
  destruct (isWhiteSpace c) eqn:Ew.
  - destruct (IH true H) as [IH1 IH2]. destruct inRun; cbn [app].
    + split; assumption.
    + change (js " " ++ ?x) with (0x20 :: x). cbn [forallb singleSpaced].
      rewrite IH1, IH2. split; reflexivity.
  - destruct (IH false H) as [IH1 IH2]. cbn [forallb singleSpaced].
    rewrite (title_unit_normal c Hc Ew), (white_not_space c Ew), IH1, IH2.
    split; reflexivity.
Qed.

Lemma singleSpaced_weaken (b : bool) (s : jsstring) :
  singleSpaced b s = true -> singleSpaced false s = true.
Proof.
  destruct s as [|c s]; [reflexivity|]. simpl.
  destruct (c =? 32); [|trivial]. destruct b; [discriminate | trivial].
Qed.

Lemma singleSpaced_suffix (b : bool) (w t : jsstring) :
  singleSpaced b (w ++ t) = true -> singleSpaced false t = true.
Proof.
  revert b. induction w as [|c w IH]; intros b; simpl.
  - apply singleSpaced_weaken.
  - destruct (c =? 32).
    + intros H. apply andb_true_iff in H as [_ H]. eauto.
    + eauto.
Qed.

Lemma singleSpaced_prefix (b : bool) (t w : jsstring) :
  singleSpaced b (t ++ w) = true -> singleSpaced b t = true.
Proof.
  revert b. induction t as [|c t IH]; intros b; simpl; [reflexivity|].
  destruct (c =? 32).
  - intros H. apply andb_true_iff in H as [-> H]. simpl. eauto.
  - eauto.
Qed.

Lemma trim_parts (s : jsstring) :
  exists w w', s = w ++ trim s ++ w'.
Proof.
  destruct (trimStart_prefix s) as (w & Hw & _).
  destruct (trimEnd_suffix (trimStart s)) as (w' & Hw' & _).
  exists w, w'. unfold trim. now rewrite <- Hw', <- Hw.
Qed.

Lemma toLowerCase_normal (s : jsstring) :
  forallb isNormalUnit s = true -> toLowerCase s = s.
Proof.
  unfold toLowerCase. induction s as [|c s IH]; simpl; [reflexivity|].
  intros H. apply andb_true_iff in H as [Hc H]. rewrite IH by assumption.
  assert (E : unitsEq (lowerUnit c) [c] = true).
  { apply (normal_unit_check (fun c => unitsEq (lowerUnit c) [c]));
      [vm_compute; reflexivity | assumption]. }
  apply unitsEq_spec in E. now rewrite E.
Qed.

Lemma stripEmoji_normal (s : jsstring) :
  forallb isNormalUnit s = true -> stripEmoji s = s.
Proof.
  induction s as [|c s IH]; [reflexivity|].
  intros H. cbn [forallb] in H. apply andb_true_iff in H as [Hc H].
  assert (E : negb (isHighSurrogate c) && negb (isEmojiPoint c) = true).
  { apply (normal_unit_check
             (fun c => negb (isHighSurrogate c) && negb (isEmojiPoint c)));
      [vm_compute; reflexivity | assumption]. }
  apply andb_true_iff in E as [Eh Ee].
  apply negb_true_iff in Eh, Ee.
  specialize (IH H). destruct s as [|d s].
  - cbn [stripEmoji]. now rewrite Ee.
  - change (stripEmoji (c :: d :: s))
      with (if isHighSurrogate c && isLowSurrogate d
            then if isEmojiPoint (codePoint c d) then stripEmoji s
                 else c :: d :: stripEmoji s
            else if isEmojiPoint c then stripEmoji (d :: s)
                 else c :: stripEmoji (d :: s)).
    rewrite Eh, Ee. cbn [andb]. now rewrite IH.
Qed.

Lemma filter_all {A} (f : A -> bool) (l : list A) :
  forallb f l = true -> filter f l = l.
Proof.
  induction l as [|a l IH]; simpl; [reflexivity|].
  intros H. apply andb_true_iff in H as [-> H]. now rewrite IH.
Qed.

Lemma normal_units_title (s : jsstring) :
  forallb isNormalUnit s = true -> forallb isTitleUnit s = true.
Proof.
  rewrite !forallb_forall. intros H c Hc.
  apply (normal_unit_check isTitleUnit); [vm_compute; reflexivity | auto].
Qed.

Lemma replaceSpaceRuns_fixed (b : bool) (s : jsstring) :
  forallb isNormalUnit s = true -> singleSpaced b s = true ->
  replaceSpaceRuns (js " ") b s = s.
Proof.
  revert b. induction s as [|c s IH]; intros b H Hs; [reflexivity|].
  simpl in H. apply andb_true_iff in H as [Hc H].
  cbn [replaceSpaceRuns]. cbn [singleSpaced] in Hs.
  rewrite (normal_unit_space c Hc).
  destruct (Z.eqb_spec c 0x20) as [->|Hne].
  - apply andb_true_iff in Hs as [Hb Hs]. apply negb_true_iff in Hb. subst b.
    rewrite IH by assumption. reflexivity.
  - now rewrite IH.
Qed.

Lemma normalized_units (title : jsstring) :
  forallb isNormalUnit (normalizeSectionTitle title) = true
  /\ singleSpaced false (normalizeSectionTitle title) = true.
Proof.
  unfold normalizeSectionTitle.
  set (kept := filter isTitleUnit (stripEmoji (toLowerCase title))).
  assert (Hk : forallb isTitleUnit kept = true).
  { apply forallb_forall. intros c Hc. now apply filter_In in Hc. }
  destruct (replaceSpaceRuns_normal false kept Hk) as [Hn Hs].
  set (r := replaceSpaceRuns (js " ") false kept) in *.
  destruct (trim_parts r) as (w & w' & Hr). split.
  - rewrite Hr, !forallb_app in Hn.
    apply andb_true_iff in Hn as [_ Hn]. now apply andb_true_iff in Hn as [Hn _].
  - rewrite Hr in Hs. apply singleSpaced_suffix in Hs.
    now apply singleSpaced_prefix in Hs.
Qed.

(** X4: a normalized title is made of the letters a to z, the digits, the
    ampersand and single spaces, none of them in front or at the end; and
    normalizing it again changes nothing. *)
Theorem normalizeSectionTitle_normal_form (title : jsstring) :
  let n := normalizeSectionTitle title in
  forallb isNormalUnit n = true
  /\ singleSpaced true n = true
  /\ trim n = n
  /\ normalizeSectionTitle n = n.
Proof.
  cbv zeta. destruct (normalized_units title) as [Hn Hs].
  assert (Ht : trim (normalizeSectionTitle title) = normalizeSectionTitle title).
  { unfold normalizeSectionTitle. apply trim_idempotent. }
  set (n := normalizeSectionTitle title) in *.
  assert (Hfront : singleSpaced true n = true).
  { destruct (trim_fixed_parts _ Ht) as [Hstart _].
    destruct n as [|c u]; [reflexivity|].
    destruct (trimStart_fixed_head (c :: u) Hstart ltac:(discriminate))
      as (c' & u' & Ecu & Hc').
    injection Ecu as <- <-. cbn [singleSpaced] in *.
    now rewrite (white_not_space c Hc') in *. }
  split; [assumption|]. split; [assumption|]. split; [assumption|].
  unfold normalizeSectionTitle.
  rewrite toLowerCase_normal, stripEmoji_normal by assumption.
  rewrite filter_all by now apply normal_units_title.
  now rewrite replaceSpaceRuns_fixed.
Qed.

(** Among the members a plain object inherits, only [constructor] is
    spelt with units of a normalized title. *)
Lemma inherited_normal_name (name : jsstring) :
  In name objectPrototypeNames -> forallb isNormalUnit name = true ->
  name = js "constructor".
Proof.
  intros Hin Hn.
  assert (H : forallb (fun name => implb (forallb isNormalUnit name)
                                         (unitsEq name (js "constructor")))
                      objectPrototypeNames = true)
    by (vm_compute; reflexivity).
  rewrite forallb_forall in H. specialize (H name Hin). rewrite Hn in H.
  now apply unitsEq_spec.
Qed.

Lemma constructor_inherited : In (js "constructor") objectPrototypeNames.
Proof. left. reflexivity. Qed.

(** X5: a level-2 heading line opens a section exactly when its normalized
    text is a normalized registry title or is "constructor"; no other
    member that the title table inherits can be named by a heading. *)
Theorem heading2_opens_registry_or_constructor (line : jsstring) :
  isHeading2 (trim line) = true ->
  (truthyRef (boundaryOf knownSectionTitles line) = true <->
   In (normalizedHeading line) normalizedTitles
   \/ normalizedHeading line = js "constructor").
Proof.
  intros H2. rewrite (heading2_opens_section line H2).
  split; (intros [H|H]; [now left | right]).
  - apply inherited_normal_name; [assumption|].
    apply (normalized_units (trim (stripHeadingMark (js "##") (trim line)))).
  - rewrite H. apply constructor_inherited.
Qed.

End NormalizedTitles.

Lemma heading2_opens_registry_or_constructor_witness :
  truthyRef (boundaryOf knownSectionTitles (js "## Gameplay Mechanics 🎮")) = true <->
  In (normalizedHeading (js "## Gameplay Mechanics 🎮")) normalizedTitles
  \/ normalizedHeading (js "## Gameplay Mechanics 🎮") = js "constructor".
Proof.
  apply heading2_opens_registry_or_constructor. vm_compute. reflexivity.
Defined.

(** ** The streamed reply *)

Section StreamedReply.

Variable parse : jsstring -> option json.
Variable toText : json -> jsstring.

Lemma chunkLines_app (c1 c2 : jsstring) :
  chunkLines (c1 ++ nl ++ c2) = chunkLines c1 ++ chunkLines c2.
Proof.
  unfold chunkLines, nl. cbn [app]. now rewrite split_app_sep, filter_app.
Qed.

Lemma readChunk_app (p : progress) (c1 c2 : jsstring) :
  readChunk parse toText p (c1 ++ nl ++ c2)
  = readChunk parse toText (readChunk parse toText p c1) c2.
Proof. unfold readChunk. now rewrite chunkLines_app, fold_left_app. Qed.

(** X6: where the reply is cut into chunks does not matter as long as the
    cuts are at line breaks: two chunks give the calls and the result of
    the one chunk that holds them with a line break between. *)
Theorem stream_chunks_cut_at_line_breaks (connected : bool)
    (c1 c2 : jsstring) (rest : reading) :
  streamGenerateWithOllama parse toText connected
    (ReadChunk c1 (ReadChunk c2 rest))
  = streamGenerateWithOllama parse toText connected
      (ReadChunk (c1 ++ nl ++ c2) rest).
Proof.
  unfold streamGenerateWithOllama. destruct connected; [|reflexivity].
  cbn [negb readAll]. now rewrite readChunk_app.
Qed.

Lemma running_start : running {| fullResponse := []; calls := [] |}.
Proof.
  split; [reflexivity|]. intros [|n] piece full H; discriminate.
Qed.

Lemma readLine_running (p : progress) (line : jsstring) :
  running p -> running (readLine parse toText p line).
Proof.
  intros [Hfull Hcalls]. unfold readLine.
  destruct (responsePiece parse toText line) as [piece|]; [|now split].
  unfold running. cbn [fullResponse calls]. split.
  - rewrite map_app, concat_app, Hfull. cbn. now rewrite app_nil_r.
  - intros n piece' full' Hn.
    destruct (Nat.lt_ge_cases n (List.length (calls p))) as [Hlt|Hge].
    + rewrite nth_error_app1 in Hn by assumption.
      rewrite firstn_app.
      replace (S n - List.length (calls p))%nat with 0%nat by lia.
      cbn [firstn]. rewrite app_nil_r. eauto.
    + rewrite nth_error_app2 in Hn by assumption.
      destruct (n - List.length (calls p))%nat as [|k] eqn:E.
      * cbn in Hn. injection Hn as <- <-.
        rewrite firstn_all2 by (rewrite length_app; cbn; lia).
        rewrite map_app, concat_app, Hfull. cbn. now rewrite app_nil_r.
      * cbn in Hn. destruct k; discriminate.
Qed.

Lemma readChunk_running (p : progress) (chunk : jsstring) :
  running p -> running (readChunk parse toText p chunk).
Proof.
  unfold readChunk. generalize (chunkLines chunk) as lines.
  intros lines. revert p. induction lines as [|l lines IH]; intros p H.
  - exact H.
  - cbn [fold_left]. apply IH. now apply readLine_running.
Qed.

Lemma readAll_running (r : reading) (p : progress) :
  running p -> running (fst (readAll parse toText r p)).
Proof.
  revert p. induction r as [chunk rest IH| |]; intros p H; cbn; auto.
  apply IH. now apply readChunk_running.
Qed.

Lemma readLines_pieces (lines : list jsstring) (p : progress) :
  map fst (calls (fold_left (readLine parse toText) lines p))
  = map fst (calls p) ++ pieces parse toText lines.
Proof.
  revert p. induction lines as [|line lines IH]; intros p.
  - cbn. now rewrite app_nil_r.
  - cbn [fold_left]. rewrite IH. unfold pieces. cbn [flat_map].
    unfold readLine.
    destruct (responsePiece parse toText line) as [piece|].
    + cbn [calls]. rewrite map_app, <- app_assoc. reflexivity.
    + reflexivity.
Qed.

Lemma pieces_app (a b : list jsstring) :
  pieces parse toText (a ++ b) = pieces parse toText a ++ pieces parse toText b.
Proof. unfold pieces. apply flat_map_app. Qed.

Lemma readAll_pieces (r : reading) (p : progress) :
  map fst (calls (fst (readAll parse toText r p)))
  = map fst (calls p)
    ++ pieces parse toText (flat_map (chunkLines) (chunksRead r))
  /\ snd (readAll parse toText r p) = endedNormally r.
Proof.
  revert p. induction r as [chunk rest IH| |]; intros p;
    cbn [readAll chunksRead endedNormally flat_map fst snd].
  - destruct (IH (readChunk parse toText p chunk)) as [Hc Hf].
    split; [|exact Hf]. rewrite Hc. unfold readChunk.
    now rewrite readLines_pieces, pieces_app, app_assoc.
  - unfold pieces. cbn. now rewrite app_nil_r.
  - unfold pieces. cbn. now rewrite app_nil_r.
Qed.

(** X7: with the service connected, the pieces given to [onChunk], in
    the order of the calls, are the pieces of the lines of the chunks
    read, and the result is all of them put end to end when the stream
    ends, [null] when the reading fails; each call is given the pieces so
    far, put end to end; without a connection no call is made and the
    result is [null]. *)
Theorem stream_result_is_pieces (connected : bool) (r : reading) :
  let made := fst (streamGenerateWithOllama parse toText connected r) in
  let result := snd (streamGenerateWithOllama parse toText connected r) in
  let read := pieces parse toText (flat_map chunkLines (chunksRead r)) in
  (connected = true ->
   map fst made = read
   /\ result = if endedNormally r then Some (List.concat read) else None)
  /\ (forall n piece full,
        nth_error made n = Some (piece, full) ->
        full = List.concat (map fst (firstn (S n) made)))
  /\ (connected = false -> made = [] /\ result = None).
Proof.
  cbv zeta. unfold streamGenerateWithOllama. destruct connected; cbn [negb].
  - pose proof (readAll_running r _ running_start) as [Hfull Hcalls].
    pose proof (readAll_pieces r {| fullResponse := []; calls := [] |})
      as [Hread Hend].
    destruct (readAll parse toText r {| fullResponse := []; calls := [] |})
      as [p finished].
    cbn [fst snd calls map app] in *.
    split; [|split; [exact Hcalls | discriminate]].
    intros _. split; [exact Hread|].
    rewrite <- Hend, <- Hread, <- Hfull. reflexivity.
  - cbn [fst snd]. split; [discriminate|]. split; [|auto].
    intros [|n] piece full H; discriminate.
Qed.

(** Without a call of [onChunk] the result, if any, is the empty text. *)
Lemma stream_silent (connected : bool) (r : reading) :
  fst (streamGenerateWithOllama parse toText connected r) = [] ->
  snd (streamGenerateWithOllama parse toText connected r) = None
  \/ snd (streamGenerateWithOllama parse toText connected r) = Some [].
Proof.
  intros Hmade.
  unfold streamGenerateWithOllama in *. destruct connected; cbn [negb] in *.
  - pose proof (readAll_running r _ running_start) as [Hfull _].
    destruct (readAll parse toText r {| fullResponse := []; calls := [] |})
      as [p finished].
    cbn [fst snd] in *. destruct finished; [right | now left].
    rewrite Hfull, Hmade. reflexivity.
  - now left.
Qed.

(** X8: a generation whose stream never gave [onChunk] a piece (the
    service is not connected, the request failed at once, or no line of
    the reply held a response) stores nothing: contents and project are as
    before. *)
Theorem generateSection_silent_stream (e : env) (contentEl connected : bool)
    (service : jsstring -> reading) (sectionId : jsstring) (st : state) :
  (forall prompt,
     fst (streamGenerateWithOllama parse toText connected (service prompt)) = []) ->
  let st' := generateSection e contentEl
               (fun prompt => snd (streamGenerateWithOllama parse toText connected
                                     (service prompt)))
               sectionId st in
  gddData st' = gddData st /\ currentProject st' = currentProject st.
Proof.
  intros Hsilent. cbv zeta. unfold generateSection.
  destruct (sectionPrompt e st sectionId) as [prompt|]; [|split; reflexivity].
  destruct contentEl; cbn [negb]; [|split; reflexivity].
  destruct (stream_silent connected (service prompt) (Hsilent prompt)) as [E|E];
    rewrite E; split; reflexivity.
Qed.

End StreamedReply.

(** A reply in two chunks, the second with a line cut short: the two
    whole lines give their pieces, the cut one is skipped. *)
Lemma stream_example :
  streamGenerateWithOllama sampleParse (fun _ => []) true sampleReading
  = ([ (js "Once ", js "Once "); (js "upon", js "Once upon") ],
     Some (js "Once upon")).
Proof. vm_compute. reflexivity. Qed.

Lemma stream_result_is_pieces_witness :
  map fst (fst (streamGenerateWithOllama sampleParse (fun _ => []) true
                  sampleReading))
  = [js "Once "; js "upon"]
  /\ snd (streamGenerateWithOllama sampleParse (fun _ => []) true
            sampleReading)
     = Some (js "Once upon").
Proof.
  destruct (stream_result_is_pieces sampleParse (fun _ => []) true
              sampleReading) as [H _].
  destruct (H eq_refl) as [Hmade Hresult].
  split.
  - rewrite Hmade. vm_compute. reflexivity.
  - rewrite Hresult. vm_compute. reflexivity.
Defined.

Lemma generateSection_silent_stream_witness :
  let st' := generateSection sampleEnv true
               (fun prompt => snd (streamGenerateWithOllama sampleParse
                                     (fun _ => []) true garbledReading))
               (js "story") storyState in
  gddData st' = gddData storyState
  /\ currentProject st' = currentProject storyState.
Proof.
  apply (generateSection_silent_stream sampleParse (fun _ => []) sampleEnv true
           true (fun _ => garbledReading) (js "story") storyState).
  intros prompt. vm_compute. reflexivity.
Defined.

(** ** Snapshots read back *)

Section Snapshots.

Lemma allSome_map_some {A B} (f : A -> B) (g : B -> option A) (l : list A) :
  (forall x, g (f x) = Some x) -> allSome (map g (map f l)) = Some l.
Proof.
  intros H. induction l as [|a l IH]; [reflexivity|].
  cbn [map allSome]. now rewrite H, IH.
Qed.

Lemma readArray_encoded {A} (encode : A -> json) (read : json -> option A)
    (l : list A) :
  (forall x, read (encode x) = Some x) ->
  readArray read (JArr (map encode l)) = Some l.
Proof. intros H. unfold readArray. now apply allSome_map_some. Qed.

Lemma readEntries_encoded {A} (encode : A -> json) (read : json -> option A)
    (o : obj A) :
  (forall x, read (encode x) = Some x) ->
  readEntries read (encodeEntries encode o) = Some o.
Proof.
  intros H. unfold readEntries, encodeEntries.
  induction o as [|[k v] o IH]; [reflexivity|].
  cbn [map allSome fst snd]. rewrite H. cbn [option_map].
  unfold obj in *. now rewrite IH.
Qed.

Lemma readSectionData_encoded (d : sectionData) :
  readSectionData (encodeSection d) = Some d.
Proof. destruct d as [[c|] [u|]]; vm_compute; reflexivity. Qed.

Lemma readDiagram_encoded (d : diagram) : readDiagram (encodeDiagram d) = Some d.
Proof. destruct d. vm_compute. reflexivity. Qed.

Lemma readChatTurn_encoded (m : chatTurn) :
  readChatTurn (encodeChatTurn m) = Some m.
Proof. destruct m as [[|] c]; vm_compute; reflexivity. Qed.

Lemma asString_encoded (s : jsstring) : asString (JStr s) = Some s.
Proof. reflexivity. Qed.

Lemma readProject_encoded (p : project) : readProject (encodeProject p) = Some p.
Proof.
  destruct p as [id name genre description platforms created updated].
  assert (Hps : allSome (map asString (map JStr platforms)) = Some platforms)
    by (apply allSome_map_some; reflexivity).
  unfold readProject.
  replace (field (js "name") _) with (Some (JStr name))
    by (destruct id, description; vm_compute; reflexivity).
  replace (field (js "genre") _) with (Some (JStr genre))
    by (destruct id, description; vm_compute; reflexivity).
  replace (field (js "platforms") _) with (Some (JArr (map JStr platforms)))
    by (destruct id, description; reflexivity).
  replace (field (js "createdAt") _) with (Some (JStr created))
    by (destruct id, description; vm_compute; reflexivity).
  replace (optionalNumber (js "id") _) with (Some id)
    by (destruct id, description; vm_compute; reflexivity).
  replace (optionalString (js "description") _) with (Some description)
    by (destruct id, description; vm_compute; reflexivity).
  replace (optionalString (js "updatedAt") _) with (Some (Some updated))
    by (destruct id, description; vm_compute; reflexivity).
  now rewrite Hps.
Qed.

(** X9: a project exported as JSON and imported from that file comes back
    whole: project, section contents, custom instructions, saved diagrams
    and chat history are those exported, the project's [updatedAt] is the
    time of the import, and the settings of the importing store (model,
    theme) stay. *)
Theorem json_export_import_round_trip (e e' : env) (st st0 : state)
    (data : json) :
  exportAsJson e st = Some data ->
  importProjectFile e' (JsonFile (Some data)) st0
  = Imported (touch e'
      {| currentProject := currentProject st;
         gddData := gddData st;
         sectionPrompts := sectionPrompts st;
         diagramHistory := diagramHistory st;
         chatHistory := chatHistory st;
         generatingSection := generatingSection st0;
         selectedModel := selectedModel st0;
         isDarkTheme := isDarkTheme st0 |}).
Proof.
  unfold exportAsJson. destruct (currentProject st) as [p|] eqn:Hp; [|discriminate].
  intros H. injection H as <-.
  set (data := JObj _).
  assert (Hproject : field (js "project") data = Some (encodeProject p))
    by (vm_compute; reflexivity).
  assert (Hgdd : field (js "gdd") data
                 = Some (encodeEntries encodeSection (gddData st)))
    by (vm_compute; reflexivity).
  assert (Hprompts : field (js "sectionPrompts") data
                     = Some (encodeEntries JStr (sectionPrompts st)))
    by (vm_compute; reflexivity).
  assert (Hdiagrams : field (js "diagramHistory") data
                      = Some (JArr (map encodeDiagram (diagramHistory st))))
    by (vm_compute; reflexivity).
  assert (Hchat : field (js "chatHistory") data
                  = Some (JArr (map encodeChatTurn (chatHistory st))))
    by (vm_compute; reflexivity).
  assert (Haccepted : parseJSONImport data = Accepted data).
  { unfold parseJSONImport, falsyField. subst data. cbv beta iota.
    set (data := JObj _) in *. rewrite Hproject, Hgdd. reflexivity. }
  assert (Hread : readSnapshot data
                  = Some {| r_project := p; r_gdd := gddData st;
                            r_sectionPrompts := Some (sectionPrompts st);
                            r_diagramHistory := Some (diagramHistory st);
                            r_chatHistory := Some (chatHistory st) |}).
  { unfold readSnapshot, optionalPart.
    rewrite Hproject, Hgdd, Hprompts, Hdiagrams, Hchat.
    rewrite readProject_encoded.
    rewrite (readEntries_encoded encodeSection readSectionData)
      by apply readSectionData_encoded.
    cbn [truthy encodeEntries].
    change (JObj (map (fun kv => (fst kv, JStr (snd kv))) (sectionPrompts st)))
      with (encodeEntries JStr (sectionPrompts st)).
    rewrite (readEntries_encoded JStr asString) by apply asString_encoded.
    rewrite (readArray_encoded encodeDiagram readDiagram)
      by apply readDiagram_encoded.
    rewrite (readArray_encoded encodeChatTurn readChatTurn)
      by apply readChatTurn_encoded.
    reflexivity. }
  unfold importProjectFile. rewrite Haccepted, Hread. reflexivity.
Qed.

(** X10: what [saveState] stores, [loadState] reads back: project,
    section contents, custom instructions, saved diagrams and theme are
    those saved, and the model too unless its name was empty, which gives
    the default model.  The chat history is not stored: after loading it
    is the one the store had before. *)
Theorem saveState_loadState_round_trip (st st0 : state) :
  loadState (Parsed (saveState st)) st0
  = Some {| currentProject := currentProject st;
            gddData := gddData st;
            sectionPrompts := sectionPrompts st;
            diagramHistory := diagramHistory st;
            chatHistory := chatHistory st0;
            generatingSection := generatingSection st0;
            selectedModel := if nonEmpty (selectedModel st)
                             then selectedModel st else defaultModel;
            isDarkTheme := isDarkTheme st |}.
Proof.
  unfold saveState. set (data := JObj _).
  assert (Hproject : field (js "currentProject") data
                     = Some match currentProject st with
                            | Some p => encodeProject p
                            | None => JNull
                            end)
    by (vm_compute; reflexivity).
  assert (Hgdd : field (js "gddData") data
                 = Some (encodeEntries encodeSection (gddData st)))
    by (vm_compute; reflexivity).
  assert (Hmodel : field (js "selectedModel") data = Some (JStr (selectedModel st)))
    by (vm_compute; reflexivity).
  assert (Htheme : field (js "isDarkTheme") data = Some (JBool (isDarkTheme st)))
    by (vm_compute; reflexivity).
  assert (Hdiagrams : field (js "diagramHistory") data
                      = Some (JArr (map encodeDiagram (diagramHistory st))))
    by (vm_compute; reflexivity).
  assert (Hprompts : field (js "sectionPrompts") data
                     = Some (encodeEntries JStr (sectionPrompts st)))
    by (vm_compute; reflexivity).
  unfold loadState. subst data. cbv beta iota. set (data := JObj _) in *.
  unfold orDefault.
  rewrite Hproject, Hgdd, Hmodel, Htheme, Hdiagrams, Hprompts.
  assert (Hp : (if truthy match currentProject st with
                          | Some p => encodeProject p
                          | None => JNull
                          end
                then option_map Some
                       (readProject match currentProject st with
                                    | Some p => encodeProject p
                                    | None => JNull
                                    end)
                else Some None)
               = Some (currentProject st)).
  { destruct (currentProject st) as [p|]; [|reflexivity].
    rewrite readProject_encoded. reflexivity. }
  rewrite Hp.
  cbn [truthy encodeEntries].
  change (JObj (map (fun kv => (fst kv, encodeSection (snd kv))) (gddData st)))
    with (encodeEntries encodeSection (gddData st)).
  change (JObj (map (fun kv => (fst kv, JStr (snd kv))) (sectionPrompts st)))
    with (encodeEntries JStr (sectionPrompts st)).
  rewrite (readEntries_encoded encodeSection readSectionData)
    by apply readSectionData_encoded.
  rewrite (readEntries_encoded JStr asString) by apply asString_encoded.
  rewrite (readArray_encoded encodeDiagram readDiagram)
    by apply readDiagram_encoded.
  fold (nonEmpty (selectedModel st)). cbn [asString].
  destruct (nonEmpty (selectedModel st)), (isDarkTheme st); reflexivity.
Qed.

End Snapshots.

Lemma json_export_import_round_trip_witness :
  exists data,
    exportAsJson sampleEnv storyState = Some data
    /\ importProjectFile sampleEnv (JsonFile (Some data)) initialState
       = Imported (touch sampleEnv
           {| currentProject := currentProject storyState;
              gddData := gddData storyState;
              sectionPrompts := sectionPrompts storyState;
              diagramHistory := diagramHistory storyState;
              chatHistory := chatHistory storyState;
              generatingSection := generatingSection initialState;
              selectedModel := selectedModel initialState;
              isDarkTheme := isDarkTheme initialState |}).
Proof.
  assert (H : exportAsJson sampleEnv storyState
              = Some (JObj [ (js "project", encodeProject nebulaProject);
                   (js "gdd", encodeEntries encodeSection (gddData storyState));
                   (js "sectionPrompts",
                    encodeEntries JStr (sectionPrompts storyState));
                   (js "diagramHistory",
                    JArr (map encodeDiagram (diagramHistory storyState)));
                   (js "chatHistory",
                    JArr (map encodeChatTurn (chatHistory storyState)));
                   (js "exportedAt", JStr (nowISO sampleEnv));
                   (js "version", JStr (js "1.1")) ]))
    by (vm_compute; reflexivity).
  eexists. split; [exact H|].
  exact (json_export_import_round_trip sampleEnv sampleEnv storyState
           initialState _ H).
Defined.

(** ** Diagrams: generated code and the saved list *)

Section DiagramCode.

Lemma startsWith_prefix (k s : jsstring) :
  startsWith k s = true -> exists rest, s = k ++ rest.
Proof.
  revert s. induction k as [|a k IH]; intros s H; [now exists s|].
  destruct s as [|b s]; [discriminate|]. simpl in H.
  apply andb_true_iff in H as [Hab H]. apply Z.eqb_eq in Hab. subst b.
  destruct (IH s H) as [rest ->]. now exists rest.
Qed.

Lemma includes_occursIn (s k : jsstring) : includes s k = true -> occursIn k s.
Proof.
  induction s as [|c s IH]; simpl; intros H.
  - rewrite orb_false_r in H. destruct (startsWith_prefix k [] H) as [rest E].
    exists [], rest. exact E.
  - apply orb_true_iff in H as [H|H].
    + destruct (startsWith_prefix k (c :: s) H) as [rest E].
      exists [], rest. exact E.
    + destruct (IH H) as (before & after & ->).
      exists (c :: before), after. reflexivity.
Qed.

(** A text that does not hold [k] has no part that holds it. *)
Lemma includes_part (a b c k : jsstring) :
  includes (a ++ b ++ c) k = false -> includes b k = false.
Proof.
  intros H. destruct (includes b k) eqn:E; [|reflexivity].
  apply includes_occursIn in E as (before & after & ->).
  rewrite <- H. symmetry.
  replace (a ++ (before ++ k ++ after) ++ c)
    with ((a ++ before) ++ k ++ (after ++ c))
    by (now rewrite <- !app_assoc).
  apply includes_app.
Qed.

Lemma removeAllFrom_skip (pattern : jsstring) (k : nat) (s : jsstring) :
  removeAllFrom pattern k s = removeAll pattern (skipn k s).
Proof.
  unfold removeAll. revert k. induction s as [|c s IH]; intros k.
  - now destruct k.
  - destruct k as [|k]; [reflexivity|]. cbn [removeAllFrom skipn]. apply IH.
Qed.

(** [removeAll] of the fence, one step. *)
Lemma removeAll_fence_step (c : Z) (r : jsstring) :
  removeAll fence (c :: r)
  = if startsWith fence (c :: r) then removeAll fence (skipn 2 r)
    else c :: removeAll fence r.
Proof.
  unfold removeAll at 1. cbn [removeAllFrom].
  replace (nonEmpty fence) with true by reflexivity. cbn [andb].
  destruct (startsWith fence (c :: r)); [|reflexivity].
  apply removeAllFrom_skip.
Qed.

(** What is left of a text once its fences are removed holds no fence, and
    opens with a backtick, or with two, only if the text did. *)
Lemma removeAll_fence_bounded (n : nat) (s : jsstring) :
  (List.length s <= n)%nat ->
  includes (removeAll fence s) fence = false
  /\ (startsWith [0x60] (removeAll fence s) = true ->
      startsWith [0x60] s = true)
  /\ (startsWith [0x60; 0x60] (removeAll fence s) = true ->
      startsWith [0x60; 0x60] s = true).
Proof.
  revert s. induction n as [|n IH]; intros s Hlen.
  - destruct s; [|simpl in Hlen; lia]. split; [reflexivity|]. split; discriminate.
  - destruct s as [|c r]; [split; [reflexivity|]; split; discriminate|].
    simpl in Hlen. rewrite removeAll_fence_step.
    destruct (startsWith fence (c :: r)) eqn:Em.
    + destruct (startsWith_prefix _ _ Em) as [rest E].
      unfold fence in E. cbn [app] in E. injection E as -> ->.
      cbn [skipn]. destruct (IH rest) as (H0 & _ & _); [simpl in Hlen; lia|].
      split; [exact H0|]. split; reflexivity.
    + destruct (IH r) as (H0 & H1 & H2); [lia|].
      assert (Hc : forall x : jsstring,
                 startsWith [0x60] (c :: x) = (c =? 0x60))
        by (intros x; cbn [startsWith]; now rewrite Z.eqb_sym, andb_true_r).
      assert (Hcc : forall x : jsstring,
                 startsWith [0x60; 0x60] (c :: x)
                 = (c =? 0x60) && startsWith [0x60] x)
        by (intros x; cbn [startsWith]; now rewrite Z.eqb_sym).
      assert (Hccc : forall x : jsstring,
                 startsWith fence (c :: x)
                 = (c =? 0x60) && startsWith [0x60; 0x60] x)
        by (intros x; unfold fence; cbn [startsWith]; now rewrite Z.eqb_sym).
      split; [|split].
      * cbn [includes]. rewrite H0, orb_false_r. rewrite Hccc in *.
        destruct (c =? 0x60); [|reflexivity]. cbn [andb] in *.
        destruct (startsWith [0x60; 0x60] (removeAll fence r)) eqn:E;
          [|reflexivity].
        rewrite (H2 eq_refl) in Em. discriminate.
      * now rewrite !Hc.
      * rewrite !Hcc. intros H. apply andb_true_iff in H as [-> H].
        now rewrite (H1 H).
Qed.

(** X11: the code that [generateDiagram] puts in the editor holds no code
    fence, whatever the service answered. *)
Theorem cleanDiagramCode_no_fence (response : jsstring) :
  includes (cleanDiagramCode response) fence = false.
Proof.
  unfold cleanDiagramCode.
  set (x := removeAll fence (removeAll (fence ++ js "mermaid") response)).
  destruct (trim_parts x) as (w & w' & Hx).
  apply (includes_part w (trim x) w'). rewrite <- Hx.
  apply (removeAll_fence_bounded (List.length (removeAll (fence ++ js "mermaid") response))).
  lia.
Qed.

Lemma find_head {A} (f : A -> bool) (a : A) (l : list A) :
  f a = true -> find f (a :: l) = Some a.
Proof. intros H. simpl. now rewrite H. Qed.

Lemma pop_head {A} (a b : A) (l : list A) : pop (a :: b :: l) = a :: pop (b :: l).
Proof. reflexivity. Qed.

(** X12: a diagram just saved is the one [loadDiagram] finds under its
    id, even when an older diagram was saved in the same millisecond and
    has the same id: code (trimmed) and type come back. *)
Theorem saveDiagram_then_loadDiagram (e : env) (codeField type : jsstring)
    (st : state) :
  trim codeField <> [] ->
  loadDiagram (inject_Z (nowMs e)) (saveDiagram e codeField type st)
  = Some (trim codeField, type).
Proof.
  intros Hcode. unfold loadDiagram.
  rewrite (saveDiagram_stored e codeField type st Hcode). cbv zeta.
  set (d := {| d_id := inject_Z (nowMs e); d_type := type;
               d_label := diagramLabel type; d_code := trim codeField;
               d_createdAt := nowISO e |}).
  assert (Hd : Qeq_bool (d_id d) (inject_Z (nowMs e)) = true)
    by (apply Qeq_bool_iff; reflexivity).
  destruct (20 <=? List.length (diagramHistory st))%nat eqn:Hover.
  - destruct (diagramHistory st) as [|b l]; [discriminate|].
    rewrite pop_head, find_head by exact Hd. reflexivity.
  - rewrite find_head by exact Hd. reflexivity.
Qed.

Lemma find_filter {A} (f g : A -> bool) (l : list A) :
  (forall a, f a = true -> g a = true) ->
  find f (filter g l) = find f l.
Proof.
  intros H. induction l as [|a l IH]; [reflexivity|]. simpl.
  destruct (g a) eqn:Eg; simpl.
  - now rewrite IH.
  - destruct (f a) eqn:Ef; [|exact IH].
    rewrite (H a Ef) in Eg. discriminate.
Qed.

Lemma find_none_filter {A} (f : A -> bool) (l : list A) :
  find f (filter (fun a => negb (f a)) l) = None.
Proof.
  induction l as [|a l IH]; [reflexivity|]. simpl.
  destruct (f a) eqn:Ef; simpl; [exact IH|]. now rewrite Ef.
Qed.

(** X13: after [deleteDiagram] no diagram is found under the deleted id
    (all entries with that id go, not only one), and every other id loads
    what it loaded before. *)
Theorem deleteDiagram_removes_id (id : Q) (st : state) :
  loadDiagram id (deleteDiagram id st) = None
  /\ (forall d, In d (diagramHistory (deleteDiagram id st)) ->
                In d (diagramHistory st) /\ Qeq_bool (d_id d) id = false)
  /\ (forall other, Qeq_bool other id = false ->
        loadDiagram other (deleteDiagram id st) = loadDiagram other st).
Proof.
  unfold loadDiagram, deleteDiagram. cbn [diagramHistory withDiagrams].
  split; [|split].
  - now rewrite (find_none_filter (fun d => Qeq_bool (d_id d) id)).
  - intros d Hd. apply filter_In in Hd as [Hin Hne].
    split; [assumption|]. now apply negb_true_iff.
  - intros other Hother. rewrite find_filter; [reflexivity|].
    intros d Hd. apply negb_true_iff.
    destruct (Qeq_bool (d_id d) id) eqn:E; [|reflexivity].
    apply Qeq_bool_iff in Hd, E.
    assert (Hoi : Qeq_bool other id = true).
    { apply Qeq_bool_iff. now rewrite <- Hd. }
    rewrite Hoi in Hother. discriminate.
Qed.

End DiagramCode.

Lemma saveDiagram_then_loadDiagram_witness :
  loadDiagram (inject_Z (nowMs sampleEnv))
    (saveDiagram sampleEnv (js " graph TD; A-->B ") (js "gameloop")
       fullDiagramState)
  = Some (trim (js " graph TD; A-->B "), js "gameloop").
Proof.
  apply saveDiagram_then_loadDiagram. vm_compute. discriminate.
Defined.

(** ** Chat: what the assistant is shown *)

Section ChatContext.

Variable e : env.

Lemma occursIn_refl (a : jsstring) : occursIn a a.
Proof. exists [], []. now rewrite app_nil_r. Qed.

Lemma occursIn_trans (a b c : jsstring) :
  occursIn a b -> occursIn b c -> occursIn a c.
Proof.
  intros (x & y & ->) (x' & y' & ->). exists (x' ++ x), (y ++ y').
  now rewrite <- !app_assoc.
Qed.

Lemma occursIn_before (a s t : jsstring) : occursIn a s -> occursIn a (s ++ t).
Proof.
  intros (x & y & ->). exists x, (y ++ t). now rewrite <- !app_assoc.
Qed.

Lemma occursIn_concat {A} (f : A -> jsstring) (x : A) (l : list A) :
  In x l -> occursIn (f x) (List.concat (map f l)).
Proof.
  induction l as [|a l IH]; [intros []|]. intros [->|H]; cbn [map List.concat].
  - apply occursIn_here.
  - apply occursIn_later. auto.
Qed.

Lemma occursIn_join (sep x : jsstring) (l : list jsstring) :
  In x l -> occursIn x (join sep l).
Proof.
  induction l as [|a l IH]; [intros []|]. intros [->|H].
  - destruct l; [apply occursIn_refl|]. rewrite join_cons by discriminate.
    apply occursIn_here.
  - destruct l as [|b l]; [destruct H|]. rewrite join_cons by discriminate.
    apply occursIn_later, occursIn_later. auto.
Qed.

Lemma isRelevant_spec (ids : list jsstring) (s : sectionDef) :
  isRelevant ids s = true <-> In (s_id s) ids.
Proof.
  unfold isRelevant. rewrite existsb_exists. split.
  - intros (x & Hx & E). apply unitsEq_spec in E. now subst.
  - intros H. exists (s_id s). split; [assumption | apply unitsEq_refl].
Qed.

Lemma relevantBlock_in_prompt (st : state) (ids : list jsstring) :
  currentProject st <> None ->
  occursIn (relevantBlock st ids) (chatSystemPrompt (chatGddContext e st ids)).
Proof.
  intros Hp. unfold chatSystemPrompt, chatGddContext.
  destruct (currentProject st) as [p|]; [|contradiction].
  rewrite <- !app_assoc. locate_part.
Qed.

Lemma summariesBlock_in_prompt (st : state) (ids : list jsstring) :
  currentProject st <> None ->
  occursIn (summariesBlock st ids) (chatSystemPrompt (chatGddContext e st ids)).
Proof.
  intros Hp. unfold chatSystemPrompt, chatGddContext.
  destruct (currentProject st) as [p|]; [|contradiction].
  rewrite <- !app_assoc. locate_part.
Qed.

Lemma emptyBlock_in_prompt (st : state) (ids : list jsstring) :
  currentProject st <> None ->
  occursIn (emptyBlock st) (chatSystemPrompt (chatGddContext e st ids)).
Proof.
  intros Hp. unfold chatSystemPrompt, chatGddContext.
  destruct (currentProject st) as [p|]; [|contradiction].
  rewrite <- !app_assoc. locate_part.
Qed.

(** X14: with a project open, the system prompt of a chat message
    accounts for every section of the registry: a filled section that the
    detector named is quoted in full (its content trimmed), a filled
    section it did not name is summarised, and a section without content
    is listed by its title among the empty ones. *)
Theorem chat_prompt_covers_registry (st : state) (message : jsstring)
    (s : sectionDef) :
  currentProject st <> None ->
  In s GDD_SECTIONS ->
  let ids := detectRelevantSections st message in
  let systemPrompt := chatSystemPrompt (chatGddContext e st ids) in
  (isFilled st (s_id s) = true -> In (s_id s) ids ->
     occursIn (fullEntry st s) systemPrompt)
  /\ (isFilled st (s_id s) = true -> ~ In (s_id s) ids ->
        occursIn (summaryEntry st s) systemPrompt)
  /\ (isFilled st (s_id s) = false ->
        occursIn (s_title s) (emptyBlock st)
        /\ occursIn (emptyBlock st) systemPrompt).
Proof.
  intros Hp Hs. cbv zeta.
  set (ids := detectRelevantSections st message).
  split; [|split].
  - intros Hf Hr.
    eapply occursIn_trans; [|apply (relevantBlock_in_prompt st ids Hp)].
    assert (Hin : In s (relevantSections st ids)).
    { unfold relevantSections. rewrite !filter_In.
      split; [split; assumption | now apply isRelevant_spec]. }
    unfold relevantBlock.
    destruct (relevantSections st ids) as [|a l]; [destruct Hin|].
    apply occursIn_later, occursIn_later, occursIn_later.
    now apply occursIn_concat.
  - intros Hf Hr.
    eapply occursIn_trans; [|apply (summariesBlock_in_prompt st ids Hp)].
    assert (Hin : In s (summarisedSections st ids)).
    { unfold summarisedSections. rewrite !filter_In.
      split; [split; assumption|]. apply negb_true_iff.
      destruct (isRelevant ids s) eqn:E; [|reflexivity].
      apply isRelevant_spec in E. contradiction. }
    unfold summariesBlock.
    destruct (summarisedSections st ids) as [|a l]; [destruct Hin|].
    apply occursIn_later, occursIn_later, occursIn_later.
    now apply occursIn_concat.
  - intros Hf. split; [|now apply emptyBlock_in_prompt].
    unfold emptyBlock.
    assert (Hin : In s (emptySections st)).
    { unfold emptySections. rewrite filter_In. split; [assumption|].
      now rewrite Hf. }
    destruct (emptySections st) as [|a l] eqn:E; [destruct Hin|].
    apply occursIn_later, occursIn_later, occursIn_before.
    apply occursIn_join. now apply in_map.
Qed.

Lemma lastTurns_push (h : list chatTurn) (u a : chatTurn) :
  lastTurns 10 (h ++ [u; a]) = lastTurns 8 h ++ [u; a].
Proof.
  unfold lastTurns. rewrite length_app. cbn [List.length].
  destruct (Nat.le_gt_cases (List.length h) 8) as [Hle|Hgt].
  - replace (List.length h + 2 - 10)%nat with 0%nat by lia.
    replace (List.length h - 8)%nat with 0%nat by lia. reflexivity.
  - replace (List.length h + 2 - 10)%nat with (List.length h - 8)%nat by lia.
    rewrite skipn_app.
    replace (List.length h - 8 - List.length h)%nat with 0%nat by lia.
    reflexivity.
Qed.

(** X15: sending a message that is not blank asks the service once, with
    the chat prompt made of the last ten turns and the trimmed message and
    with the system prompt made for the sections the message is about,
    and adds two turns to the chat history: the trimmed message and the
    reply of the service to that request (empty when it gave none).
    Nothing else is touched; the context of the next message is then the
    last eight turns from before, this message and its reply. *)
Theorem sendMessage_extends_history
    (complete : jsstring -> jsstring -> option jsstring)
    (inputValue : jsstring) (st : state) :
  trim inputValue <> [] ->
  let message := trim inputValue in
  let response :=
    complete (chatPrompt (buildChatContext st) message)
      (chatSystemPrompt
         (chatGddContext e st (detectRelevantSections st message))) in
  let reply := {| role := Assistant;
                  c_content := match response with
                               | Some text => text
                               | None => []
                               end |} in
  let st' := sendMessage e complete inputValue st in
  chatHistory st'
  = chatHistory st ++ [ {| role := User; c_content := message |}; reply ]
  /\ lastTurns 10 (chatHistory st')
     = lastTurns 8 (chatHistory st)
       ++ [ {| role := User; c_content := message |}; reply ]
  /\ st' = withChat (chatHistory st') st.
Proof.
  intros Hm. cbv zeta. unfold sendMessage.
  apply nonEmpty_spec in Hm. rewrite Hm. cbn [negb].
  cbn [chatHistory withChat]. unfold userTurn, assistantTurn.
  split; [reflexivity|]. split; [apply lastTurns_push | reflexivity].
Qed.

End ChatContext.

Lemma chat_prompt_covers_registry_witness :
  let ids := detectRelevantSections storyState (js "How does the story end?") in
  let systemPrompt :=
    chatSystemPrompt (chatGddContext sampleEnv storyState ids) in
  (isFilled storyState (s_id storySection) = true ->
   In (s_id storySection) ids ->
     occursIn (fullEntry storyState storySection) systemPrompt)
  /\ (isFilled storyState (s_id storySection) = true ->
      ~ In (s_id storySection) ids ->
        occursIn (summaryEntry storyState storySection) systemPrompt)
  /\ (isFilled storyState (s_id storySection) = false ->
        occursIn (s_title storySection) (emptyBlock storyState)
        /\ occursIn (emptyBlock storyState) systemPrompt).
Proof.
  apply chat_prompt_covers_registry.
  - vm_compute. discriminate.
  - right. right. left. reflexivity.
Defined.

(** A service that answers when the prompt holds the question and the
    system prompt holds the story: the reply is stored. *)
Lemma sendMessage_extends_history_witness :
  let service := fun prompt systemPrompt : jsstring =>
                   if includes prompt (js "User: How does the story end?")
                      && includes systemPrompt (js "### Story & Narrative")
                   then Some (js "It ends well.")
                   else None in
  let st' := sendMessage sampleEnv service (js " How does the story end? ")
               storyState in
  chatHistory st'
  = chatHistory storyState
    ++ [ {| role := User; c_content := js "How does the story end?" |}
       ; {| role := Assistant; c_content := js "It ends well." |} ]
  /\ st' = withChat (chatHistory st') storyState.
Proof.
  cbv zeta.
  destruct (sendMessage_extends_history sampleEnv
              (fun prompt systemPrompt : jsstring =>
                 if includes prompt (js "User: How does the story end?")
                    && includes systemPrompt (js "### Story & Narrative")
                 then Some (js "It ends well.")
                 else None)
              (js " How does the story end? ") storyState)
    as (Hh & _ & Hst); [vm_compute; discriminate|].
  split; [|exact Hst].
  rewrite Hh. vm_compute. reflexivity.
Defined.

(** ** Custom instructions across generations *)

Section Instructions.

Variable e : env.

(** No registry section is called [__proto__]. *)
Lemma findSection_not_proto (sectionId : jsstring) (section : sectionDef) :
  findSection sectionId = Some section ->
  unitsEq sectionId (js "__proto__") = false.
Proof.
  intros H. destruct (unitsEq sectionId (js "__proto__")) eqn:E;
    [|reflexivity].
  apply unitsEq_spec in E. subst sectionId. vm_compute in H. discriminate.
Qed.

Lemma inRegistry_not_proto (sectionId : jsstring) :
  inRegistry sectionId = true -> unitsEq sectionId (js "__proto__") = false.
Proof.
  intros H. destruct (unitsEq sectionId (js "__proto__")) eqn:E;
    [|reflexivity].
  apply unitsEq_spec in E. subst sectionId. vm_compute in H. discriminate.
Qed.

(** X16: an instruction typed for a section stays stored after the
    generation it was typed for.  When that generation stored a text that
    is not blank, the section is in update mode from then on: generating
    it again sends the update prompt with the same instruction and the
    new content. *)
Theorem instruction_stays_after_generation
    (complete : jsstring -> option jsstring)
    (value response sectionId : jsstring) (section : sectionDef) (st : state) :
  findSection sectionId = Some section ->
  currentProject st <> None ->
  value <> [] ->
  trim response <> [] ->
  (forall prompt, complete prompt = Some response) ->
  let st' := generateSectionWithPrompt e (Some value) true complete sectionId st in
  customPromptOf st' sectionId = value
  /\ existingContentOf st' sectionId = trim response
  /\ isUpdate st' sectionId = true
  /\ exists p, currentProject st' = Some p
       /\ sectionPrompt e st' sectionId
          = Some (updatePrompt e p section (trim response) value).
Proof.
  intros Hsec Hp Hv Hr Hc. cbv zeta.
  unfold generateSectionWithPrompt, generateSection.
  unfold assignPrompt. rewrite (findSection_not_proto _ _ Hsec).
  cbn [andb].
  set (st1 := withPrompts (set sectionId value (sectionPrompts st)) st).
  assert (Hprompt : exists prompt, sectionPrompt e st1 sectionId = Some prompt).
  { unfold sectionPrompt. rewrite Hsec. subst st1. cbn [currentProject withPrompts].
    destruct (currentProject st); [eauto | contradiction]. }
  destruct Hprompt as [prompt Hprompt]. rewrite Hprompt, Hc. cbn [negb].
  assert (Hne : nonEmpty response = true).
  { apply nonEmpty_spec. intros ->. now apply Hr. }
  rewrite Hne.
  set (st' := touch e _).
  assert (Hcustom : customPromptOf st' sectionId = value).
  { unfold customPromptOf. subst st' st1.
    cbn [sectionPrompts touch withGddData withGenerating withPrompts].
    now rewrite get_set_same. }
  assert (Hcontent : existingContentOf st' sectionId = trim response).
  { unfold existingContentOf. subst st' st1.
    cbn [gddData touch withGddData withGenerating withPrompts].
    now rewrite get_set_same. }
  assert (Hupdate : isUpdate st' sectionId = true).
  { apply isUpdate_spec. rewrite Hcustom, Hcontent. now split. }
  split; [assumption|]. split; [assumption|]. split; [assumption|].
  destruct (currentProject st') as [p|] eqn:Ep.
  - exists p. split; [reflexivity|]. unfold sectionPrompt.
    now rewrite Hsec, Ep, Hupdate, Hcustom, Hcontent.
  - exfalso. subst st' st1.
    cbn [currentProject touch withGddData withGenerating withPrompts] in Ep.
    destruct (currentProject st); [discriminate | contradiction].
Qed.

(** X17: clearing the instruction of a registry section stores the
    empty text under its id and puts the section out of update mode,
    whatever it holds: with a project open, the next generation sends the
    fresh prompt without an instruction.  The instructions of the other
    sections and everything else in the store stay as they were. *)
Theorem clearSectionPrompt_leaves_update_mode (sectionId : jsstring)
    (st : state) :
  inRegistry sectionId = true ->
  let st' := clearSectionPrompt sectionId st in
  get sectionId (sectionPrompts st') = Some []
  /\ customPromptOf st' sectionId = []
  /\ isUpdate st' sectionId = false
  /\ (forall section p,
        findSection sectionId = Some section ->
        currentProject st = Some p ->
        sectionPrompt e st' sectionId
        = Some (freshPrompt e p section
                  (otherSections (gddData st) sectionId) []))
  /\ (forall other, other <> sectionId ->
        get other (sectionPrompts st') = get other (sectionPrompts st))
  /\ (forall other, inRegistry other = true -> other <> sectionId ->
        customPromptOf st' other = customPromptOf st other
        /\ isUpdate st' other = isUpdate st other)
  /\ st' = withPrompts (sectionPrompts st') st.
Proof.
  intros Hreg. cbv zeta. unfold clearSectionPrompt, assignPrompt.
  rewrite (inRegistry_not_proto _ Hreg). cbn [andb].
  match goal with
  | |- context [withPrompts ?prompts st] => set (st' := withPrompts prompts st)
  end.
  assert (Hg : get sectionId (sectionPrompts st') = Some []).
  { subst st'. cbn [sectionPrompts withPrompts]. apply get_set_same. }
  assert (Hc : customPromptOf st' sectionId = []).
  { unfold customPromptOf. now rewrite Hg. }
  assert (Hu : isUpdate st' sectionId = false).
  { unfold isUpdate. rewrite Hc. apply andb_false_r. }
  assert (Ho : forall other, other <> sectionId ->
                 get other (sectionPrompts st') = get other (sectionPrompts st)).
  { intros other Hother. subst st'. cbn [sectionPrompts withPrompts].
    now apply get_set_other. }
  split; [exact Hg|]. split; [exact Hc|]. split; [exact Hu|].
  split; [|split; [exact Ho | split; [|reflexivity]]].
  - intros section p Hsec Hp. unfold sectionPrompt.
    assert (Hp' : currentProject st' = Some p) by exact Hp.
    rewrite Hsec, Hp', Hu, Hc. reflexivity.
  - intros other _ Hother.
    assert (Hco : customPromptOf st' other = customPromptOf st other).
    { unfold customPromptOf. now rewrite (Ho other Hother). }
    split; [exact Hco|]. unfold isUpdate. rewrite Hco. reflexivity.
Qed.

End Instructions.

Lemma instruction_stays_after_generation_witness :
  let st' := generateSectionWithPrompt sampleEnv (Some (js "Add a rival."))
               true (fun _ => Some (js "The rival appears."))
               (js "story") storyState in
  customPromptOf st' (js "story") = js "Add a rival."
  /\ existingContentOf st' (js "story") = trim (js "The rival appears.")
  /\ isUpdate st' (js "story") = true
  /\ exists p, currentProject st' = Some p
       /\ sectionPrompt sampleEnv st' (js "story")
          = Some (updatePrompt sampleEnv p storySection
                    (trim (js "The rival appears.")) (js "Add a rival.")).
Proof.
  apply instruction_stays_after_generation.
  - vm_compute. reflexivity.
  - vm_compute. discriminate.
  - vm_compute. discriminate.
  - vm_compute. discriminate.
  - intros prompt. reflexivity.
Defined.

(** The story of [storyState], in update mode, is out of it once its
    instruction is cleared. *)
Lemma clearSectionPrompt_leaves_update_mode_witness :
  let st' := clearSectionPrompt (js "story") storyState in
  isUpdate storyState (js "story") = true
  /\ isUpdate st' (js "story") = false
  /\ get (js "story") (sectionPrompts st') = Some []
  /\ sectionPrompt sampleEnv st' (js "story")
     = Some (freshPrompt sampleEnv nebulaProject storySection
               (otherSections (gddData storyState) (js "story")) []).
Proof.
  assert (Hreg : inRegistry (js "story") = true) by (vm_compute; reflexivity).
  assert (Hs : findSection (js "story") = Some storySection)
    by (vm_compute; reflexivity).
  assert (Hp : currentProject storyState = Some nebulaProject)
    by (vm_compute; reflexivity).
  destruct (clearSectionPrompt_leaves_update_mode sampleEnv (js "story")
              storyState Hreg) as (Hg & _ & Hu & Hfresh & _).
  split; [vm_compute; reflexivity|].
  split; [exact Hu|]. split; [exact Hg|].
  exact (Hfresh storySection nebulaProject Hs Hp).
Defined.

(** ** What a new project takes over from the one before *)

Section NewProject.

Variable e : env.

Lemma freshPrompt_quotes_instruction (p : project) (section : sectionDef)
    (others customPrompt : jsstring) :
  customPrompt <> [] ->
  occursIn customPrompt (freshPrompt e p section others customPrompt).
Proof.
  intros H. apply nonEmpty_spec in H. unfold freshPrompt. rewrite H.
  rewrite <- !app_assoc. locate_part.
Qed.

Lemma sectionPrompt_quotes_instruction (st : state) (sectionId : jsstring)
    (section : sectionDef) :
  findSection sectionId = Some section ->
  currentProject st <> None ->
  customPromptOf st sectionId <> [] ->
  exists prompt, sectionPrompt e st sectionId = Some prompt
                 /\ occursIn (customPromptOf st sectionId) prompt.
Proof.
  intros Hsec Hp Hc. unfold sectionPrompt. rewrite Hsec.
  destruct (currentProject st) as [p|]; [|contradiction].
  eexists. split; [reflexivity|].
  destruct (isUpdate st sectionId).
  - apply updatePrompt_quotes.
  - now apply freshPrompt_quotes_instruction.
Qed.

(** X18: creating a project replaces the project and the section contents
    only: the custom instructions, the saved diagrams and the chat history
    of the project before stay in the store, and an instruction left for a
    section is sent with the next generation of that section in the new
    project. *)
Theorem createProject_keeps_instructions (form : projectForm) (st : state) :
  trim (newProjectName form) <> [] ->
  let st' := createProject e form st in
  sectionPrompts st' = sectionPrompts st
  /\ diagramHistory st' = diagramHistory st
  /\ chatHistory st' = chatHistory st
  /\ keys (gddData st') = [js "overview"]
  /\ forall sectionId section,
       findSection sectionId = Some section ->
       customPromptOf st sectionId <> [] ->
       exists prompt,
         sectionPrompt e st' sectionId = Some prompt
         /\ occursIn (customPromptOf st sectionId) prompt.
Proof.
  intros Hname. cbv zeta.
  assert (Hst : exists p g,
            createProject e form st
            = {| currentProject := Some p; gddData := [(js "overview", g)];
                 sectionPrompts := sectionPrompts st;
                 diagramHistory := diagramHistory st;
                 chatHistory := chatHistory st;
                 generatingSection := generatingSection st;
                 selectedModel := selectedModel st;
                 isDarkTheme := isDarkTheme st |}).
  { unfold createProject. apply unitsEq_false in Hname. rewrite Hname. eauto. }
  destruct Hst as (p & g & Hst). rewrite Hst.
  cbn [sectionPrompts diagramHistory chatHistory gddData].
  split; [reflexivity|]. split; [reflexivity|]. split; [reflexivity|].
  split; [reflexivity|].
  intros sectionId section Hsec Hc.
  set (st' := {| currentProject := Some p |}).
  destruct (sectionPrompt_quotes_instruction st' sectionId section Hsec)
    as (prompt & Hprompt & Hocc); [discriminate | exact Hc |].
  exists prompt. split; [exact Hprompt | exact Hocc].
Qed.

End NewProject.

Lemma createProject_keeps_instructions_witness :
  let st' := createProject sampleEnv nebulaForm storyState in
  sectionPrompts st' = sectionPrompts storyState
  /\ diagramHistory st' = diagramHistory storyState
  /\ chatHistory st' = chatHistory storyState
  /\ keys (gddData st') = [js "overview"]
  /\ forall sectionId section,
       findSection sectionId = Some section ->
       customPromptOf storyState sectionId <> [] ->
       exists prompt,
         sectionPrompt sampleEnv st' sectionId = Some prompt
         /\ occursIn (customPromptOf storyState sectionId) prompt.
Proof.
  apply createProject_keeps_instructions. vm_compute. discriminate.
Defined.

(** ** Chat: which sections are quoted *)

Section ChatSelection.

Lemma filter_filter_all {A} (f g : A -> bool) (l : list A) :
  (forall a, In a l -> g a = true -> f a = true) ->
  filter f (filter g l) = filter g l.
Proof.
  intros H. apply filter_all. apply forallb_forall.
  intros a Ha. apply filter_In in Ha as [Hin Hg]. auto.
Qed.

Lemma filter_filter_none {A} (f g : A -> bool) (l : list A) :
  (forall a, In a l -> g a = true -> f a = false) ->
  filter f (filter g l) = [].
Proof.
  intros H. induction l as [|a l IH]; [reflexivity|]. simpl.
  destruct (g a) eqn:Eg; simpl.
  - rewrite (H a (or_introl eq_refl) Eg). apply IH. intros; apply H; simpl; auto.
  - apply IH. intros; apply H; simpl; auto.
Qed.

Lemma trimStart_length (s : jsstring) :
  (List.length (trimStart s) <= List.length s)%nat.
Proof.
  destruct (trimStart_prefix s) as (w & Hw & _).
  rewrite Hw at 2. rewrite length_app. lia.
Qed.

Lemma trim_length (s : jsstring) : (List.length (trim s) <= List.length s)%nat.
Proof.
  unfold trim, trimEnd. rewrite length_rev.
  etransitivity; [apply trimStart_length|]. rewrite length_rev.
  apply trimStart_length.
Qed.

(** X19: which sections a chat message gets in full.  For a broad
    question every filled section is quoted in full and none is
    summarised; for a message without any keyword no section is quoted in
    full and every filled one is summarised; and a summary never quotes
    more than 100 units of a section. *)
Theorem chat_sections_by_message (st : state) (message : jsstring) :
  let ids := detectRelevantSections st message in
  let filled := filter (fun s => isFilled st (s_id s)) GDD_SECTIONS in
  (isBroad (toLowerCase message) = true ->
     relevantSections st ids = filled /\ summarisedSections st ids = [])
  /\ (isBroad (toLowerCase message) = false ->
      sectionScores (toLowerCase message) = [] ->
        relevantSections st ids = [] /\ summarisedSections st ids = filled)
  /\ (forall content,
        (List.length (trim (substring0 100 (firstLine content))) <= 100)%nat).
Proof.
  cbv zeta. split; [|split].
  - intros Hb. unfold relevantSections, summarisedSections, detectRelevantSections.
    rewrite Hb.
    assert (Hrel : forall s, In s GDD_SECTIONS -> isFilled st (s_id s) = true ->
              isRelevant (map s_id (filter (fun s => isFilled st (s_id s))
                                           GDD_SECTIONS)) s = true).
    { intros s Hs Hf. apply isRelevant_spec. apply in_map.
      apply filter_In. now split. }
    split.
    + now apply filter_filter_all.
    + apply filter_filter_none. intros s Hs Hf. now rewrite Hrel.
  - intros Hb Hscores.
    unfold relevantSections, summarisedSections, detectRelevantSections.
    rewrite Hb, Hscores. cbn [stableSort map].
    split.
    + apply filter_filter_none. reflexivity.
    + apply filter_filter_all. reflexivity.
  - intros content. etransitivity; [apply trim_length|].
    unfold substring0. apply firstn_le_length.
Qed.

End ChatSelection.

(** ** HTML import *)

Section HtmlImport.

Variable e : env.

Lemma registry_heading (s : sectionDef) :
  In s GDD_SECTIONS ->
  boundaryOf knownSectionTitles (js "## " ++ s_title s) = RefId (s_id s)
  /\ nonEmpty (s_id s) = true
  /\ ~ In 10 (js "## " ++ s_title s).
Proof.
  intros H. pose proof registry_headings as R.
  rewrite Forall_forall in R. exact (R s H).
Qed.

Lemma sectionBoundaries_none (n : nat) (lines : list jsstring) :
  noBoundary lines = true -> sectionBoundaries knownSectionTitles n lines = [].
Proof.
  intros H. rewrite <- (app_nil_r lines).
  now rewrite sectionBoundaries_skip.
Qed.

(** X20: an HTML document whose body is a level-2 heading with the title
    of a registry section and a paragraph of text is imported as that
    section with that text, when the text is not empty, has no white
    space around it and no line that opens a section. *)
Theorem html_section_imported (s : sectionDef) (c : jsstring) :
  In s GDD_SECTIONS ->
  survivesRoundTrip c = true ->
  option_map r_gdd
    (parseHTMLImport e
       (Some [ ElementNode (js "H2") [TextNode (s_title s)];
               ElementNode (js "P") [TextNode c] ]))
  = Some [ (s_id s, importedEntry e c) ].
Proof.
  intros Hs Hc. unfold survivesRoundTrip in Hc.
  rewrite !andb_true_iff in Hc. destruct Hc as [[Hne Htrim] Hnb].
  apply unitsEq_spec in Htrim.
  destruct (registry_heading s Hs) as (Hb & Hid & Hline).
  unfold parseHTMLImport. cbn [option_map]. f_equal.
  assert (Hwalk : List.concat
            (map walk [ ElementNode (js "H2") [TextNode (s_title s)];
                        ElementNode (js "P") [TextNode c] ])
          = [] ++ 10 :: (js "## " ++ s_title s) ++ 10 :: c).
  { cbn [map walk List.concat].
    replace (openingMark (toLowerCase (js "H2"))) with (nl ++ js "## ")
      by (vm_compute; reflexivity).
    replace (openingMark (toLowerCase (js "P"))) with nl
      by (vm_compute; reflexivity).
    unfold nl. rewrite !app_nil_r, <- !app_assoc. reflexivity. }
  rewrite Hwalk. unfold parseMarkdownImport, importedGdd. cbn [r_gdd].
  rewrite !split_app_sep.
  rewrite (split_no_sep 10 (js "## " ++ s_title s)) by assumption.
  cbn [split app].
  set (body := split 10 c).
  match goal with
  | |- context [sectionBoundaries ?known ?n ?lines] =>
    assert (Hbounds : sectionBoundaries known n lines
                      = [(1%nat, RefId (s_id s))])
  end.
  { cbn [sectionBoundaries]. rewrite boundaryOf_empty_line, Hb.
    cbn [truthyRef]. rewrite Hid.
    now rewrite sectionBoundaries_none. }
  rewrite Hbounds. cbn [collectSections List.length].
  unfold slice. cbn [skipn Nat.sub]. rewrite Nat.sub_0_r, firstn_all. subst body. unfold nl. rewrite join_split, Htrim, Hne.
  reflexivity.
Qed.

End HtmlImport.

Lemma html_section_imported_witness :
  option_map r_gdd
    (parseHTMLImport sampleEnv
       (Some [ ElementNode (js "H2") [TextNode (s_title storySection)];
               ElementNode (js "P") [TextNode (js "A tale of two moons.")] ]))
  = Some [ (s_id storySection,
            importedEntry sampleEnv (js "A tale of two moons.")) ].
Proof.
  apply html_section_imported.
  - right. right. left. reflexivity.
  - vm_compute. reflexivity.
Defined.

(** ** Files dropped on the import zone *)

Section DroppedFiles.

Lemma lowerUnit_shape (u : Z) :
  (exists v, lowerUnit u = [v]) \/ lowerUnit u = [0x69; 0x307].
Proof.
  unfold lowerUnit.
  repeat match goal with
         | |- context [if ?b then _ else _] => destruct b
         end; eauto.
Qed.

Lemma lowerUnit_dot (u : Z) : lowerUnit u = [0x2E] -> u = 0x2E.
Proof.
  unfold lowerUnit.
  repeat match goal with
         | |- context [if ?b then _ else _] => destruct b eqn:?
         end;
    intros H; injection H as H;
    repeat match goal with
           | E : _ && _ = true |- _ => apply andb_true_iff in E as [? ?]
           | E : (_ <=? _) = true |- _ => apply Z.leb_le in E
           | E : (_ =? _) = true |- _ => apply Z.eqb_eq in E
           end; lia.
Qed.

Lemma lower_last (name x : jsstring) (v : Z) :
  toLowerCase name = x ++ [v] -> v <> 0x307 ->
  exists pre u, name = pre ++ [u] /\ lowerUnit u = [v] /\ toLowerCase pre = x.
Proof.
  intros H Hv. destruct (exists_last (l := name)) as (pre & u & ->).
  { intros ->. destruct x; discriminate. }
  unfold toLowerCase in *. rewrite flat_map_app in H. cbn [flat_map] in H.
  rewrite app_nil_r in H. exists pre, u. split; [reflexivity|].
  destruct (lowerUnit_shape u) as [[w Hw]|Hw]; rewrite Hw in *.
  - apply app_inj_tail in H as [-> ->]. auto.
  - change [0x69; 0x307] with ([0x69] ++ [0x307]) in H.
    rewrite app_assoc in H. apply app_inj_tail in H as [_ E].
    symmetry in E. contradiction.
Qed.

(** A lower-cased name that ends with [suffix] comes from a name that
    ends with units whose lower case is [suffix], unit by unit. *)
Lemma lower_suffix (suffix : jsstring) :
  ~ In 0x307 suffix ->
  forall name x,
    toLowerCase name = x ++ suffix ->
    exists pre tail,
      name = pre ++ tail /\ toLowerCase pre = x
      /\ Forall2 (fun u v => lowerUnit u = [v]) tail suffix.
Proof.
  induction suffix as [|v suffix IH] using rev_ind; intros Hs name x H.
  - rewrite app_nil_r in H. exists name, []. rewrite app_nil_r. auto.
  - rewrite app_assoc in H.
    destruct (lower_last name (x ++ suffix) v H) as (pre1 & u & -> & Hu & Hpre).
    { intros ->. apply Hs. apply in_or_app. right. now left. }
    destruct (IH (fun Hin => Hs (in_or_app _ _ _ (or_introl Hin))) pre1 x Hpre)
      as (pre & tail & -> & Hx & Htail).
    exists pre, (tail ++ [u]). rewrite <- app_assoc.
    split; [reflexivity|]. split; [assumption|].
    apply Forall2_app; [assumption | now constructor].
Qed.

Lemma endsWith_suffix (s suffix : jsstring) :
  endsWith s suffix = true -> exists x, s = x ++ suffix.
Proof.
  unfold endsWith. intros H. destruct (startsWith_prefix _ _ H) as [rest E].
  exists (rev rest). apply (f_equal (@rev Z)) in E.
  now rewrite rev_involutive, rev_app_distr, rev_involutive in E.
Qed.

Lemma lowered_tail (tail ext : jsstring) :
  Forall2 (fun u v => lowerUnit u = [v]) tail ext ->
  ~ In 0x2E ext ->
  toLowerCase tail = ext /\ ~ In 0x2E tail.
Proof.
  induction 1 as [|u v tail ext Hu _ IH]; intros Hdot; [split; auto|].
  destruct IH as [IH1 IH2]; [intros Hin; apply Hdot; now right|].
  split.
  - unfold toLowerCase in *. cbn [flat_map]. now rewrite Hu, IH1.
  - intros [->|Hin]; [|contradiction].
    apply Hdot. left. change (lowerUnit 0x2E) with [0x2E] in Hu. congruence.
Qed.

Lemma last_app_one {A} (l : list A) (a d : A) : last (l ++ [a]) d = a.
Proof. apply last_last. Qed.

(** A name whose lower case ends with a dot and [ext] has the extension
    [ext]. *)
Lemma extensionOf_suffix (name ext : jsstring) :
  ~ In 0x307 ext -> ~ In 0x2E ext ->
  endsWith (toLowerCase name) (0x2E :: ext) = true ->
  extensionOf name = ext.
Proof.
  intros Hc Hdot H. destruct (endsWith_suffix _ _ H) as [x Hx].
  destruct (lower_suffix (0x2E :: ext)) with (name := name) (x := x)
    as (pre & tail & -> & _ & Htail); [|assumption|].
  { intros [E|Hin]; [discriminate | contradiction]. }
  inversion Htail as [|d v t ext' Hd Ht]; subst.
  apply lowerUnit_dot in Hd. subst d.
  destruct (lowered_tail t ext Ht Hdot) as [Hlow Hnodot].
  unfold extensionOf. rewrite split_app_sep, (split_no_sep 0x2E t) by assumption.
  now rewrite last_app_one.
Qed.

(** X21: every file that the drop zone lets through is one that
    [importProjectFile] has a parser for: a name whose lower case ends
    with .json, .md, .html or .htm has the extension json, md, html or
    htm. *)
Theorem dropped_file_has_a_parser (name : jsstring) :
  hasValidExt name = true -> isSupported (formatOf name) = true.
Proof.
  assert (Hext : forall ext,
            forallb (fun c => negb (c =? 0x307)) ext = true ->
            forallb (fun c => negb (c =? 0x2E)) ext = true ->
            endsWith (toLowerCase name) (0x2E :: ext) = true ->
            extensionOf name = ext).
  { intros ext H1 H2. apply extensionOf_suffix; now apply not_In_sep. }
  unfold hasValidExt, validExts. cbn [existsb]. rewrite !orb_true_iff.
  unfold formatOf.
  intros [H|[H|[H|[H|H]]]]; [| | | |discriminate].
  - rewrite (Hext (js "json")); [|vm_compute; reflexivity ..|exact H].
    reflexivity.
  - rewrite (Hext (js "md")); [|vm_compute; reflexivity ..|exact H].
    reflexivity.
  - rewrite (Hext (js "html")); [|vm_compute; reflexivity ..|exact H].
    reflexivity.
  - rewrite (Hext (js "htm")); [|vm_compute; reflexivity ..|exact H].
    reflexivity.
Qed.

End DroppedFiles.

Lemma dropped_file_has_a_parser_witness :
  isSupported (formatOf (js "Nebula.Run_GDD.JSON")) = true.
Proof.
  apply dropped_file_has_a_parser. vm_compute. reflexivity.
Defined.

(** ** What the markdown export holds *)

Section ExportedSections.

Variables e e' : env.

(** What the export prints under the heading of a section. *)
Lemma exportSection_text (gdd : obj sectionData) (md : jsstring)
    (s : sectionDef) :
  exportSection gdd md s
  = md ++ js "## " ++ s_title s ++ nl ++ nl
    ++ match contentAt (s_id s) gdd with
       | Some c => if nonEmpty c then c else placeholder
       | None => placeholder
       end ++ nl ++ nl.
Proof.
  unfold exportSection, contentAt.
  destruct (get (s_id s) gdd) as [[[c|] u]|]; cbn [content]; try reflexivity.
  destruct (nonEmpty c); reflexivity.
Qed.

Lemma exportBody_holds (gdd : obj sectionData) (s : sectionDef)
    (sections : list sectionDef) (md : jsstring) :
  In s sections ->
  occursIn (exportSection gdd [] s) (fold_left (exportSection gdd) sections md).
Proof.
  revert md. induction sections as [|a l IH]; intros md; [intros []|].
  intros [->|H]; cbn [fold_left]; [|now apply IH].
  assert (Hacc : forall l md', occursIn (exportSection gdd [] s) md' ->
            occursIn (exportSection gdd [] s)
                     (fold_left (exportSection gdd) l md')).
  { clear. induction l as [|a l IH]; intros md' H; [exact H|].
    cbn [fold_left]. apply IH. unfold exportSection at 2.
    now apply occursIn_before. }
  apply Hacc. unfold exportSection. apply occursIn_later. cbn [app].
  apply occursIn_refl.
Qed.

(** X22: the markdown export holds every section of the registry under
    its level-2 heading: the stored content as it is when there is some,
    the placeholder sentence otherwise.  So what [saveSection] stored for
    a registry section is what the export prints for it. *)
Theorem export_holds_every_section (p : project) (gdd : obj sectionData)
    (s : sectionDef) :
  In s GDD_SECTIONS ->
  occursIn (js "## " ++ s_title s ++ nl ++ nl
            ++ match contentAt (s_id s) gdd with
               | Some c => if nonEmpty c then c else placeholder
               | None => placeholder
               end ++ nl ++ nl)
           (generateMarkdownExport e p gdd)
  /\ forall value st,
       value <> [] ->
       occursIn (js "## " ++ s_title s ++ nl ++ nl ++ value ++ nl ++ nl)
                (generateMarkdownExport e p
                   (gddData (saveSection e' (Some value) (s_id s) st))).
Proof.
  intros Hs.
  assert (G : forall gdd',
            occursIn (js "## " ++ s_title s ++ nl ++ nl
                      ++ match contentAt (s_id s) gdd' with
                         | Some c => if nonEmpty c then c else placeholder
                         | None => placeholder
                         end ++ nl ++ nl)
                     (generateMarkdownExport e p gdd')).
  { intros gdd'. unfold generateMarkdownExport.
    pose proof (exportBody_holds gdd' s GDD_SECTIONS (exportHeader e p) Hs) as H.
    now rewrite exportSection_text in H. }
  split; [apply G|].
  intros value st Hv. specialize (G (gddData (saveSection e' (Some value) (s_id s) st))).
  unfold saveSection in *. cbn [gddData touch withGddData] in *.
  unfold contentAt in G. rewrite get_set_same in G. cbn [content] in G.
  apply nonEmpty_spec in Hv. now rewrite Hv in G.
Qed.

End ExportedSections.

Lemma export_holds_every_section_witness :
  occursIn (js "## " ++ s_title storySection ++ nl ++ nl
            ++ match contentAt (s_id storySection) (gddData storyState) with
               | Some c => if nonEmpty c then c else placeholder
               | None => placeholder
               end ++ nl ++ nl)
           (generateMarkdownExport sampleEnv nebulaProject (gddData storyState))
  /\ forall value st,
       value <> [] ->
       occursIn (js "## " ++ s_title storySection ++ nl ++ nl ++ value ++ nl ++ nl)
                (generateMarkdownExport sampleEnv nebulaProject
                   (gddData (saveSection sampleEnv (Some value)
                               (s_id storySection) st))).
Proof.
  apply export_holds_every_section. right. right. left. reflexivity.
Defined.

(** ** Diagram generation: what is sent *)

Section DiagramPrompt.

Variable e : env.

(** X23: what [generateDiagram] sends.  The diagram in the editor is sent
    only together with an instruction: when both fields are not blank the
    prompt quotes the code, fenced, and the instruction, both trimmed;
    otherwise the prompt is the same whatever the editor holds, and it
    quotes the instruction when there is one.  Without a project nothing
    is sent and the editor is left as it is. *)
Theorem generateDiagram_modes (p : project) (gdd : obj sectionData)
    (type customField codeField : jsstring) :
  let prompt := diagramPrompt e p gdd type customField codeField in
  (isModifying customField codeField = true <->
     trim codeField <> [] /\ trim customField <> [])
  /\ (isModifying customField codeField = true ->
        occursIn (fence ++ js "mermaid" ++ nl ++ trim codeField ++ nl ++ fence)
                 prompt
        /\ occursIn (trim customField) prompt)
  /\ (isModifying customField codeField = false ->
        (trim customField <> [] -> occursIn (trim customField) prompt)
        /\ forall codeField',
             isModifying customField codeField' = false ->
             diagramPrompt e p gdd type customField codeField' = prompt)
  /\ (forall complete st,
        currentProject st = None ->
        generateDiagram e type customField codeField complete st = None).
Proof.
  cbv zeta. unfold diagramPrompt. split; [|split; [|split]].
  - unfold isModifying. now rewrite andb_true_iff, !nonEmpty_spec.
  - intros ->. unfold modifyDiagramPrompt. split.
    + exists (nl ++ js "You have an existing Mermaid diagram for the game "
              ++ dquote ++ p_name p ++ dquote ++ js ":" ++ nl ++ nl).
      eexists. rewrite <- !app_assoc. reflexivity.
    + locate_part.
  - intros Hm. rewrite Hm. split.
    + intros Hc. apply nonEmpty_spec in Hc. unfold freshDiagramPrompt.
      rewrite Hc, <- ?app_assoc. locate_part.
    + intros codeField' ->. reflexivity.
  - intros complete st Hp. unfold generateDiagram. now rewrite Hp.
Qed.

End DiagramPrompt.

(** ** Edits touch one section *)

Section OneSection.

Variable e : env.

(** X25: generating a section and saving a manual edit change the entry
    of that section only: every other section keeps its entry, and the
    custom instructions, the saved diagrams and the chat history are as
    before, whatever the service answered. *)
Theorem section_edits_touch_one_section (contentEl : bool)
    (complete : jsstring -> option jsstring) (editor : option jsstring)
    (sectionId other : jsstring) (st : state) :
  other <> sectionId ->
  let generated := generateSection e contentEl complete sectionId st in
  let saved := saveSection e editor sectionId st in
  get other (gddData generated) = get other (gddData st)
  /\ get other (gddData saved) = get other (gddData st)
  /\ sectionPrompts generated = sectionPrompts st
  /\ sectionPrompts saved = sectionPrompts st
  /\ diagramHistory generated = diagramHistory st
  /\ diagramHistory saved = diagramHistory st
  /\ chatHistory generated = chatHistory st
  /\ chatHistory saved = chatHistory st.
Proof.
  intros Hother. cbv zeta.
  assert (Hg : get other (gddData (generateSection e contentEl complete sectionId st))
               = get other (gddData st)
               /\ sectionPrompts (generateSection e contentEl complete sectionId st)
                  = sectionPrompts st
               /\ diagramHistory (generateSection e contentEl complete sectionId st)
                  = diagramHistory st
               /\ chatHistory (generateSection e contentEl complete sectionId st)
                  = chatHistory st).
  { unfold generateSection.
    destruct (sectionPrompt e st sectionId) as [prompt|]; [|auto].
    destruct contentEl; cbn [negb]; [|auto].
    destruct (complete prompt) as [response|]; [|auto].
    destruct (nonEmpty response); [|auto].
    cbn [gddData sectionPrompts diagramHistory chatHistory touch withGddData
         withGenerating].
    now rewrite get_set_other. }
  assert (Hs : get other (gddData (saveSection e editor sectionId st))
               = get other (gddData st)
               /\ sectionPrompts (saveSection e editor sectionId st)
                  = sectionPrompts st
               /\ diagramHistory (saveSection e editor sectionId st)
                  = diagramHistory st
               /\ chatHistory (saveSection e editor sectionId st)
                  = chatHistory st).
  { unfold saveSection. destruct editor as [value|]; [|auto].
    cbn [gddData sectionPrompts diagramHistory chatHistory touch withGddData].
    now rewrite get_set_other. }
  tauto.
Qed.

End OneSection.

Lemma section_edits_touch_one_section_witness :
  let generated := generateSection sampleEnv true
                     (fun _ => Some (js "A new tale.")) (js "story") storyState in
  let saved := saveSection sampleEnv (Some (js "A typed tale.")) (js "story")
                 storyState in
  get (js "overview") (gddData generated) = get (js "overview") (gddData storyState)
  /\ get (js "overview") (gddData saved) = get (js "overview") (gddData storyState)
  /\ sectionPrompts generated = sectionPrompts storyState
  /\ sectionPrompts saved = sectionPrompts storyState
  /\ diagramHistory generated = diagramHistory storyState
  /\ diagramHistory saved = diagramHistory storyState
  /\ chatHistory generated = chatHistory storyState
  /\ chatHistory saved = chatHistory storyState.
Proof.
  apply section_edits_touch_one_section. vm_compute. discriminate.
Defined.
